(** * Exposure and temperature control loops of two INDI camera drivers

    A shallow embedding of the polling code of
    - [indi-fishcamp/indi_fishcamp.cpp] (class [FishCampCCD]) and
    - [indi-fli/kepler.cpp], [indi-fli/kepler.h] (class [Kepler]),
    followed by theorems about the exposure countdown, the download step,
    the start and abort commands and the temperature and cooler polls.

    Conventions.
    - C [float] and [double] quantities (seconds, degrees Celsius, per cent)
      are the rationals [Q] they denote; every comparison of the source is
      the same comparison on [Q].
    - Where the source compares the result of floating-point arithmetic
      with a threshold (the time left of a FishCamp exposure, the distance
      of two temperatures in both drivers), each operation is rounded as
      IEEE 754 does, with [float] and [double] below, and a decimal
      constant is the [double] nearest to it.  The countdown of the Kepler
      worker, the duty cycle and the statistics of the legacy mode are
      computed on exact rationals.
    - C [int] results of the vendor SDK are [Z].
    - Every call that leaves the driver (a vendor SDK command, a timer
      request, a sleep, a property update sent to the client) appends an
      [Event] to the [trace] of the camera, in program order.
    - What the hardware answers is an argument of the operation that asks. *)

From Stdlib Require Import ZArith QArith Qabs Qround Qminmax Qpower List Bool Lia Lqa.
From Stdlib Require Import Permutation Sorted.
From stdpp Require strings gmap pretty.
Import ListNotations.

Open Scope Q_scope.

(** ** Numbers *)

(** [x < y] on doubles, as a boolean. *)
Definition Qltb (x y : Q) : bool := negb (Qle_bool y x).

(** [std::trunc], and the conversion of a double to an integer type:
    rounding toward zero. *)
Definition Qtrunc (x : Q) : Z :=
  if Qle_bool 0 x then Qfloor x else Qceiling x.

(** [std::round]: to the nearest integer, halves away from zero. *)
Definition Qround (x : Q) : Z :=
  if Qle_bool 0 x then Qfloor (x + (1 # 2)) else Qceiling (x - (1 # 2)).

(** ** Binary floating point

    C [float] and [double] values are the rationals they denote; an
    operation on them gives the exact result rounded to the nearest value
    of its type, ties to even.  Infinities, NaN and the sign of zero are
    not modelled: the seconds, degrees and per cent of these drivers are
    far from the overflow threshold. *)

(** The exponent [e] with [2 ^ e <= x < 2 ^ (e + 1)], for [0 < x]. *)
Definition binade (x : Q) : Z :=
  let e := (Z.log2 (Qnum x) - Z.log2 (Zpos (Qden x)))%Z in
  if Qle_bool (2 ^ e) x then e else (e - 1)%Z.

(** The integer nearest to [m], the even one of two that are equally
    near. *)
Definition nearest_even (m : Q) : Z :=
  let f := Qfloor m in
  let r := m - inject_Z f in
  if Qltb r (1 # 2) then f
  else if Qltb (1 # 2) r then (f + 1)%Z
  else if Z.even f then f else (f + 1)%Z.

(** The values with [prec] significant bits around [a] are the multiples
    of [2 ^ spacing prec emin a]; [2 ^ emin] is the least positive value. *)
Definition spacing (prec emin : Z) (a : Q) : Z :=
  Z.max (binade a - prec + 1) emin.

(** Rounding to [prec] significant bits. *)
Definition round (prec emin : Z) (x : Q) : Q :=
  if Qeq_bool x 0 then 0
  else
    let q := spacing prec emin (Qabs x) in
    let r := inject_Z (nearest_even (Qabs x / 2 ^ q)) * 2 ^ q in
    if Qle_bool 0 x then r else - r.

(** [float] is IEEE 754 binary32, [double] is binary64. *)
Definition float (x : Q) : Q := round 24 (-149) x.
Definition double (x : Q) : Q := round 53 (-1074) x.

(** The values of the two types. *)
Definition is_float (x : Q) : Prop := float x == x.
Definition is_double (x : Q) : Prop := double x == x.

Arguments round : simpl never.
Arguments float : simpl never.
Arguments double : simpl never.

(** ** Property states of the INDI protocol *)

Inductive IPState : Type := IPS_IDLE | IPS_OK | IPS_BUSY | IPS_ALERT.

Definition IPState_eqb (a b : IPState) : bool :=
  match a, b with
  | IPS_IDLE, IPS_IDLE | IPS_OK, IPS_OK
  | IPS_BUSY, IPS_BUSY | IPS_ALERT, IPS_ALERT => true
  | _, _ => false
  end.

(** ** FishCamp *)

Module FishCamp.

(** [#define TEMP_THRESHOLD .25] *)
Definition TEMP_THRESHOLD : Q := 1 # 4.

(** [#define MAX_CCD_TEMP 45] and [#define MIN_CCD_TEMP -55]: defined at the
    top of the file and used nowhere in it. *)
Definition MAX_CCD_TEMP : Q := 45.
Definition MIN_CCD_TEMP : Q := -55.

Record timeval : Type := { tv_sec : Z; tv_usec : Z }.

Inductive Event : Type :=
| SetTimer_ (ms : Z)                      (* SetTimer(ms) *)
| usleep (us : Z)
| setExposureLeft (t : Q)                 (* PrimaryCCD.setExposureLeft *)
| ExposureComplete                        (* ExposureComplete(&PrimaryCCD) *)
| TemperatureNP_apply (s : IPState) (v : Q)
| IDSetNumber_CoolerNP (s : IPState) (v : Q)
| fcUsb_cmd_setIntegrationTime (ms : Z)
| fcUsb_cmd_startExposure
| fcUsb_cmd_abortExposure
| fcUsb_cmd_getState
| fcUsb_cmd_getRawFrame
| fcUsb_cmd_setTemperature (t : Q)
| fcUsb_cmd_getTECInPowerOK
| fcUsb_cmd_getTemperature
| fcUsb_cmd_getTECPowerLevel.

(** The members of [FishCampCCD] the control loop reads and writes, the
    polling period of the base class, the number of timers requested so
    far (timer ids are handed out in sequence and are never -1), and the
    trace. *)
Record Camera : Type := {
  isConnected : bool;
  sim : bool;
  InExposure : bool;
  ExposureRequest : Q;
  ExpStart : timeval;
  TemperatureRequest : Q;
  TemperatureNP_s : IPState;
  TemperatureNP_value : Q;
  CoolerNP_s : IPState;
  CoolerN_value : Q;
  getCurrentPollingPeriod : Z;
  timers : nat;
  trace : list Event
}.

Definition with_exposure (b : bool) (req : Q) (st : timeval) (c : Camera) : Camera :=
  {| isConnected := isConnected c; sim := sim c;
     InExposure := b; ExposureRequest := req; ExpStart := st;
     TemperatureRequest := TemperatureRequest c;
     TemperatureNP_s := TemperatureNP_s c;
     TemperatureNP_value := TemperatureNP_value c;
     CoolerNP_s := CoolerNP_s c; CoolerN_value := CoolerN_value c;
     getCurrentPollingPeriod := getCurrentPollingPeriod c;
     timers := timers c; trace := trace c |}.

Definition set_InExposure (b : bool) (c : Camera) : Camera :=
  with_exposure b (ExposureRequest c) (ExpStart c) c.

Definition with_temperature (req : Q) (s : IPState) (v : Q) (c : Camera) : Camera :=
  {| isConnected := isConnected c; sim := sim c;
     InExposure := InExposure c; ExposureRequest := ExposureRequest c;
     ExpStart := ExpStart c;
     TemperatureRequest := req;
     TemperatureNP_s := s;
     TemperatureNP_value := v;
     CoolerNP_s := CoolerNP_s c; CoolerN_value := CoolerN_value c;
     getCurrentPollingPeriod := getCurrentPollingPeriod c;
     timers := timers c; trace := trace c |}.

Definition set_TemperatureRequest (t : Q) (c : Camera) : Camera :=
  with_temperature t (TemperatureNP_s c) (TemperatureNP_value c) c.
Definition TemperatureNP_setState (s : IPState) (c : Camera) : Camera :=
  with_temperature (TemperatureRequest c) s (TemperatureNP_value c) c.
Definition TemperatureNP_setValue (v : Q) (c : Camera) : Camera :=
  with_temperature (TemperatureRequest c) (TemperatureNP_s c) v c.

Definition with_cooler (s : IPState) (v : Q) (c : Camera) : Camera :=
  {| isConnected := isConnected c; sim := sim c;
     InExposure := InExposure c; ExposureRequest := ExposureRequest c;
     ExpStart := ExpStart c;
     TemperatureRequest := TemperatureRequest c;
     TemperatureNP_s := TemperatureNP_s c;
     TemperatureNP_value := TemperatureNP_value c;
     CoolerNP_s := s; CoolerN_value := v;
     getCurrentPollingPeriod := getCurrentPollingPeriod c;
     timers := timers c; trace := trace c |}.

Definition set_CoolerNP_s (s : IPState) (c : Camera) : Camera :=
  with_cooler s (CoolerN_value c) c.
Definition set_CoolerN_value (v : Q) (c : Camera) : Camera :=
  with_cooler (CoolerNP_s c) v c.

Definition with_trace (n : nat) (t : list Event) (c : Camera) : Camera :=
  {| isConnected := isConnected c; sim := sim c;
     InExposure := InExposure c; ExposureRequest := ExposureRequest c;
     ExpStart := ExpStart c;
     TemperatureRequest := TemperatureRequest c;
     TemperatureNP_s := TemperatureNP_s c;
     TemperatureNP_value := TemperatureNP_value c;
     CoolerNP_s := CoolerNP_s c; CoolerN_value := CoolerN_value c;
     getCurrentPollingPeriod := getCurrentPollingPeriod c;
     timers := n; trace := t |}.

(** Append one event to the trace. *)
Definition emit (e : Event) (c : Camera) : Camera :=
  with_trace (timers c) (trace c ++ [e]) c.

(** [SetTimer(ms)]: asks the event loop for a callback after [ms]
    milliseconds and returns the id of the new timer. *)
Definition SetTimer (ms : Z) (c : Camera) : Z * Camera :=
  (Z.of_nat (timers c), with_trace (S (timers c)) (trace c ++ [SetTimer_ ms]) c).

(** What the camera and the clock answer during one call of [TimerHit]. *)
Record Tick : Type := {
  now : timeval;                (* gettimeofday *)
  getState : nat -> Z;          (* k-th answer of fcUsb_cmd_getState *)
  getRawFrame : Z;              (* bytes returned by fcUsb_cmd_getRawFrame *)
  getTemperature : Z;           (* fcUsb_cmd_getTemperature, 1/100 degree *)
  getTECPowerLevel : Q          (* fcUsb_cmd_getTECPowerLevel *)
}.

(** [int FishCampCCD::SetTemperature(double temperature)];
    [powerOK] is the answer of [fcUsb_cmd_getTECInPowerOK]. *)
Definition SetTemperature (powerOK : bool) (temperature : Q) (c : Camera)
  : Z * Camera :=
  let c := set_TemperatureRequest temperature c in
  let c := emit (fcUsb_cmd_setTemperature (TemperatureRequest c)) c in
  let c := emit fcUsb_cmd_getTECInPowerOK c in
  let c := if powerOK then set_CoolerNP_s IPS_OK c else set_CoolerNP_s IPS_IDLE c in
  let c := TemperatureNP_setState IPS_BUSY c in
  let c := emit (TemperatureNP_apply (TemperatureNP_s c) (TemperatureNP_value c)) c in
  (0%Z, c).

(** [bool FishCampCCD::StartExposure(float duration)]; [rc_start] is the
    result of [fcUsb_cmd_startExposure], stored in a [bool], and [t] the
    time of day read after it.  The argument becomes a [float] at the call;
    [duration * 1000.0] is a product of doubles. *)
Definition StartExposure (rc_start : Z) (t : timeval) (duration : Q) (c : Camera)
  : bool * Camera :=
  let duration := float duration in
  let c := with_exposure (InExposure c) duration (ExpStart c) c in
  let c := emit (fcUsb_cmd_setIntegrationTime (Qtrunc (double (duration * 1000)))) c in
  let rc := negb (rc_start =? 0)%Z in
  let c := emit fcUsb_cmd_startExposure c in
  let c := with_exposure (InExposure c) (ExposureRequest c) t c in
  let c := set_InExposure true c in
  (negb rc, c).

(** [bool FishCampCCD::AbortExposure()] *)
Definition AbortExposure (c : Camera) : bool * Camera :=
  let c := emit fcUsb_cmd_abortExposure c in
  let c := set_InExposure false c in
  (true, c).

(** Milliseconds of a [timeval], as [CalcTimeLeft] computes them:
    [tv_sec * 1000.0 + tv_usec / 1000], the division being on integers,
    the product and the sum on doubles. *)
Definition millis (t : timeval) : Q :=
  double (double (double (inject_Z (tv_sec t)) * 1000)
          + double (inject_Z (Z.quot (tv_usec t) 1000))).

(** [float FishCampCCD::CalcTimeLeft()]: computed in [double], returned as
    [float]. *)
Definition CalcTimeLeft (now : timeval) (c : Camera) : Q :=
  let timesince := double (millis now - millis (ExpStart c)) in
  let timesince := double (timesince / 1000) in
  let timeleft := double (ExposureRequest c - timesince) in
  float timeleft.

(** [int FishCampCCD::grabImage()] *)
Definition grabImage (numBytes : Z) (c : Camera) : Z * Camera :=
  let c := emit fcUsb_cmd_getRawFrame c in
  if negb (numBytes =? 0)%Z
  then (0%Z, emit ExposureComplete c)
  else ((-1)%Z, emit ExposureComplete c).

(** The loop [while (!sim && !ready)] of [TimerHit]; [k] counts the
    queries made so far.  The loop has no exit of its own other than the
    camera reporting state 0, so the model takes [fuel] and gives [None]
    when it is used up. *)
Fixpoint spin (fuel : nat) (ready : bool) (k : nat) (answers : nat -> Z)
         (slv : Z) (c : Camera) : option Camera :=
  match fuel with
  | O => None
  | S fuel' =>
      if negb (sim c) && negb ready then
        let state := answers k in
        let c := emit fcUsb_cmd_getState c in
        if (state =? 0)%Z
        then spin fuel' true (S k) answers slv c
        else spin fuel' ready (S k) answers slv (emit (usleep slv) c)
      else Some c
  end.

(** The [if (InExposure)] block of [TimerHit]; gives [timerHitID] and the
    camera.  The [float timeleft] is compared with the doubles 1.0, 0.25
    and 0.07; [100000 * timeleft] is a product of floats. *)
Definition TimerHit_exposure (fuel : nat) (hw : Tick) (c : Camera)
  : option (Z * Camera) :=
  let timerHitID := (-1)%Z in
  if InExposure c then
    let timeleft := CalcTimeLeft (now hw) c in
    if Qltb timeleft 1 then
      if Qltb (1 # 4) timeleft then
        Some (SetTimer 250 c)
      else if Qltb (double (7 # 100)) timeleft then
        Some (SetTimer 50 c)
      else
        let slv := Qtrunc (Qabs (float (100000 * timeleft))) in
        match spin fuel false 0 (getState hw) slv c with
        | None => None
        | Some c =>
            let c := emit (setExposureLeft 0) c in
            let c := set_InExposure false c in
            Some (timerHitID, snd (grabImage (getRawFrame hw) c))
        end
    else
      Some (timerHitID, emit (setExposureLeft timeleft) c)
  else Some (timerHitID, c).

(** [switch (TemperatureNP.getState())] of [TimerHit]; [rc / 100.0] and
    the difference are computed in [double]. *)
Definition TimerHit_temperature (hw : Tick) (c : Camera) : Camera :=
  match TemperatureNP_s c with
  | IPS_IDLE | IPS_OK =>
      let rc := getTemperature hw in
      let c := emit fcUsb_cmd_getTemperature c in
      let ccdTemp := double (inject_Z rc / 100) in
      if Qle_bool TEMP_THRESHOLD (Qabs (double (TemperatureNP_value c - ccdTemp))) then
        let c := TemperatureNP_setValue ccdTemp c in
        emit (TemperatureNP_apply (TemperatureNP_s c) (TemperatureNP_value c)) c
      else c
  | IPS_BUSY =>
      let c :=
        if sim c then TemperatureNP_setValue (TemperatureRequest c) c
        else
          let rc := getTemperature hw in
          let c := emit fcUsb_cmd_getTemperature c in
          TemperatureNP_setValue (double (inject_Z rc / 100)) c in
      emit (TemperatureNP_apply (TemperatureNP_s c) (TemperatureNP_value c)) c
  | IPS_ALERT => c
  end.

(** [switch (CoolerNP.s)] of [TimerHit]. *)
Definition TimerHit_cooler (hw : Tick) (c : Camera) : Camera :=
  match CoolerNP_s c with
  | IPS_OK =>
      let c := emit fcUsb_cmd_getTECPowerLevel c in
      let c := set_CoolerN_value (getTECPowerLevel hw) c in
      emit (IDSetNumber_CoolerNP (CoolerNP_s c) (CoolerN_value c)) c
  | _ => c
  end.

(** [void FishCampCCD::TimerHit()] *)
Definition TimerHit (fuel : nat) (hw : Tick) (c : Camera) : option Camera :=
  if negb (isConnected c) then Some c
  else
    match TimerHit_exposure fuel hw c with
    | None => None
    | Some (timerHitID, c) =>
        let c := TimerHit_temperature hw c in
        let c := TimerHit_cooler hw c in
        if (timerHitID =? -1)%Z
        then Some (snd (SetTimer (getCurrentPollingPeriod c) c))
        else Some c
    end.

(** *** Reading a trace *)

(** The intervals of the timers requested, oldest first. *)
Definition timer_requests (t : list Event) : list Z :=
  flat_map (fun e => match e with SetTimer_ ms => [ms] | _ => [] end) t.


(** How often completion was signalled. *)
Definition completions (t : list Event) : nat :=
  length (filter (fun e => match e with ExposureComplete => true | _ => false end) t).

(** The temperatures sent to the client, oldest first. *)
Definition temperature_updates (t : list Event) : list Q :=
  flat_map (fun e => match e with TemperatureNP_apply _ v => [v] | _ => [] end) t.

(** The cooler power levels sent to the client, oldest first. *)
Definition cooler_updates (t : list Event) : list Q :=
  flat_map (fun e => match e with IDSetNumber_CoolerNP _ v => [v] | _ => [] end) t.

(** How often the start command was issued. *)
Definition start_commands (t : list Event) : nat :=
  length (filter (fun e => match e with fcUsb_cmd_startExposure => true | _ => false end) t).

(** Two cameras that differ at most in the thermal members and in trace
    events that are neither timer requests nor completions. *)
Definition same_exposure (c c' : Camera) : Prop :=
  isConnected c' = isConnected c /\ sim c' = sim c /\
  InExposure c' = InExposure c /\ ExposureRequest c' = ExposureRequest c /\
  ExpStart c' = ExpStart c /\
  getCurrentPollingPeriod c' = getCurrentPollingPeriod c /\
  timers c' = timers c /\
  timer_requests (trace c') = timer_requests (trace c) /\
  completions (trace c') = completions (trace c).

(** What [n] unsuccessful rounds of the spin loop leave in the trace. *)
Fixpoint spin_rounds (n : nat) (slv : Z) : list Event :=
  match n with
  | O => []
  | S n' => fcUsb_cmd_getState :: usleep slv :: spin_rounds n' slv
  end.

(** The camera reports state 0 at query [n] and not before. *)
Definition first_ready (answers : nat -> Z) (n : nat) : Prop :=
  answers n = 0%Z /\ forall i, (i < n)%nat -> answers i <> 0%Z.

(** *** A camera on the bench

    A connected camera during an exposure of 2 s that started at second
    100; it is polled once a second, and the sensor was last reported at
    20 degrees. *)
Definition bench : Camera :=
  {| isConnected := true; sim := false;
     InExposure := true; ExposureRequest := 2;
     ExpStart := {| tv_sec := 100; tv_usec := 0 |};
     TemperatureRequest := 0;
     TemperatureNP_s := IPS_IDLE; TemperatureNP_value := 20;
     CoolerNP_s := IPS_IDLE; CoolerN_value := 40;
     getCurrentPollingPeriod := 1000;
     timers := 0; trace := [] |}.


(** A poll at [sec] seconds and [usec] microseconds; the camera is busy
    for the first [busy] state queries and ready from then on, hands over
    [bytes] bytes, and reads [centi] hundredths of a degree and [power]
    per cent. *)
Definition poll_at (sec usec : Z) (busy : nat) (bytes centi : Z) (power : Q) : Tick :=
  {| now := {| tv_sec := sec; tv_usec := usec |};
     getState := fun k => if (k <? busy)%nat then 1%Z else 0%Z;
     getRawFrame := bytes;
     getTemperature := centi;
     getTECPowerLevel := power |}.


(** The bench camera while it regulates toward 20 degrees, and with the
    cooler property OK. *)
Definition regulating : Camera :=
  TemperatureNP_setState IPS_BUSY (set_TemperatureRequest 20 bench).

End FishCamp.

(** ** FLI Kepler *)

Module Kepler.

(** [static constexpr double TEMPERATURE_THRESHOLD {0.1}]: the double
    nearest to one tenth, which is a little above it. *)
Definition TEMPERATURE_THRESHOLD : Q := double (1 # 10).
(** [TEMPERATURE_FREQUENCY_BUSY {1000}], [TEMPERATURE_FREQUENCY_IDLE {5000}],
    in milliseconds. *)
Definition TEMPERATURE_FREQUENCY_BUSY : Z := 1000.
Definition TEMPERATURE_FREQUENCY_IDLE : Z := 5000.

(** Which switch of [MergePlanesSP] is on. *)
Inductive HWMERGE : Type :=
  HWMERGE_FRAME_BOTH | HWMERGE_FRAME_LOWONLY | HWMERGE_FRAME_HIGHONLY.

Inductive Event : Type :=
| usleep (us : Z)                         (* usleep, sleep_for, in microseconds *)
| setExposureLeft (t : Q)                 (* PrimaryCCD.setExposureLeft *)
| ExposureComplete                        (* ExposureComplete(&PrimaryCCD) *)
| setExposureFailed                       (* PrimaryCCD.setExposureFailed *)
| setFrameBuffer (plane : HWMERGE)        (* PrimaryCCD.setFrameBuffer, setFrameBufferSize *)
| IDSetNumber_TemperatureNP (s : IPState) (v : Q)
| CoolerDutyNP_apply (s : IPState) (v : Q)
| Worker_quit                             (* m_Worker.quit() *)
| FPROCtrl_SetExposure (ns : Z)
| FPROFrame_CaptureStart
| FPROFrame_CaptureAbort
| FPROFrame_CaptureStop
| FPROFrame_GetVideoFrameUnpacked (timeout_ms : Z)
| FPROCtrl_SetTemperatureSetPoint (t : Q)
| FPROCtrl_GetTemperatures
| FPROCtrl_GetCoolerDutyCycle.

(** The members of [Kepler] and of its base class that the worker and the
    temperature timer read and write (the build without [LEGACY_MODE]). *)
Record Camera : Type := {
  TemperatureNP_s : IPState;
  TemperatureN_value : Q;                 (* TemperatureN[0].value *)
  m_TargetTemperature : Q;
  TemperatureTimer_interval : Z;          (* m_TemperatureTimer, milliseconds *)
  CoolerDutyNP_s : IPState;
  CoolerDutyNP_value : Q;                 (* CoolerDutyNP[0] *)
  ExposureDuration : Q;                   (* PrimaryCCD.getExposureDuration() *)
  MergePlanesSP : option HWMERGE;         (* MergePlanesSP.findOnSwitchIndex() *)
  trace : list Event
}.

Definition with_temperature (s : IPState) (v target : Q) (ms : Z) (c : Camera) : Camera :=
  {| TemperatureNP_s := s; TemperatureN_value := v;
     m_TargetTemperature := target; TemperatureTimer_interval := ms;
     CoolerDutyNP_s := CoolerDutyNP_s c; CoolerDutyNP_value := CoolerDutyNP_value c;
     ExposureDuration := ExposureDuration c; MergePlanesSP := MergePlanesSP c;
     trace := trace c |}.

Definition set_TemperatureNP_s (s : IPState) (c : Camera) : Camera :=
  with_temperature s (TemperatureN_value c) (m_TargetTemperature c)
                   (TemperatureTimer_interval c) c.
Definition set_TemperatureN_value (v : Q) (c : Camera) : Camera :=
  with_temperature (TemperatureNP_s c) v (m_TargetTemperature c)
                   (TemperatureTimer_interval c) c.
Definition set_m_TargetTemperature (t : Q) (c : Camera) : Camera :=
  with_temperature (TemperatureNP_s c) (TemperatureN_value c) t
                   (TemperatureTimer_interval c) c.
(** [m_TemperatureTimer.start(ms)] and [m_TemperatureTimer.setInterval(ms)] *)
Definition TemperatureTimer_setInterval (ms : Z) (c : Camera) : Camera :=
  with_temperature (TemperatureNP_s c) (TemperatureN_value c)
                   (m_TargetTemperature c) ms c.

Definition with_cooler (s : IPState) (v : Q) (c : Camera) : Camera :=
  {| TemperatureNP_s := TemperatureNP_s c; TemperatureN_value := TemperatureN_value c;
     m_TargetTemperature := m_TargetTemperature c;
     TemperatureTimer_interval := TemperatureTimer_interval c;
     CoolerDutyNP_s := s; CoolerDutyNP_value := v;
     ExposureDuration := ExposureDuration c; MergePlanesSP := MergePlanesSP c;
     trace := trace c |}.

Definition with_trace (d : Q) (t : list Event) (c : Camera) : Camera :=
  {| TemperatureNP_s := TemperatureNP_s c; TemperatureN_value := TemperatureN_value c;
     m_TargetTemperature := m_TargetTemperature c;
     TemperatureTimer_interval := TemperatureTimer_interval c;
     CoolerDutyNP_s := CoolerDutyNP_s c; CoolerDutyNP_value := CoolerDutyNP_value c;
     ExposureDuration := d; MergePlanesSP := MergePlanesSP c;
     trace := t |}.

Definition emit (e : Event) (c : Camera) : Camera :=
  with_trace (ExposureDuration c) (trace c ++ [e]) c.
Definition setExposureDuration (d : Q) (c : Camera) : Camera :=
  with_trace d (trace c) c.

(** [int Kepler::SetTemperature(double temperature)]; [rc] is the result of
    [FPROCtrl_SetTemperatureSetPoint], asked for only when the call is
    made.  The difference is computed in [double]. *)
Definition SetTemperature (rc : Z) (temperature : Q) (c : Camera) : Z * Camera :=
  if Qltb (Qabs (double (temperature - TemperatureN_value c))) TEMPERATURE_THRESHOLD then
    (1%Z, c)
  else
    let result := rc in
    let c := emit (FPROCtrl_SetTemperatureSetPoint temperature) c in
    if (0 <=? result)%Z then
      let c := set_m_TargetTemperature temperature c in
      let c := TemperatureTimer_setInterval TEMPERATURE_FREQUENCY_BUSY c in
      (0%Z, c)
    else ((-1)%Z, c).

(** What the camera answers during one call of [readTemperature]:
    the two result codes, and the values of the local variables [cooler]
    and [dutycycle] after the calls (both start at 0). *)
Record Poll : Type := {
  GetTemperatures : Z;
  cooler : Q;
  GetCoolerDutyCycle : Z;
  dutycycle : Z
}.

(** The first half of [readTemperature]: the temperature.  Both
    differences are computed in [double]. *)
Definition readTemperature_temperature (hw : Poll) (c : Camera) : Camera :=
  let result := GetTemperatures hw in
  let c := emit FPROCtrl_GetTemperatures c in
  let c :=
    if (result <? 0)%Z then
      let c := set_TemperatureNP_s IPS_ALERT c in
      emit (IDSetNumber_TemperatureNP (TemperatureNP_s c) (TemperatureN_value c)) c
    else c in
  match TemperatureNP_s c with
  | IPS_IDLE | IPS_OK =>
      if Qltb TEMPERATURE_THRESHOLD (Qabs (double (cooler hw - TemperatureN_value c))) then
        let c := set_TemperatureN_value (cooler hw) c in
        emit (IDSetNumber_TemperatureNP (TemperatureNP_s c) (TemperatureN_value c)) c
      else c
  | IPS_BUSY =>
      let c :=
        if Qle_bool (Qabs (double (cooler hw - m_TargetTemperature c))) TEMPERATURE_THRESHOLD then
          let c := set_TemperatureNP_s IPS_OK c in
          TemperatureTimer_setInterval TEMPERATURE_FREQUENCY_IDLE c
        else c in
      let c := set_TemperatureN_value (cooler hw) c in
      emit (IDSetNumber_TemperatureNP (TemperatureNP_s c) (TemperatureN_value c)) c
  | IPS_ALERT => c
  end.

(** The second half of [readTemperature]: the cooler duty cycle. *)
Definition readTemperature_dutycycle (hw : Poll) (c : Camera) : Camera :=
  let result := GetCoolerDutyCycle hw in
  let c := emit FPROCtrl_GetCoolerDutyCycle c in
  if (result <? 0)%Z && negb (IPState_eqb (CoolerDutyNP_s c) IPS_ALERT) then
    let c := with_cooler IPS_ALERT (CoolerDutyNP_value c) c in
    emit (CoolerDutyNP_apply (CoolerDutyNP_s c) (CoolerDutyNP_value c)) c
  else if Qle_bool 1 (Qabs (inject_Z (dutycycle hw) - CoolerDutyNP_value c)) then
    let c := with_cooler (CoolerDutyNP_s c) (inject_Z (dutycycle hw)) c in
    let c := with_cooler (if (0 <? dutycycle hw)%Z then IPS_BUSY else IPS_IDLE)
                         (CoolerDutyNP_value c) c in
    emit (CoolerDutyNP_apply (CoolerDutyNP_s c) (CoolerDutyNP_value c)) c
  else c.

(** [void Kepler::readTemperature()] *)
Definition readTemperature (hw : Poll) (c : Camera) : Camera :=
  readTemperature_dutycycle hw (readTemperature_temperature hw c).

(** What the camera, the timer and the thread pool answer during one run
    of [workerExposure]. *)
Record Run : Type := {
  SetExposure : Z;                  (* result of FPROCtrl_SetExposure *)
  CaptureStart : nat -> Z;          (* result of the i-th FPROFrame_CaptureStart *)
  elapsed : nat -> Z;               (* exposureTimer.elapsed() in the k-th iteration, ms *)
  isAboutToQuit : nat -> bool;      (* the flag as read in the k-th iteration *)
  GetVideoFrameUnpacked : Z;        (* result of FPROFrame_GetVideoFrameUnpacked *)
  grabSize : Z                      (* bytes received, written back to grabSize *)
}.

(** [for (int i = 0; i < 3; i++)] of [workerExposure], with [n] attempts
    left; gives the last [result]. *)
Fixpoint capture_start (n i : nat) (answers : nat -> Z) (result : Z) (c : Camera)
  : Z * Camera :=
  match n with
  | O => (result, c)
  | S n' =>
      let result := answers i in
      let c := emit FPROFrame_CaptureStart c in
      if (result =? 0)%Z then (result, c)
      else capture_start n' (S i) answers result (emit (usleep (100 * 1000)) c)
  end.

(** The [do ... while (timeLeft > 0)] countdown of [workerExposure],
    from its [k]-th iteration on.  [Some (None, c)] is the [return] taken
    when the flag is set, [Some (Some timeLeft, c)] the normal exit. *)
Fixpoint countdown (fuel : nat) (k : nat) (duration : Q) (env : Run) (c : Camera)
  : option (option Q * Camera) :=
  match fuel with
  | O => None
  | S fuel' =>
      let timeLeft := Qmax (duration - inject_Z (elapsed env k) / 1000) 0 in
      if isAboutToQuit env k then Some (None, c)
      else
        let delay := Qmax (timeLeft - inject_Z (Qtrunc timeLeft)) (5 # 1000) in
        let timeLeft := inject_Z (Qround timeLeft) in
        let c := emit (setExposureLeft timeLeft) c in
        let c := emit (usleep (Qtrunc (delay * 1000000))) c in
        if Qltb 0 timeLeft then countdown fuel' (S k) duration env c
        else Some (Some timeLeft, c)
  end.

(** The download step of [workerExposure], from [uint32_t grabSize] on. *)
Definition download (timeLeft : Q) (env : Run) (c : Camera) : Camera :=
  let result := GetVideoFrameUnpacked env in
  let c := emit (FPROFrame_GetVideoFrameUnpacked (Qtrunc (timeLeft * 1000))) c in
  if (0 <=? result)%Z then
    let c := emit FPROFrame_CaptureAbort c in
    let c := match MergePlanesSP c with
             | Some plane => emit (setFrameBuffer plane) c
             | None => c
             end in
    let c := emit (setExposureLeft 0) c in
    emit ExposureComplete c
  else
    emit setExposureFailed c.

(** [void Kepler::workerExposure(const std::atomic_bool &isAboutToQuit,
    float duration)] *)
Definition workerExposure (fuel : nat) (env : Run) (duration : Q) (c : Camera)
  : option Camera :=
  let result := SetExposure env in
  let c := emit (FPROCtrl_SetExposure (Qtrunc (duration * 1000000000))) c in
  if negb (result =? 0)%Z then Some c
  else
    let c := setExposureDuration duration c in
    let '(result, c) := capture_start 3 0 (CaptureStart env) result c in
    if negb (result =? 0)%Z then Some c
    else
      match countdown fuel 0 duration env c with
      | None => None
      | Some (None, c) => Some c
      | Some (Some timeLeft, c) => Some (download timeLeft env c)
      end.

(** [bool Kepler::StartExposure(float duration)]: hands [workerExposure]
    to the worker thread and returns [true]; the camera given back is the
    one the worker leaves when it has run. *)
Definition StartExposure (fuel : nat) (env : Run) (duration : Q) (c : Camera)
  : option (bool * Camera) :=
  match workerExposure fuel env duration c with
  | None => None
  | Some c => Some (true, c)
  end.

(** [bool Kepler::AbortExposure()]; [rc] is the result of
    [FPROFrame_CaptureStop]. *)
Definition AbortExposure (rc : Z) (c : Camera) : bool * Camera :=
  let c := emit Worker_quit c in
  let c := emit FPROFrame_CaptureStop c in
  ((rc =? 0)%Z, c).

(** *** Reading a trace *)

(** How often completion was signalled, and how often failure. *)
Definition completions (t : list Event) : nat :=
  length (filter (fun e => match e with ExposureComplete => true | _ => false end) t).
Definition failures (t : list Event) : nat :=
  length (filter (fun e => match e with setExposureFailed => true | _ => false end) t).

(** How often a frame was asked for. *)
Definition grabs (t : list Event) : nat :=
  length (filter (fun e => match e with
                           | FPROFrame_GetVideoFrameUnpacked _ => true
                           | _ => false
                           end) t).

(** How often the start of the capture was attempted, and how often the
    countdown reported the time left. *)
Definition start_attempts (t : list Event) : nat :=
  length (filter (fun e => match e with FPROFrame_CaptureStart => true | _ => false end) t).
Definition countdown_reports (t : list Event) : nat :=
  length (filter (fun e => match e with setExposureLeft _ => true | _ => false end) t).

(** The temperature property as sent to the client, oldest first. *)
Definition temperature_updates (t : list Event) : list (IPState * Q) :=
  flat_map (fun e => match e with
                     | IDSetNumber_TemperatureNP s v => [(s, v)]
                     | _ => []
                     end) t.

(** The cooler duty cycle property as sent to the client, oldest first. *)
Definition cooler_updates (t : list Event) : list (IPState * Q) :=
  flat_map (fun e => match e with
                     | CoolerDutyNP_apply s v => [(s, v)]
                     | _ => []
                     end) t.


(** What [n] failed attempts to start the capture leave in the trace. *)
Fixpoint retry_rounds (n : nat) : list Event :=
  match n with
  | O => []
  | S n' => FPROFrame_CaptureStart :: usleep (100 * 1000) :: retry_rounds n'
  end.

(** The camera accepts the exposure time, and one of the three attempts to
    start the capture succeeds. *)
Definition started (env : Run) : Prop :=
  SetExposure env = 0%Z /\
  exists i, (i < 3)%nat /\ CaptureStart env i = 0%Z.

(** *** A camera on the bench

    Sensor last reported at 20 degrees, property state [s], target 0
    degrees, temperature polled every [ms] milliseconds, cooler last
    reported at 40 per cent. *)
Definition bench (s : IPState) (ms : Z) : Camera :=
  {| TemperatureNP_s := s; TemperatureN_value := 20;
     m_TargetTemperature := 0; TemperatureTimer_interval := ms;
     CoolerDutyNP_s := IPS_BUSY; CoolerDutyNP_value := 40;
     ExposureDuration := 0; MergePlanesSP := Some HWMERGE_FRAME_BOTH;
     trace := [] |}.

(** The same camera in state OK, polled every 5 s, with the sensor last
    reported at [v] degrees. *)
Definition bench_at (v : Q) : Camera :=
  set_TemperatureN_value v (bench IPS_OK 5000).

(** The double next below the double nearest to 0.05. *)
Definition below_0_05 : Q := 7205759403792793 # 144115188075855872.

(** One poll: result and value of the temperature read, result and value
    of the duty cycle read. *)
Definition poll (rc_t : Z) (t : Q) (rc_d d : Z) : Poll :=
  {| GetTemperatures := rc_t; cooler := t;
     GetCoolerDutyCycle := rc_d; dutycycle := d |}.

(** One run of the worker: the exposure is accepted, the first [failing]
    attempts to start the capture fail with -1, the timer stands at
    [ms k] in iteration [k], an abort arrives after [reads] reads of the
    flag, and the grab gives [rc] and [bytes]. *)
Definition run (failing : nat) (ms : nat -> Z) (reads : nat) (rc bytes : Z) : Run :=
  {| SetExposure := 0;
     CaptureStart := fun i => if (i <? failing)%nat then (-1)%Z else 0%Z;
     elapsed := ms;
     isAboutToQuit := fun k => (reads <=? k)%nat;
     GetVideoFrameUnpacked := rc;
     grabSize := bytes |}.

End Kepler.

(** ** FishCamp: the chain of polls *)

Module FishCampRun.
Import FishCamp.

(** The event loop calling [TimerHit] once for every timer that fires; each
    call gets its own answers from the clock and the camera. *)
Fixpoint polls (fuel : nat) (hws : list Tick) (c : Camera) : option Camera :=
  match hws with
  | [] => Some c
  | hw :: rest =>
      match TimerHit fuel hw c with
      | None => None
      | Some c' => polls fuel rest c'
      end
  end.

(** Two cameras with the same connection, the same exposure request and
    the same polling period. *)
Definition same_run (c c' : Camera) : Prop :=
  isConnected c' = isConnected c /\ sim c' = sim c /\
  ExposureRequest c' = ExposureRequest c /\ ExpStart c' = ExpStart c /\
  getCurrentPollingPeriod c' = getCurrentPollingPeriod c.

(** The camera reports ready after at most [fuel - 2] busy answers. *)
Definition answers_ready (fuel : nat) (hw : Tick) : Prop :=
  exists n, first_ready (getState hw) n /\ (n + 2 <= fuel)%nat.

(** The poll finds the time left, as [CalcTimeLeft] gives it, not above
    the double 0.07: the branch of the spin loop. *)
Definition due (c : Camera) (hw : Tick) : bool :=
  Qle_bool (CalcTimeLeft (now hw) c) (double (7 # 100)).

(** A [timeval] as [gettimeofday] fills it: seconds since the epoch, few
    enough for the milliseconds to be exact in [double], and microseconds
    below a million.  And the order of two of them. *)
Definition normal (t : timeval) : Prop :=
  (0 <= tv_sec t < 2 ^ 43)%Z /\ (0 <= tv_usec t < 1000000)%Z.
Definition not_after (a b : timeval) : Prop :=
  (tv_sec a < tv_sec b)%Z \/
  (tv_sec a = tv_sec b /\ (tv_usec a <= tv_usec b)%Z).

(** Two cameras with the same thermal members, to which the same
    temperatures and cooler power levels were reported. *)
Definition same_thermal (c c' : Camera) : Prop :=
  sim c' = sim c /\ TemperatureRequest c' = TemperatureRequest c /\
  TemperatureNP_s c' = TemperatureNP_s c /\
  TemperatureNP_value c' = TemperatureNP_value c /\
  CoolerNP_s c' = CoolerNP_s c /\ CoolerN_value c' = CoolerN_value c /\
  temperature_updates (trace c') = temperature_updates (trace c) /\
  cooler_updates (trace c') = cooler_updates (trace c).

(** An event that reports neither temperature nor cooler power. *)
Definition silent (e : Event) : bool :=
  match e with
  | TemperatureNP_apply _ _ | IDSetNumber_CoolerNP _ _ => false
  | _ => true
  end.

(** What a poll in state busy reports: the target in simulation, the
    reading of the camera otherwise. *)
Definition busy_report (c : Camera) (hw : Tick) : Q :=
  if sim c then TemperatureRequest c
  else double (inject_Z (getTemperature hw) / 100).

End FishCampRun.

(** ** Kepler: what a run of the worker leaves in the trace *)

Module KeplerRun.
Import Kepler.

(** The sleeps asked for, in microseconds, oldest first. *)
Definition sleeps (t : list Event) : list Z :=
  flat_map (fun e => match e with usleep us => [us] | _ => [] end) t.

(** The timeouts, in milliseconds, the frame was asked for with. *)
Definition grab_timeouts (t : list Event) : list Z :=
  flat_map (fun e => match e with
                     | FPROFrame_GetVideoFrameUnpacked ms => [ms]
                     | _ => []
                     end) t.

(** Between 5 ms and just below one second. *)
Definition short_sleep (us : Z) : Prop := (5000 <= us <= 999999)%Z.

(** Events that neither grab nor signal, with short sleeps only. *)
Definition quiet (t : list Event) : Prop :=
  Forall short_sleep (sleeps t) /\ grab_timeouts t = [] /\
  completions t = 0%nat /\ failures t = 0%nat.

(** [m_TemperatureTimer] firing once for every element of [hws]: each
    timeout calls [readTemperature]. *)
Definition temperature_timer (hws : list Poll) (c : Camera) : Camera :=
  fold_left (fun c hw => readTemperature hw c) hws c.

(** The cooler temperature read is within the threshold of [target]: the
    test of [readTemperature] in state busy. *)
Definition on_target (target : Q) (hw : Poll) : bool :=
  Qle_bool (Qabs (double (cooler hw - target))) TEMPERATURE_THRESHOLD.

End KeplerRun.

(** ** FishCamp: the frame *)

Module FishCampFrame.

(** Two's complement integers of C: [int] has 32 bits, [long] 64. *)
Definition wrap (bits : Z) (z : Z) : Z :=
  ((z + 2 ^ (bits - 1)) mod 2 ^ bits - 2 ^ (bits - 1))%Z.
Definition int (z : Z) : Z := wrap 32 z.
Definition long (z : Z) : Z := wrap 64 z.

(** What the driver tells the camera and the client about a frame. *)
Inductive Event : Type :=
| IDMessage_invalid_width (w : Z)     (* "Error: invalid width requested %d" *)
| IDMessage_invalid_height (h : Z)    (* "Error: invalid height request %d" *)
| fcUsb_cmd_setRoi (left top right bottom : Z).

(** The members of [PrimaryCCD] that [UpdateCCDFrame] and [initProperties]
    read and write, and the trace of the calls made. *)
Record Chip : Type := {
  XRes : Z; YRes : Z;
  BinX : Z; BinY : Z;
  BPP : Z;
  SubX : Z; SubY : Z; SubW : Z; SubH : Z;     (* setFrame *)
  FrameBufferSize : Z;                        (* setFrameBufferSize *)
  trace : list Event
}.

Definition emit (e : Event) (c : Chip) : Chip :=
  {| XRes := XRes c; YRes := YRes c; BinX := BinX c; BinY := BinY c; BPP := BPP c;
     SubX := SubX c; SubY := SubY c; SubW := SubW c; SubH := SubH c;
     FrameBufferSize := FrameBufferSize c;
     trace := trace c ++ [e] |}.

Definition setFrame (x y w h : Z) (c : Chip) : Chip :=
  {| XRes := XRes c; YRes := YRes c; BinX := BinX c; BinY := BinY c; BPP := BPP c;
     SubX := x; SubY := y; SubW := w; SubH := h;
     FrameBufferSize := FrameBufferSize c;
     trace := trace c |}.

Definition setFrameBufferSize (nbuf : Z) (c : Chip) : Chip :=
  {| XRes := XRes c; YRes := YRes c; BinX := BinX c; BinY := BinY c; BPP := BPP c;
     SubX := SubX c; SubY := SubY c; SubW := SubW c; SubH := SubH c;
     FrameBufferSize := nbuf;
     trace := trace c |}.

(** The last lines of [bool FishCampCCD::initProperties()]: the buffer for
    the whole sensor, computed on [int]. *)
Definition initProperties_buffer (c : Chip) : Chip :=
  let nbuf := int (Z.quot (int (int (XRes c * YRes c) * BPP c)) 8) in
  let nbuf := int (nbuf + 512) in
  setFrameBufferSize nbuf c.

(** [bool FishCampCCD::UpdateCCDFrame(int x, int y, int w, int h)]; the
    arguments of [fcUsb_cmd_setRoi] are recorded as the [long] values
    handed to the call. *)
Definition UpdateCCDFrame (x y w h : Z) (c : Chip) : bool * Chip :=
  let x_1 := x in
  let y_1 := y in
  let bin_width := long (x_1 + int (Z.quot w (BinX c))) in
  let bin_height := long (y_1 + int (Z.quot h (BinY c))) in
  if (int (Z.quot (XRes c) (BinX c)) <? bin_width)%Z then
    (false, emit (IDMessage_invalid_width w) c)
  else if (int (Z.quot (YRes c) (BinY c)) <? bin_height)%Z then
    (false, emit (IDMessage_invalid_height h) c)
  else
    let c := emit (fcUsb_cmd_setRoi x_1 y_1 (long (long (x_1 + w) - 1))
                                    (long (long (y_1 + h) - 1))) c in
    let c := setFrame x_1 y_1 w h c in
    let nbuf :=
      int (Z.quot (long (long (bin_width * bin_height) * BPP c)) 8) in
    let nbuf := int (nbuf + 512) in
    (true, setFrameBufferSize nbuf c).

(** The ROI commands sent, oldest first. *)
Definition rois (t : list Event) : list (Z * Z * Z * Z) :=
  flat_map (fun e => match e with
                     | fcUsb_cmd_setRoi l t r b => [(l, t, r, b)]
                     | _ => []
                     end) t.

(** An [int]. *)
Definition is_int (z : Z) : Prop := (- 2 ^ 31 <= z < 2 ^ 31)%Z.

(** A sensor without binning whose whole frame fits an [int] buffer. *)
Definition sane (c : Chip) : Prop :=
  (0 < XRes c)%Z /\ (0 < YRes c)%Z /\ BinX c = 1%Z /\ BinY c = 1%Z /\
  (0 < BPP c)%Z /\ (XRes c * YRes c * BPP c + 4096 < 2 ^ 31)%Z.

(** A sensor of 1280 x 1024 pixels of 16 bits, as after [SetCCDParams]. *)
Definition starfish : Chip :=
  {| XRes := 1280; YRes := 1024; BinX := 1; BinY := 1; BPP := 16;
     SubX := 0; SubY := 0; SubW := 1280; SubH := 1024;
     FrameBufferSize := 0; trace := [] |}.

End FishCampFrame.

(** ** Kepler: frame and binning *)

Module KeplerFrame.

(** [uint32_t] *)
Definition uint32 (z : Z) : Z := (z mod 2 ^ 32)%Z.

Inductive Event : Type :=
| FPROFrame_SetImageArea (x y w h : Z)
| FPROSensor_SetBinning (binx biny : Z)
| FPROFrame_ComputeFrameSize
| realloc (size : Z).

(** The members that [UpdateCCDFrame] and [UpdateCCDBin] read and write. *)
Record Chip : Type := {
  BinX : Z; BinY : Z;                         (* PrimaryCCD.setBin *)
  SubX : Z; SubY : Z; SubW : Z; SubH : Z;     (* PrimaryCCD.setFrame *)
  m_TotalFrameBufferSize : Z;
  m_FrameBuffer : Z;                          (* size asked of malloc, realloc *)
  trace : list Event
}.

(** What the SDK answers during one call. *)
Record Sdk : Type := {
  SetBinning : Z;           (* result of FPROSensor_SetBinning *)
  SetImageArea : Z;         (* result of FPROFrame_SetImageArea *)
  ComputeFrameSize : Z      (* result of FPROFrame_ComputeFrameSize *)
}.

Definition emit (e : Event) (c : Chip) : Chip :=
  {| BinX := BinX c; BinY := BinY c;
     SubX := SubX c; SubY := SubY c; SubW := SubW c; SubH := SubH c;
     m_TotalFrameBufferSize := m_TotalFrameBufferSize c;
     m_FrameBuffer := m_FrameBuffer c;
     trace := trace c ++ [e] |}.

Definition setFrame (x y w h : Z) (c : Chip) : Chip :=
  {| BinX := BinX c; BinY := BinY c;
     SubX := x; SubY := y; SubW := w; SubH := h;
     m_TotalFrameBufferSize := m_TotalFrameBufferSize c;
     m_FrameBuffer := m_FrameBuffer c;
     trace := trace c |}.

Definition setBin (binx biny : Z) (c : Chip) : Chip :=
  {| BinX := binx; BinY := biny;
     SubX := SubX c; SubY := SubY c; SubW := SubW c; SubH := SubH c;
     m_TotalFrameBufferSize := m_TotalFrameBufferSize c;
     m_FrameBuffer := m_FrameBuffer c;
     trace := trace c |}.

Definition setBuffer (total allocated : Z) (c : Chip) : Chip :=
  {| BinX := BinX c; BinY := BinY c;
     SubX := SubX c; SubY := SubY c; SubW := SubW c; SubH := SubH c;
     m_TotalFrameBufferSize := total;
     m_FrameBuffer := allocated;
     trace := trace c |}.

(** [bool Kepler::UpdateCCDFrame(int x, int y, int w, int h)] *)
Definition UpdateCCDFrame (sdk : Sdk) (x y w h : Z) (c : Chip) : bool * Chip :=
  let result := SetImageArea sdk in
  let c := emit (FPROFrame_SetImageArea x y w h) c in
  if (0 <=? result)%Z then
    let c := setFrame x y w h c in
    let c := emit FPROFrame_ComputeFrameSize c in
    let c := setBuffer (uint32 (ComputeFrameSize sdk)) (m_FrameBuffer c) c in
    let c := emit (realloc (m_TotalFrameBufferSize c)) c in
    let c := setBuffer (m_TotalFrameBufferSize c) (m_TotalFrameBufferSize c) c in
    (true, c)
  else (false, c).

(** [bool Kepler::UpdateCCDBin(int binx, int biny)] *)
Definition UpdateCCDBin (sdk : Sdk) (binx biny : Z) (c : Chip) : bool * Chip :=
  let result := SetBinning sdk in
  let c := emit (FPROSensor_SetBinning binx biny) c in
  if (0 <=? result)%Z then
    let c := setBin binx biny c in
    UpdateCCDFrame sdk (SubX c) (SubY c) (SubW c) (SubH c) c
  else (false, c).

(** The image areas sent to the camera, oldest first. *)
Definition areas (t : list Event) : list (Z * Z * Z * Z) :=
  flat_map (fun e => match e with
                     | FPROFrame_SetImageArea x y w h => [(x, y, w, h)]
                     | _ => []
                     end) t.

(** The frame as stored. *)
Definition frame (c : Chip) : Z * Z * Z * Z := (SubX c, SubY c, SubW c, SubH c).

(** The buffer allocated is the size the grab announces. *)
Definition buffer_ok (c : Chip) : Prop := m_FrameBuffer c = m_TotalFrameBufferSize c.

(** A chip of 4096 x 4096 after [setup]. *)
Definition chip : Chip :=
  {| BinX := 1; BinY := 1; SubX := 0; SubY := 0; SubW := 4096; SubH := 4096;
     m_TotalFrameBufferSize := 33554432; m_FrameBuffer := 33554432; trace := [] |}.

End KeplerFrame.

(** ** Kepler: the GPS lights *)

Module KeplerGPS.

(** [FPROGPSSTATE], in the order of the lights of [GPSStateLP]. *)
Inductive FPROGPSSTATE : Type :=
| FPRO_GPS_NOT_DETECTED
| FPRO_GPS_DETECTED_NO_SAT_LOCK
| FPRO_GPS_DETECTED_AND_SAT_LOCK
| FPRO_GPS_DETECTED_SAT_LOCK_TIME_ERROR.

Definition FPROGPSSTATE_eqb (a b : FPROGPSSTATE) : bool :=
  match a, b with
  | FPRO_GPS_NOT_DETECTED, FPRO_GPS_NOT_DETECTED
  | FPRO_GPS_DETECTED_NO_SAT_LOCK, FPRO_GPS_DETECTED_NO_SAT_LOCK
  | FPRO_GPS_DETECTED_AND_SAT_LOCK, FPRO_GPS_DETECTED_AND_SAT_LOCK
  | FPRO_GPS_DETECTED_SAT_LOCK_TIME_ERROR, FPRO_GPS_DETECTED_SAT_LOCK_TIME_ERROR => true
  | _, _ => false
  end.

(** [GPSStateLP.apply()]: the state of the property and of its four
    lights as sent to the client. *)
Inductive Event : Type :=
| GPSStateLP_apply (s l0 l1 l2 l3 : IPState).

Record Gps : Type := {
  m_LastGPSState : FPROGPSSTATE;
  GPSStateLP : FPROGPSSTATE -> IPState;     (* GPSStateLP[i].getState() *)
  GPSStateLP_s : IPState;                   (* GPSStateLP.getState() *)
  trace : list Event
}.

Definition apply (g : Gps) : Gps :=
  {| m_LastGPSState := m_LastGPSState g; GPSStateLP := GPSStateLP g;
     GPSStateLP_s := GPSStateLP_s g;
     trace := trace g
              ++ [GPSStateLP_apply (GPSStateLP_s g)
                    (GPSStateLP g FPRO_GPS_NOT_DETECTED)
                    (GPSStateLP g FPRO_GPS_DETECTED_NO_SAT_LOCK)
                    (GPSStateLP g FPRO_GPS_DETECTED_AND_SAT_LOCK)
                    (GPSStateLP g FPRO_GPS_DETECTED_SAT_LOCK_TIME_ERROR)] |}.

Definition setState (s : IPState) (g : Gps) : Gps :=
  {| m_LastGPSState := m_LastGPSState g; GPSStateLP := GPSStateLP g;
     GPSStateLP_s := s; trace := trace g |}.

Definition setLights (l : FPROGPSSTATE -> IPState) (g : Gps) : Gps :=
  {| m_LastGPSState := m_LastGPSState g; GPSStateLP := l;
     GPSStateLP_s := GPSStateLP_s g; trace := trace g |}.

Definition set_m_LastGPSState (s : FPROGPSSTATE) (g : Gps) : Gps :=
  {| m_LastGPSState := s; GPSStateLP := GPSStateLP g;
     GPSStateLP_s := GPSStateLP_s g; trace := trace g |}.

(** [void Kepler::readGPS()]; [result] and [state] are what
    [FPROCtrl_GetGPSState] gives. *)
Definition readGPS (result : Z) (state : FPROGPSSTATE) (g : Gps) : Gps :=
  if (0 <=? result)%Z then
    if negb (FPROGPSSTATE_eqb state (m_LastGPSState g)) then
      let g := set_m_LastGPSState state g in
      let g := setLights (fun _ => IPS_IDLE) g in
      let g := setLights (fun i => if FPROGPSSTATE_eqb i state then IPS_OK
                                   else GPSStateLP g i) g in
      let g := setState IPS_OK g in
      apply g
    else g
  else
    let g := setState IPS_ALERT g in
    apply g.

(** The members as the constructor and [initProperties] leave them. *)
Definition initial : Gps :=
  {| m_LastGPSState := FPRO_GPS_NOT_DETECTED;
     GPSStateLP := fun _ => IPS_IDLE;
     GPSStateLP_s := IPS_IDLE;
     trace := [] |}.

(** [m_GPSTimer] firing once for every element of [reads]. *)
Definition gps_timer (reads : list (Z * FPROGPSSTATE)) (g : Gps) : Gps :=
  fold_left (fun g r => readGPS (fst r) (snd r) g) reads g.

(** The state of the last read that succeeded, [start] when none did. *)
Definition last_read (start : FPROGPSSTATE) (reads : list (Z * FPROGPSSTATE))
  : FPROGPSSTATE :=
  fold_left (fun s r => if (0 <=? fst r)%Z then snd r else s) reads start.

(** Some read succeeded with a state other than "not detected". *)
Definition detected (reads : list (Z * FPROGPSSTATE)) : bool :=
  existsb (fun r => (0 <=? fst r)%Z
                    && negb (FPROGPSSTATE_eqb (snd r) FPRO_GPS_NOT_DETECTED)) reads.

(** The lights show the state last stored when [lit], and nothing
    otherwise. *)
Definition shows (lit : bool) (g : Gps) : Prop :=
  forall i, GPSStateLP g i
            = if lit && FPROGPSSTATE_eqb i (m_LastGPSState g) then IPS_OK else IPS_IDLE.

End KeplerGPS.

(** ** Kepler: the planes asked for and handed over *)

Module KeplerMerge.
Import Kepler.

(** The request flags of [fproUnpacked] and of [fproStats]. *)
Record Requests : Type := {
  bLowImageRequest : bool;
  bHighImageRequest : bool;
  bMergedImageRequest : bool;
  bMetaDataRequest : bool;
  bLowRequest : bool;
  bHighRequest : bool;
  bMergedRequest : bool
}.

(** [index == to_underlying(plane)], where [index] is
    [MergePlanesSP.findOnSwitchIndex()]. *)
Definition index_is (index : option HWMERGE) (plane : HWMERGE) : bool :=
  match index, plane with
  | Some HWMERGE_FRAME_BOTH, HWMERGE_FRAME_BOTH
  | Some HWMERGE_FRAME_LOWONLY, HWMERGE_FRAME_LOWONLY
  | Some HWMERGE_FRAME_HIGHONLY, HWMERGE_FRAME_HIGHONLY => true
  | _, _ => false
  end.

(** [void Kepler::prepareUnpacked()]: the request flags it leaves. *)
Definition prepareUnpacked (c : Camera) : Requests :=
  let index := MergePlanesSP c in
  {| bLowImageRequest :=
       index_is index HWMERGE_FRAME_LOWONLY || index_is index HWMERGE_FRAME_BOTH;
     bHighImageRequest :=
       index_is index HWMERGE_FRAME_HIGHONLY || index_is index HWMERGE_FRAME_BOTH;
     bMergedImageRequest := index_is index HWMERGE_FRAME_BOTH;
     bMetaDataRequest := true;
     bLowRequest :=
       index_is index HWMERGE_FRAME_LOWONLY || index_is index HWMERGE_FRAME_BOTH;
     bHighRequest :=
       index_is index HWMERGE_FRAME_HIGHONLY || index_is index HWMERGE_FRAME_BOTH;
     bMergedRequest := index_is index HWMERGE_FRAME_BOTH |}.

Definition set_MergePlanesSP (on : option HWMERGE) (c : Camera) : Camera :=
  {| TemperatureNP_s := TemperatureNP_s c; TemperatureN_value := TemperatureN_value c;
     m_TargetTemperature := m_TargetTemperature c;
     TemperatureTimer_interval := TemperatureTimer_interval c;
     CoolerDutyNP_s := CoolerDutyNP_s c; CoolerDutyNP_value := CoolerDutyNP_value c;
     ExposureDuration := ExposureDuration c; MergePlanesSP := on;
     trace := trace c |}.

(** The branch of [ISNewSwitch] for [MergePlanesSP], as far as the
    switch and the request flags go; [on] is the switch that is on after
    [MergePlanesSP.update]. *)
Definition ISNewSwitch_MergePlanes (on : option HWMERGE) (c : Camera)
  : bool * Camera * Requests :=
  let c := set_MergePlanesSP on c in
  let index := MergePlanesSP c in
  (true, c,
   {| bLowImageRequest :=
        index_is index HWMERGE_FRAME_LOWONLY || index_is index HWMERGE_FRAME_BOTH;
      bHighImageRequest :=
        index_is index HWMERGE_FRAME_HIGHONLY || index_is index HWMERGE_FRAME_BOTH;
      bMergedImageRequest := index_is index HWMERGE_FRAME_BOTH;
      bMetaDataRequest := true;
      bLowRequest :=
        index_is index HWMERGE_FRAME_LOWONLY || index_is index HWMERGE_FRAME_BOTH;
      bHighRequest :=
        index_is index HWMERGE_FRAME_HIGHONLY || index_is index HWMERGE_FRAME_BOTH;
      bMergedRequest := index_is index HWMERGE_FRAME_BOTH |}).

(** The planes handed to the client, oldest first. *)
Definition delivered (t : list Event) : list HWMERGE :=
  flat_map (fun e => match e with setFrameBuffer plane => [plane] | _ => [] end) t.

(** The image of [plane] was asked for. *)
Definition image_requested (r : Requests) (plane : HWMERGE) : bool :=
  match plane with
  | HWMERGE_FRAME_BOTH => bMergedImageRequest r
  | HWMERGE_FRAME_LOWONLY => bLowImageRequest r
  | HWMERGE_FRAME_HIGHONLY => bHighImageRequest r
  end.

End KeplerMerge.

(** ** Kepler: tracking statistics of the legacy mode *)

Module KeplerLegacy.

(** [static int med_cmpf(const void *p1, const void *p2)] *)
Definition med_cmpf (p1 p2 : Q) : Z :=
  let diff := p1 - p2 in
  if Qltb diff 0 then (-1)%Z
  else if Qltb 0 diff then 1%Z
  else 0%Z.

(** The members that collect the velocities and the following errors. *)
Record Legacy : Type := {
  xvels : list Q;          (* xvels[0 .. nxvels-1] *)
  yvels : list Q;          (* yvels[0 .. nyvels-1] *)
  maxxfe : Q;
  maxyfe : Q
}.

(** The elements of the snooped property [pointing] that the driver
    reads. *)
Record Pointing : Type := {
  XVEL_TP : Q; YVEL_TP : Q; XFE_TP : Q; YFE_TP : Q
}.

(** [void Kepler::checkMaxFE()] *)
Definition checkMaxFE (pointing : Pointing) (s : Legacy) : Legacy :=
  let newxfe := XFE_TP pointing in
  let newyfe := YFE_TP pointing in
  let s := if Qltb (Qabs (maxxfe s)) (Qabs newxfe)
           then {| xvels := xvels s; yvels := yvels s;
                   maxxfe := newxfe; maxyfe := maxyfe s |}
           else s in
  if Qltb (Qabs (maxyfe s)) (Qabs newyfe)
  then {| xvels := xvels s; yvels := yvels s;
          maxxfe := maxxfe s; maxyfe := newyfe |}
  else s.

(** [void Kepler::initMedianVels()] *)
Definition initMedianVels (s : Legacy) : Legacy :=
  {| xvels := []; yvels := []; maxxfe := maxxfe s; maxyfe := maxyfe s |}.

(** [void Kepler::addMedianVels()] *)
Definition addMedianVels (pointing : Pointing) (s : Legacy) : Legacy :=
  {| xvels := xvels s ++ [XVEL_TP pointing];
     yvels := yvels s ++ [YVEL_TP pointing];
     maxxfe := maxxfe s; maxyfe := maxyfe s |}.

(** [void Kepler::getMedianVels(double *mxvp, double *myvp)]; [qsort] is
    what the library call with [med_cmpf] leaves in the array. *)
Definition getMedianVels (qsort : list Q -> list Q) (s : Legacy) : Q * Q * Legacy :=
  let '(mxvp, xv) :=
    if (0 <? length (xvels s))%nat then
      let xv := qsort (xvels s) in
      (nth (length (xvels s) / 2) xv 0, xv)
    else (0, xvels s) in
  let '(myvp, yv) :=
    if (0 <? length (yvels s))%nat then
      let yv := qsort (yvels s) in
      (nth (length (yvels s) / 2) yv 0, yv)
    else (0, yvels s) in
  (mxvp, myvp,
   {| xvels := xv; yvels := yv; maxxfe := maxxfe s; maxyfe := maxyfe s |}).

(** The legacy lines at the start of [workerExposure]:
    [initMedianVels(); maxxfe = maxyfe = 0;]. *)
Definition exposure_start (s : Legacy) : Legacy :=
  let s := initMedianVels s in
  {| xvels := xvels s; yvels := yvels s; maxxfe := 0; maxyfe := 0 |}.

(** [ISSnoopDevice] for every element of [ps]: the property [pointing]
    was snooped, so [addMedianVels] and [checkMaxFE] run. *)
Definition snoop (ps : list Pointing) (s : Legacy) : Legacy :=
  fold_left (fun s p => checkMaxFE p (addMedianVels p s)) ps s.

(** What [qsort] promises when called with [med_cmpf]. *)
Definition sorts (qsort : list Q -> list Q) : Prop :=
  forall l, Permutation l (qsort l) /\
            StronglySorted (fun a b => (med_cmpf a b <= 0)%Z) (qsort l).

(** How many elements of [l] are at most [m], and at least [m]. *)
Definition at_most (m : Q) (l : list Q) : nat :=
  length (filter (fun v => Qle_bool v m) l).
Definition at_least (m : Q) (l : list Q) : nat :=
  length (filter (fun v => Qle_bool m v) l).

(** A sort by insertion with [med_cmpf]. *)
Fixpoint insert_sorted (x : Q) (l : list Q) : list Q :=
  match l with
  | [] => [x]
  | y :: l' => if (med_cmpf x y <=? 0)%Z then x :: l else y :: insert_sorted x l'
  end.
Fixpoint insertion_sort (l : list Q) : list Q :=
  match l with
  | [] => []
  | x :: l' => insert_sorted x (insertion_sort l')
  end.

(** A sample of [pointing]. *)
Definition sample (xvel yvel xfe yfe : Q) : Pointing :=
  {| XVEL_TP := xvel; YVEL_TP := yvel; XFE_TP := xfe; YFE_TP := yfe |}.

(** The state before the first exposure. *)
Definition fresh : Legacy := {| xvels := []; yvels := []; maxxfe := 0; maxyfe := 0 |}.

End KeplerLegacy.

(** ** Kepler: unique device names *)

Module Loader.
Import stdpp.base stdpp.strings stdpp.gmap stdpp.pretty.
#[local] Open Scope Z_scope.

(** [int] of C. *)
Definition int (z : Z) : Z := (z + 2 ^ 31) `mod` 2 ^ 32 - 2 ^ 31.

(** [std::to_wstring(int)] *)
Definition to_wstring (z : Z) : string := pretty z.

(** [used[name]] read: [operator[]] of [std::map] inserts [false] when
    the key is absent. *)
Definition used_at (name : string) (used : gmap string bool) : bool * gmap string bool :=
  match used !! name with
  | Some b => (b, used)
  | None => (false, <[name := false]> used)
  end.

(** The loop [for (int index = 0; used[uniqueName] == true; )] of
    [make]. *)
Fixpoint make_loop (fuel : nat) (index : Z) (cameraName uniqueName : string)
         (used : gmap string bool) : option (string * gmap string bool) :=
  match fuel with
  | O => None
  | S fuel' =>
      let '(b, used) := used_at uniqueName used in
      if b then
        let index := int (index + 1) in
        make_loop fuel' index cameraName
                  (cameraName +:+ " " +:+ to_wstring index) used
      else Some (uniqueName, used)
  end.

(** [std::wstring UniqueName::make(const FPRODEVICEINFO &cameraInfo)] *)
Definition make (fuel : nat) (cFriendlyName : string) (used : gmap string bool)
  : option (string * gmap string bool) :=
  let cameraName := "FLI " +:+ cFriendlyName in
  match make_loop fuel 0 cameraName cameraName used with
  | None => None
  | Some (uniqueName, used) => Some (uniqueName, <[uniqueName := true]> used)
  end.

(** [used] holds [name] with [true]. *)
Definition taken (used : gmap string bool) (name : string) : Prop :=
  used !! name = Some true.

(** The [k]-th name the loop tries. *)
Definition candidate (cameraName : string) (k : nat) : string :=
  match k with
  | O => cameraName
  | S _ => cameraName +:+ " " +:+ to_wstring (Z.of_nat k)
  end.

(** The number of entries of the map. *)
Definition entries (used : gmap string bool) : nat := size used.

(** [used[name] = true] *)
Definition mark (name : string) (used : gmap string bool) : gmap string bool :=
  <[name := true]> used.

(** [std::wstring(L"FLI ") + std::wstring(cameraInfo.cFriendlyName)] *)
Definition cameraName (cFriendlyName : string) : string := "FLI " +:+ cFriendlyName.

(** The calls of [make] that the loop of [load] issues for the cameras
    it creates, in order; gives the names made. *)
Fixpoint make_all (fuel : nat) (infos : list string) (used : gmap string bool)
  : option (list string * gmap string bool) :=
  match infos with
  | [] => Some ([], used)
  | cFriendlyName :: rest =>
      match make fuel cFriendlyName used with
      | None => None
      | Some (name, used) =>
          match make_all fuel rest used with
          | None => None
          | Some (names, used) => Some (name :: names, used)
          end
      end
  end.

(** A map in which the names "FLI Kepler" and "FLI Kepler 1" are marked;
    and the friendly name of a further camera. *)
Definition two_keplers : gmap string bool :=
  mark "FLI Kepler 1" (mark "FLI Kepler" ∅).
Definition friendly : string := "Kepler".

End Loader.

(** * Properties *)

(** ** Comparisons on [Q] *)

Lemma Qltb_lt (x y : Q) : Qltb x y = true <-> x < y.
Proof.
  unfold Qltb. rewrite negb_true_iff. split; intro H.
  - apply Qnot_le_lt. intro Hle. apply Qle_bool_iff in Hle. congruence.
  - destruct (Qle_bool y x) eqn:E; [|reflexivity].
    apply Qle_bool_iff in E. exfalso. exact (Qlt_not_le _ _ H E).
Qed.

Lemma Qltb_ge (x y : Q) : Qltb x y = false <-> y <= x.
Proof.
  unfold Qltb. rewrite negb_false_iff. apply Qle_bool_iff.
Qed.

Lemma Qle_bool_gt (x y : Q) : Qle_bool x y = false <-> y < x.
Proof.
  rewrite <- Qltb_lt. unfold Qltb. destruct (Qle_bool x y); simpl; split; congruence.
Qed.

(** ** Rounding *)

Module FloatFacts.

Lemma pow2_pos (e : Z) : 0 < 2 ^ e.
Proof. apply Qpower_0_lt. reflexivity. Qed.

Lemma pow2_add (a b : Z) : 2 ^ (a + b) == 2 ^ a * 2 ^ b.
Proof. apply Qpower_plus. discriminate. Qed.

Lemma pow2_le (a b : Z) : (a <= b)%Z -> 2 ^ a <= 2 ^ b.
Proof. intro H. apply Qpower_le_compat_l; [exact H | discriminate]. Qed.

Lemma pow2_lt (a b : Z) : (a < b)%Z -> 2 ^ a < 2 ^ b.
Proof. intro H. apply Qpower_lt_compat_l; [exact H | reflexivity]. Qed.

Lemma pow2_lt_inv (a b : Z) : 2 ^ a < 2 ^ b -> (a < b)%Z.
Proof. intro H. apply (Qpower_lt_compat_l_inv 2); [exact H | reflexivity]. Qed.

Lemma pow2_Z (n : Z) : (0 <= n)%Z -> 2 ^ n == inject_Z (2 ^ n).
Proof. intro H. symmetry. apply (Zpower_Qpower 2 n H). Qed.

Lemma pow2_sub (a b : Z) : 2 ^ (a - b) * 2 ^ b == 2 ^ a.
Proof. rewrite <- pow2_add. replace (a - b + b)%Z with a by ring. reflexivity. Qed.

Lemma Qnum_den (x : Q) : x * inject_Z (Zpos (Qden x)) == inject_Z (Qnum x).
Proof.
  destruct x as [n d]. unfold Qeq, Qmult, inject_Z. simpl.
  rewrite Pos.mul_1_r. ring.
Qed.

(** [binade] gives the exponent of the power of two at or below [x]. *)
Lemma binade_spec (x : Q) :
  0 < x -> 2 ^ binade x <= x /\ x < 2 ^ (binade x + 1).
Proof.
  intro Hx.
  assert (Hn : (0 < Qnum x)%Z).
  { destruct x as [n d]. unfold Qlt in Hx. cbn in *. lia. }
  set (n := Qnum x) in *. set (d := Zpos (Qden x)).
  assert (Hd : (0 < d)%Z) by (unfold d; lia).
  destruct (Z.log2_spec n Hn) as (Ha1 & Ha2).
  destruct (Z.log2_spec d Hd) as (Hb1 & Hb2).
  pose proof (Z.log2_nonneg n) as Ha0. pose proof (Z.log2_nonneg d) as Hb0.
  set (a := Z.log2 n) in *. set (b := Z.log2 d) in *.
  pose proof (Qnum_den x) as Hxd. fold n in Hxd. fold d in Hxd.
  assert (Hdq : 0 < inject_Z d)
    by (change 0 with (inject_Z 0); rewrite <- Zlt_Qlt; exact Hd).
  assert (Qa1 : 2 ^ a <= inject_Z n) by (rewrite pow2_Z, <- Zle_Qle; assumption).
  assert (Qa2 : inject_Z n < 2 ^ (a + 1)).
  { rewrite pow2_Z by lia. rewrite <- Zlt_Qlt.
    replace (a + 1)%Z with (Z.succ a) by lia. exact Ha2. }
  assert (Qb1 : 2 ^ b <= inject_Z d) by (rewrite pow2_Z, <- Zle_Qle; assumption).
  assert (Qb2 : inject_Z d < 2 ^ (b + 1)).
  { rewrite pow2_Z by lia. rewrite <- Zlt_Qlt.
    replace (b + 1)%Z with (Z.succ b) by lia. exact Hb2. }
  assert (U : x < 2 ^ (a - b + 1)).
  { apply (Qmult_lt_r _ _ (inject_Z d) Hdq). rewrite Hxd.
    eapply Qlt_le_trans; [exact Qa2|].
    replace (a + 1)%Z with ((a - b + 1) + b)%Z by ring. rewrite pow2_add.
    apply Qmult_le_l; [apply pow2_pos | exact Qb1]. }
  assert (L : 2 ^ (a - b - 1) <= x).
  { apply (Qmult_le_r _ _ (inject_Z d) Hdq). rewrite Hxd.
    eapply Qle_trans; [|exact Qa1].
    replace a with ((a - b - 1) + (b + 1))%Z at 2 by ring. rewrite pow2_add.
    apply Qmult_le_l; [apply pow2_pos | apply Qlt_le_weak; exact Qb2]. }
  unfold binade. fold n d a b. cbv zeta.
  destruct (Qle_bool (2 ^ (a - b)) x) eqn:E.
  - apply Qle_bool_iff in E. split; assumption.
  - apply Qle_bool_gt in E. split; [exact L|].
    replace (a - b - 1 + 1)%Z with (a - b)%Z by ring. exact E.
Qed.

Lemma binade_unique (x : Q) (e : Z) :
  2 ^ e <= x -> x < 2 ^ (e + 1) -> binade x = e.
Proof.
  intros H1 H2.
  assert (Hx : 0 < x) by (eapply Qlt_le_trans; [apply pow2_pos | exact H1]).
  destruct (binade_spec x Hx) as (B1 & B2).
  assert (binade x < e + 1)%Z
    by (apply pow2_lt_inv; eapply Qle_lt_trans; [exact B1 | exact H2]).
  assert (e < binade x + 1)%Z
    by (apply pow2_lt_inv; eapply Qle_lt_trans; [exact H1 | exact B2]).
  lia.
Qed.

Lemma binade_wd (x y : Q) : 0 < x -> x == y -> binade x = binade y.
Proof.
  intros Hx E. destruct (binade_spec x Hx) as (B1 & B2).
  symmetry. apply binade_unique; rewrite <- E; assumption.
Qed.

Lemma binade_mono (x y : Q) : 0 < x -> x <= y -> (binade x <= binade y)%Z.
Proof.
  intros Hx Hxy.
  assert (Hy : 0 < y) by (eapply Qlt_le_trans; eassumption).
  destruct (binade_spec x Hx) as (B1 & _). destruct (binade_spec y Hy) as (_ & B2).
  assert (binade x < binade y + 1)%Z; [|lia].
  apply pow2_lt_inv. eapply Qle_lt_trans; [exact B1|].
  eapply Qle_lt_trans; [exact Hxy | exact B2].
Qed.


Lemma nearest_even_bounds (m : Q) :
  (Qfloor m <= nearest_even m <= Qfloor m + 1)%Z.
Proof.
  unfold nearest_even. cbv zeta.
  repeat match goal with |- context [if ?b then _ else _] => destruct b end; lia.
Qed.

Lemma nearest_even_wd (x y : Q) : x == y -> nearest_even x = nearest_even y.
Proof.
  intro E. unfold nearest_even. cbv zeta. rewrite (Qfloor_comp _ _ E).
  set (f := Qfloor y).
  assert (Hr : x - inject_Z f == y - inject_Z f) by (rewrite E; reflexivity).
  assert (H1 : Qltb (x - inject_Z f) (1 # 2) = Qltb (y - inject_Z f) (1 # 2)).
  { destruct (Qltb (y - inject_Z f) (1 # 2)) eqn:Ey.
    - apply Qltb_lt. apply Qltb_lt in Ey. rewrite Hr. exact Ey.
    - apply Qltb_ge. apply Qltb_ge in Ey. rewrite Hr. exact Ey. }
  assert (H2 : Qltb (1 # 2) (x - inject_Z f) = Qltb (1 # 2) (y - inject_Z f)).
  { destruct (Qltb (1 # 2) (y - inject_Z f)) eqn:Ey.
    - apply Qltb_lt. apply Qltb_lt in Ey. rewrite Hr. exact Ey.
    - apply Qltb_ge. apply Qltb_ge in Ey. rewrite Hr. exact Ey. }
  rewrite H1, H2. reflexivity.
Qed.

Lemma nearest_even_Z (z : Z) : nearest_even (inject_Z z) = z.
Proof.
  unfold nearest_even. cbv zeta. rewrite Qfloor_Z.
  assert (H : Qltb (inject_Z z - inject_Z z) (1 # 2) = true)
    by (apply Qltb_lt; lra).
  rewrite H. reflexivity.
Qed.

Lemma nearest_even_mono (x y : Q) :
  x <= y -> (nearest_even x <= nearest_even y)%Z.
Proof.
  intro Hxy. pose proof (Qfloor_resp_le x y Hxy) as Hf.
  pose proof (nearest_even_bounds x) as Bx. pose proof (nearest_even_bounds y) as By.
  destruct (Z.eq_dec (Qfloor x) (Qfloor y)) as [E|E]; [|lia].
  unfold nearest_even in *. cbv zeta in *. rewrite E in *.
  set (f := Qfloor y) in *.
  destruct (Qltb (x - inject_Z f) (1 # 2)) eqn:X1.
  - destruct (Qltb (y - inject_Z f) (1 # 2)); [lia|].
    destruct (Qltb (1 # 2) (y - inject_Z f)); [lia|].
    destruct (Z.even f); lia.
  - apply Qltb_ge in X1.
    assert (Y1 : Qltb (y - inject_Z f) (1 # 2) = false) by (apply Qltb_ge; lra).
    rewrite Y1.
    destruct (Qltb (1 # 2) (x - inject_Z f)) eqn:X2.
    + apply Qltb_lt in X2.
      assert (Y2 : Qltb (1 # 2) (y - inject_Z f) = true) by (apply Qltb_lt; lra).
      rewrite Y2. lia.
    + destruct (Qltb (1 # 2) (y - inject_Z f)); destruct (Z.even f); lia.
Qed.

(** An integer above [m] is above its rounding, and one below is below. *)
Lemma nearest_even_le (m : Q) (z : Z) : m <= inject_Z z -> (nearest_even m <= z)%Z.
Proof.
  intro H. rewrite <- (nearest_even_Z z). apply nearest_even_mono. exact H.
Qed.

Lemma nearest_even_ge (m : Q) (z : Z) : inject_Z z <= m -> (z <= nearest_even m)%Z.
Proof.
  intro H. rewrite <- (nearest_even_Z z). apply nearest_even_mono. exact H.
Qed.

Lemma spacing_wd (p emin : Z) (x y : Q) :
  0 < x -> x == y -> spacing p emin x = spacing p emin y.
Proof. intros Hx E. unfold spacing. rewrite (binade_wd x y Hx E). reflexivity. Qed.

Lemma spacing_mono (p emin : Z) (x y : Q) :
  0 < x -> x <= y -> (spacing p emin x <= spacing p emin y)%Z.
Proof. intros Hx H. unfold spacing. pose proof (binade_mono x y Hx H). lia. Qed.

Lemma round_0 (p emin : Z) : round p emin 0 = 0.
Proof. reflexivity. Qed.

(** The rounding of a positive number. *)
Lemma round_pos (p emin : Z) (x : Q) :
  0 < x ->
  round p emin x
  = inject_Z (nearest_even (x / 2 ^ spacing p emin x)) * 2 ^ spacing p emin x.
Proof.
  intro Hx. unfold round.
  destruct (Qeq_bool x 0) eqn:E0.
  - apply Qeq_bool_iff in E0. rewrite E0 in Hx. discriminate.
  - assert (Hle : Qle_bool 0 x = true) by (apply Qle_bool_iff; lra).
    rewrite Hle. cbv zeta.
    assert (Ha : Qabs x == x) by (apply Qabs_pos; lra).
    assert (Hpa : 0 < Qabs x) by (rewrite Ha; exact Hx).
    rewrite (spacing_wd p emin (Qabs x) x Hpa Ha).
    rewrite (nearest_even_wd (Qabs x / 2 ^ spacing p emin x)
               (x / 2 ^ spacing p emin x)) by (rewrite Ha; reflexivity).
    reflexivity.
Qed.

(** The rounding of a negative number mirrors that of its opposite. *)
Lemma round_neg (p emin : Z) (x : Q) :
  x < 0 -> round p emin x = - round p emin (- x).
Proof.
  intro Hx. rewrite (round_pos p emin (- x)) by lra. unfold round.
  destruct (Qeq_bool x 0) eqn:E0.
  - apply Qeq_bool_iff in E0. rewrite E0 in Hx. discriminate.
  - assert (Hle : Qle_bool 0 x = false) by (apply Qle_bool_gt; exact Hx).
    rewrite Hle. cbv zeta.
    assert (Ha : Qabs x == - x) by (apply Qabs_neg; lra).
    assert (Hpa : 0 < Qabs x) by (rewrite Ha; lra).
    rewrite (spacing_wd p emin (Qabs x) (- x) Hpa Ha).
    rewrite (nearest_even_wd (Qabs x / 2 ^ spacing p emin (- x))
               (- x / 2 ^ spacing p emin (- x))) by (rewrite Ha; reflexivity).
    reflexivity.
Qed.

Lemma round_wd (p emin : Z) (x y : Q) : x == y -> round p emin x = round p emin y.
Proof.
  intro E.
  destruct (Qlt_le_dec 0 x) as [Hx|Hx].
  - rewrite (round_pos p emin x Hx), (round_pos p emin y) by (rewrite <- E; exact Hx).
    rewrite (spacing_wd p emin x y Hx E).
    rewrite (nearest_even_wd (x / 2 ^ spacing p emin y) (y / 2 ^ spacing p emin y))
      by (rewrite E; reflexivity).
    reflexivity.
  - destruct (Qeq_bool x 0) eqn:E0.
    + unfold round. rewrite E0.
      assert (Ey : Qeq_bool y 0 = true)
        by (apply Qeq_bool_iff; apply Qeq_bool_iff in E0; rewrite <- E; exact E0).
      rewrite Ey. reflexivity.
    + apply Qeq_bool_neq in E0.
      assert (Hx' : x < 0) by (apply Qle_lteq in Hx; destruct Hx; [assumption | contradiction]).
      assert (Hy' : y < 0) by (rewrite <- E; exact Hx').
      rewrite (round_neg p emin x Hx'), (round_neg p emin y Hy').
      assert (E' : - x == - y) by (rewrite E; reflexivity).
      assert (Hnx : 0 < - x) by lra.
      rewrite (round_pos p emin (- x) Hnx), (round_pos p emin (- y)) by lra.
      rewrite (spacing_wd p emin (- x) (- y) Hnx E').
      rewrite (nearest_even_wd (- x / 2 ^ spacing p emin (- y))
                 (- y / 2 ^ spacing p emin (- y))) by (rewrite E'; reflexivity).
      reflexivity.
Qed.


Lemma div_pow2_mul (x : Q) (q : Z) : x / 2 ^ q * 2 ^ q == x.
Proof. pose proof (pow2_pos q). field. lra. Qed.

(** A multiple of the spacing above [x] is above its rounding. *)
Lemma round_grid_le (p emin : Z) (x : Q) (N : Z) :
  0 < x -> x <= inject_Z N * 2 ^ spacing p emin x ->
  round p emin x <= inject_Z N * 2 ^ spacing p emin x.
Proof.
  intros Hx H. rewrite (round_pos p emin x Hx).
  pose proof (pow2_pos (spacing p emin x)) as Hq.
  apply Qmult_le_compat_r; [|lra].
  rewrite <- Zle_Qle. apply nearest_even_le.
  apply Qle_shift_div_r; assumption.
Qed.

Lemma round_grid_ge (p emin : Z) (x : Q) (N : Z) :
  0 < x -> inject_Z N * 2 ^ spacing p emin x <= x ->
  inject_Z N * 2 ^ spacing p emin x <= round p emin x.
Proof.
  intros Hx H. rewrite (round_pos p emin x Hx).
  pose proof (pow2_pos (spacing p emin x)) as Hq.
  apply Qmult_le_compat_r; [|lra].
  rewrite <- Zle_Qle. apply nearest_even_ge.
  apply Qle_shift_div_l; assumption.
Qed.

Lemma round_nonneg (p emin : Z) (x : Q) : 0 <= x -> 0 <= round p emin x.
Proof.
  intro Hx. destruct (Qeq_bool x 0) eqn:E0.
  - unfold round. rewrite E0. lra.
  - apply Qeq_bool_neq in E0.
    assert (Hp : 0 < x) by (apply Qle_lteq in Hx; destruct Hx as [|E]; [assumption|]; symmetry in E; contradiction).
    pose proof (round_grid_ge p emin x 0 Hp) as H.
    change (inject_Z 0) with 0 in H. rewrite Qmult_0_l in H. apply H. lra.
Qed.

Lemma round_nonpos (p emin : Z) (x : Q) : x <= 0 -> round p emin x <= 0.
Proof.
  intro Hx. destruct (Qeq_bool x 0) eqn:E0.
  - unfold round. rewrite E0. lra.
  - apply Qeq_bool_neq in E0.
    assert (Hn : x < 0) by (apply Qle_lteq in Hx; destruct Hx; [assumption | contradiction]).
    rewrite (round_neg p emin x Hn).
    pose proof (round_nonneg p emin (- x)). lra.
Qed.

(** A power of two between two positive numbers separates their roundings. *)
Lemma round_le_pow2 (p emin : Z) (x : Q) (k : Z) :
  0 < x -> x <= 2 ^ k -> (spacing p emin x <= k)%Z -> round p emin x <= 2 ^ k.
Proof.
  intros Hx H Hk.
  assert (E : 2 ^ k == inject_Z (2 ^ (k - spacing p emin x)) * 2 ^ spacing p emin x).
  { rewrite <- pow2_Z by lia. rewrite pow2_sub. reflexivity. }
  rewrite E. apply round_grid_le; [exact Hx|]. rewrite <- E. exact H.
Qed.

Lemma round_ge_pow2 (p emin : Z) (x : Q) (k : Z) :
  0 < x -> 2 ^ k <= x -> (spacing p emin x <= k)%Z -> 2 ^ k <= round p emin x.
Proof.
  intros Hx H Hk.
  assert (E : 2 ^ k == inject_Z (2 ^ (k - spacing p emin x)) * 2 ^ spacing p emin x).
  { rewrite <- pow2_Z by lia. rewrite pow2_sub. reflexivity. }
  rewrite E. apply round_grid_ge; [exact Hx|]. rewrite <- E. exact H.
Qed.

Lemma round_mono_pos (p emin : Z) (x y : Q) :
  (1 <= p)%Z -> 0 < x -> x <= y -> round p emin x <= round p emin y.
Proof.
  intros Hp Hx Hxy.
  assert (Hy : 0 < y) by lra.
  pose proof (spacing_mono p emin x y Hx Hxy) as Hq.
  destruct (Z.eq_dec (spacing p emin x) (spacing p emin y)) as [E|E].
  - rewrite (round_pos p emin x Hx), (round_pos p emin y Hy), E.
    pose proof (pow2_pos (spacing p emin y)) as Hpos.
    apply Qmult_le_compat_r; [|lra].
    rewrite <- Zle_Qle. apply nearest_even_mono.
    apply Qmult_le_compat_r; [exact Hxy|].
    apply Qlt_le_weak. apply Qinv_lt_0_compat. exact Hpos.
  - destruct (binade_spec x Hx) as (_ & Bx). destruct (binade_spec y Hy) as (By & _).
    unfold spacing in *.
    assert (Hb : (binade x + 1 <= binade y)%Z) by lia.
    apply Qle_trans with (2 ^ binade y).
    + apply round_le_pow2; [exact Hx| |unfold spacing; lia].
      apply Qlt_le_weak. eapply Qlt_le_trans; [exact Bx|]. apply pow2_le. exact Hb.
    + apply round_ge_pow2; [exact Hy|exact By|unfold spacing; lia].
Qed.

(** Rounding is monotone. *)
Lemma round_mono (p emin : Z) (x y : Q) :
  (1 <= p)%Z -> x <= y -> round p emin x <= round p emin y.
Proof.
  intros Hp Hxy.
  destruct (Qlt_le_dec 0 x) as [Hx|Hx].
  - apply round_mono_pos; assumption.
  - destruct (Qlt_le_dec y 0) as [Hy|Hy].
    + assert (Hx' : x < 0) by lra.
      rewrite (round_neg p emin x Hx'), (round_neg p emin y Hy).
      pose proof (round_mono_pos p emin (- y) (- x) Hp). lra.
    + pose proof (round_nonpos p emin x Hx). pose proof (round_nonneg p emin y Hy). lra.
Qed.

(** A value with fewer than [p] significant bits is its own rounding. *)
Lemma round_exact_pos (p emin : Z) (n k : Z) :
  (0 < n < 2 ^ p)%Z -> (emin <= k)%Z ->
  round p emin (inject_Z n * 2 ^ k) == inject_Z n * 2 ^ k.
Proof.
  intros Hn Hk.
  assert (Hp : (0 <= p)%Z).
  { destruct (Z.le_gt_cases 0 p) as [|Hneg]; [assumption|].
    rewrite (Z.pow_neg_r 2 p Hneg) in Hn. lia. }
  set (v := inject_Z n * 2 ^ k).
  pose proof (pow2_pos k) as Hkpos.
  assert (Hn0 : 0 < inject_Z n)
    by (change 0 with (inject_Z 0); rewrite <- Zlt_Qlt; lia).
  assert (Hv : 0 < v) by (unfold v; apply Qmult_lt_0_compat; assumption).
  assert (Hvb : v < 2 ^ (p + k)).
  { unfold v. rewrite pow2_add. apply Qmult_lt_compat_r; [exact Hkpos|].
    rewrite pow2_Z by exact Hp. rewrite <- Zlt_Qlt. lia. }
  destruct (binade_spec v Hv) as (B1 & _).
  assert (Hb : (binade v < p + k)%Z)
    by (apply pow2_lt_inv; eapply Qle_lt_trans; eassumption).
  assert (Hq : (spacing p emin v <= k)%Z) by (unfold spacing; lia).
  rewrite (round_pos p emin v Hv).
  set (q := spacing p emin v) in *.
  assert (E : v / 2 ^ q == inject_Z (n * 2 ^ (k - q))).
  { rewrite inject_Z_mult. rewrite <- pow2_Z by lia.
    unfold v. rewrite <- (pow2_sub k q). pose proof (pow2_pos q). field. lra. }
  rewrite (nearest_even_wd _ _ E), nearest_even_Z.
  rewrite inject_Z_mult. rewrite <- pow2_Z by lia.
  unfold v. rewrite <- (pow2_sub k q). ring.
Qed.

(** The rounding of a positive number has at most [p] significant bits. *)
Lemma round_on_grid (p emin : Z) (x : Q) :
  (0 <= p)%Z -> 0 < x ->
  exists N q, (0 <= N <= 2 ^ p)%Z /\ (emin <= q)%Z
              /\ round p emin x = inject_Z N * 2 ^ q.
Proof.
  intros Hp Hx.
  exists (nearest_even (x / 2 ^ spacing p emin x)), (spacing p emin x).
  pose proof (pow2_pos (spacing p emin x)) as Hq.
  destruct (binade_spec x Hx) as (_ & B2).
  split; [split|split].
  - apply nearest_even_ge. change (inject_Z 0) with 0.
    apply Qle_shift_div_l; [exact Hq|]. lra.
  - apply nearest_even_le. rewrite <- pow2_Z by exact Hp.
    apply Qle_shift_div_r; [exact Hq|]. rewrite <- pow2_add.
    apply Qlt_le_weak. eapply Qlt_le_trans; [exact B2|].
    apply pow2_le. unfold spacing. lia.
  - unfold spacing. lia.
  - apply round_pos. exact Hx.
Qed.

(** Rounding a rounded value again, to no fewer bits, changes nothing. *)
Lemma round_round_pos (p emin p' emin' : Z) (x : Q) :
  (1 <= p <= p')%Z -> (emin' <= emin)%Z -> 0 < x ->
  round p' emin' (round p emin x) == round p emin x.
Proof.
  intros Hp He Hx.
  destruct (round_on_grid p emin x ltac:(lia) Hx) as (N & q & HN & Hq & E).
  rewrite E.
  assert (Hpp : (2 ^ p <= 2 ^ p')%Z) by (apply Z.pow_le_mono_r; lia).
  destruct (Z.eq_dec N 0) as [->|N0].
  - rewrite (round_wd p' emin' (inject_Z 0 * 2 ^ q) 0) by (change (inject_Z 0) with 0; ring).
    rewrite round_0. change (inject_Z 0) with 0. ring.
  - destruct (Z.eq_dec N (2 ^ p)) as [->|Np].
    + assert (E2 : inject_Z (2 ^ p) * 2 ^ q == inject_Z (2 ^ (p - 1)) * 2 ^ (q + 1)).
      { rewrite <- !pow2_Z by lia. rewrite <- !pow2_add.
        replace (p - 1 + (q + 1))%Z with (p + q)%Z by ring. reflexivity. }
      rewrite (round_wd p' emin' _ _ E2), E2.
      apply round_exact_pos; [|lia].
      split; [apply Z.pow_pos_nonneg; lia|].
      apply Z.lt_le_trans with (2 ^ p)%Z; [apply Z.pow_lt_mono_r; lia | exact Hpp].
    + apply round_exact_pos; lia.
Qed.

Lemma round_round (p emin p' emin' : Z) (x : Q) :
  (1 <= p <= p')%Z -> (emin' <= emin)%Z ->
  round p' emin' (round p emin x) == round p emin x.
Proof.
  intros Hp He.
  destruct (Qlt_le_dec 0 x) as [Hx|Hx].
  - apply round_round_pos; assumption.
  - destruct (Qeq_bool x 0) eqn:E0.
    + apply Qeq_bool_iff in E0. rewrite (round_wd p emin x 0 E0), !round_0. reflexivity.
    + apply Qeq_bool_neq in E0.
      assert (Hn : x < 0) by (apply Qle_lteq in Hx; destruct Hx; [assumption | contradiction]).
      rewrite (round_neg p emin x Hn).
      assert (Hnx : 0 < - x) by lra.
      pose proof (round_round_pos p emin p' emin' (- x) Hp He Hnx) as R.
      destruct (Qeq_bool (round p emin (- x)) 0) eqn:R0.
      * apply Qeq_bool_iff in R0.
        rewrite (round_wd p' emin' (- round p emin (- x)) 0) by (rewrite R0; reflexivity).
        rewrite round_0, R0. reflexivity.
      * apply Qeq_bool_neq in R0.
        pose proof (round_nonneg p emin (- x) ltac:(lra)) as Rn.
        assert (Rp : 0 < round p emin (- x)).
        { apply Qle_lteq in Rn. destruct Rn as [|Ez]; [assumption|]. symmetry in Ez. contradiction. }
        rewrite (round_neg p' emin' (- round p emin (- x))) by lra.
        rewrite (round_wd p' emin' (- - round p emin (- x)) (round p emin (- x)))
          by ring.
        rewrite R. reflexivity.
Qed.

(** Integers of at most [p] bits are their own rounding. *)
Lemma round_Z (p emin : Z) (z : Z) :
  (emin <= 0)%Z -> (Z.abs z < 2 ^ p)%Z -> round p emin (inject_Z z) == inject_Z z.
Proof.
  intros He Hz.
  destruct (Z.lt_trichotomy z 0) as [Hn|[->|Hp]].
  - assert (Hq : inject_Z z < 0)
      by (change 0 with (inject_Z 0); rewrite <- Zlt_Qlt; exact Hn).
    rewrite (round_neg p emin _ Hq).
    rewrite (round_wd p emin (- inject_Z z) (inject_Z (- z) * 2 ^ 0))
      by (rewrite inject_Z_opp; change (2 ^ 0) with 1; ring).
    rewrite round_exact_pos by lia.
    rewrite inject_Z_opp. change (2 ^ 0) with 1. ring.
  - reflexivity.
  - rewrite (round_wd p emin (inject_Z z) (inject_Z z * 2 ^ 0))
      by (change (2 ^ 0) with 1; ring).
    rewrite round_exact_pos by lia.
    change (2 ^ 0) with 1. ring.
Qed.

(** *** The values of [float] and [double] *)

Lemma double_wd (x y : Q) : x == y -> double x = double y.
Proof. apply round_wd. Qed.

Lemma float_wd (x y : Q) : x == y -> float x = float y.
Proof. apply round_wd. Qed.

Lemma float_is_float (x : Q) : is_float (float x).
Proof. unfold is_float, float. apply round_round; lia. Qed.

Lemma double_is_double (x : Q) : is_double (double x).
Proof. unfold is_double, double. apply round_round; lia. Qed.

(** Every [float] is a [double]. *)
Lemma float_is_double (x : Q) : is_float x -> is_double x.
Proof.
  unfold is_float, is_double, float, double. intro H.
  rewrite (round_wd 53 (-1074) x (round 24 (-149) x)) by (symmetry; exact H).
  rewrite round_round by lia. exact H.
Qed.

Lemma is_float_wd (x y : Q) : x == y -> is_float x -> is_float y.
Proof.
  unfold is_float, float. intros E H.
  rewrite <- (round_wd 24 (-149) x y E). rewrite H. exact E.
Qed.

Lemma is_double_wd (x y : Q) : x == y -> is_double x -> is_double y.
Proof.
  unfold is_double, double. intros E H.
  rewrite <- (round_wd 53 (-1074) x y E). rewrite H. exact E.
Qed.

Lemma double_mono (x y : Q) : x <= y -> double x <= double y.
Proof. apply round_mono. lia. Qed.

Lemma float_mono (x y : Q) : x <= y -> float x <= float y.
Proof. apply round_mono. lia. Qed.

(** A double below a number is below the constant written for it, and
    likewise above. *)
Lemma double_le_const (y k : Q) : is_double y -> y <= k -> y <= double k.
Proof.
  intros Hy H. unfold is_double in Hy.
  apply Qle_trans with (double y); [rewrite Hy; apply Qle_refl|].
  apply double_mono. exact H.
Qed.

Lemma double_ge_const (y k : Q) : is_double y -> k <= y -> double k <= y.
Proof.
  intros Hy H. unfold is_double in Hy.
  apply Qle_trans with (double y); [|rewrite Hy; apply Qle_refl].
  apply double_mono. exact H.
Qed.

Lemma is_double_Z (z : Z) : (Z.abs z < 2 ^ 53)%Z -> is_double (inject_Z z).
Proof. intro H. unfold is_double, double. apply round_Z; [lia | exact H]. Qed.

End FloatFacts.

(** ** FishCamp: what each part of [TimerHit] leaves alone *)

Module FishCampFacts.
Import FishCamp.

Lemma timer_requests_app (l l' : list Event) :
  timer_requests (l ++ l') = timer_requests l ++ timer_requests l'.
Proof. apply flat_map_app. Qed.

Lemma completions_app (l l' : list Event) :
  completions (l ++ l') = (completions l + completions l')%nat.
Proof. unfold completions. rewrite filter_app, length_app. reflexivity. Qed.

#[local] Arguments completions : simpl never.
#[local] Arguments timer_requests : simpl never.

Ltac frame_tac :=
  unfold same_exposure; cbn;
  rewrite ?timer_requests_app, ?completions_app;
  unfold completions, timer_requests; cbn;
  rewrite ?app_nil_r, ?Nat.add_0_r; repeat split; reflexivity.

Lemma TimerHit_temperature_frame (hw : Tick) (c : Camera) :
  same_exposure c (TimerHit_temperature hw c).
Proof.
  destruct c as [co si ie er es tr ts tv cs cv pp ti tc].
  unfold TimerHit_temperature; cbn.
  destruct ts; cbn;
    repeat match goal with
           | |- context [if ?b then _ else _] => destruct b
           end; frame_tac.
Qed.

Lemma TimerHit_cooler_frame (hw : Tick) (c : Camera) :
  same_exposure c (TimerHit_cooler hw c).
Proof.
  destruct c as [co si ie er es tr ts tv cs cv pp ti tc].
  unfold TimerHit_cooler; cbn. destruct cs; frame_tac.
Qed.

Lemma same_exposure_trans (a b c : Camera) :
  same_exposure a b -> same_exposure b c -> same_exposure a c.
Proof.
  unfold same_exposure. intros H1 H2.
  decompose [and] H1. decompose [and] H2. repeat split; congruence.
Qed.

Lemma thermal_frame (hw : Tick) (c : Camera) :
  same_exposure c (TimerHit_cooler hw (TimerHit_temperature hw c)).
Proof.
  eapply same_exposure_trans;
    [apply TimerHit_temperature_frame | apply TimerHit_cooler_frame].
Qed.

Lemma timer_id_fresh (n : nat) : (Z.of_nat n =? -1)%Z = false.
Proof. apply Z.eqb_neq. lia. Qed.

(** The spin loop when the camera first reports ready at query [k + n]. *)
Lemma spin_first_ready (n : nat) :
  forall (fuel k : nat) (answers : nat -> Z) (slv : Z) (c : Camera),
    sim c = false ->
    answers (k + n)%nat = 0%Z ->
    (forall i, (i < n)%nat -> answers (k + i)%nat <> 0%Z) ->
    (n + 2 <= fuel)%nat ->
    spin fuel false k answers slv c =
    Some (with_trace (timers c)
            (trace c ++ spin_rounds n slv ++ [fcUsb_cmd_getState]) c).
Proof.
  induction n as [|n IH]; intros fuel k answers slv c Hsim Hz Hnz Hfuel.
  - destruct fuel as [|[|fuel]]; try lia.
    rewrite Nat.add_0_r in Hz.
    cbn [spin]. rewrite Hsim. cbn [negb andb]. rewrite Hz. cbn.
    rewrite Hsim. reflexivity.
  - destruct fuel as [|fuel]; try lia.
    cbn [spin]. rewrite Hsim. cbn [negb andb].
    assert (Hk : answers k <> 0%Z).
    { rewrite <- (Nat.add_0_r k). apply Hnz. lia. }
    apply Z.eqb_neq in Hk. rewrite Hk.
    rewrite IH.
    + destruct c. cbn. rewrite <- !app_assoc. reflexivity.
    + destruct c; exact Hsim.
    + rewrite Nat.add_succ_comm. exact Hz.
    + intros i Hi. rewrite Nat.add_succ_comm. apply Hnz. lia.
    + lia.
Qed.

(** The time left is a [float], and the double 0.07 is none: the test
    [timeleft > 0.07] of the source decides whether more than 7/100 s are
    left. *)
Lemma CalcTimeLeft_spin (now : timeval) (c : Camera) :
  let T := CalcTimeLeft now c in
  (T <= 7 # 100 <-> T <= double (7 # 100)) /\
  (7 # 100 < T <-> double (7 # 100) < T).
Proof.
  intro T.
  assert (HT : is_float T) by apply FloatFacts.float_is_float.
  pose proof (FloatFacts.float_is_double T HT) as HD.
  assert (Hne : ~ T == double (7 # 100)).
  { intro E. apply (FloatFacts.is_float_wd _ _ E) in HT.
    revert HT. unfold is_float. vm_compute. discriminate. }
  pose proof (FloatFacts.double_le_const T (7 # 100) HD) as L1.
  pose proof (FloatFacts.double_ge_const T (7 # 100) HD) as L2.
  assert (A : T <= 7 # 100 <-> T <= double (7 # 100)).
  { split; [exact L1|]. intro H.
    destruct (Qlt_le_dec (7 # 100) T) as [G|G]; [|exact G].
    exfalso. apply Hne. apply Qle_antisym; [exact H | apply L2; lra]. }
  split; [exact A|].
  split; intro H.
  - destruct (Qlt_le_dec (double (7 # 100)) T) as [G|G]; [exact G|].
    apply A in G. lra.
  - destruct (Qlt_le_dec (7 # 100) T) as [G|G]; [exact G|].
    apply A in G. lra.
Qed.


(** The four branches of the [if (InExposure)] block, by remaining time. *)
Lemma TimerHit_exposure_branches (fuel : nat) (hw : Tick) (c : Camera) :
  InExposure c = true ->
  let T := CalcTimeLeft (now hw) c in
  (1 <= T ->
   TimerHit_exposure fuel hw c = Some ((-1)%Z, emit (setExposureLeft T) c)) /\
  (1 # 4 < T -> T < 1 ->
   TimerHit_exposure fuel hw c = Some (SetTimer 250 c)) /\
  (7 # 100 < T -> T <= 1 # 4 ->
   TimerHit_exposure fuel hw c = Some (SetTimer 50 c)) /\
  (T <= 7 # 100 ->
   TimerHit_exposure fuel hw c =
   match spin fuel false 0 (getState hw) (Qtrunc (Qabs (float (100000 * T)))) c with
   | None => None
   | Some c1 =>
       Some ((-1)%Z,
             snd (grabImage (getRawFrame hw)
                    (set_InExposure false (emit (setExposureLeft 0) c1))))
   end).
Proof.
  intros Hin T. unfold TimerHit_exposure. rewrite Hin. fold T.
  destruct (CalcTimeLeft_spin (now hw) c) as (S1 & S2). fold T in S1, S2.
  repeat split.
  - intro H. apply Qltb_ge in H. rewrite H. reflexivity.
  - intros H1 H2. apply Qltb_lt in H1, H2. rewrite H2, H1. reflexivity.
  - intros H1 H2.
    assert (H3 : T < 1) by lra.
    apply S2 in H1.
    apply Qltb_lt in H1, H3. apply Qltb_ge in H2.
    rewrite H3, H2, H1. reflexivity.
  - intro H1.
    assert (H3 : T < 1) by lra.
    assert (H2 : T <= 1 # 4) by lra.
    apply S1 in H1.
    apply Qltb_lt in H3. apply Qltb_ge in H1, H2.
    rewrite H3, H2, H1. reflexivity.
Qed.




(** *** The temperature and cooler blocks *)

(** Case analysis on the camera, so that every projection computes. *)
Ltac fcase c :=
  destruct c as [co si ie er es tr ts tv cs cv pp ti tc];
  cbn [isConnected sim InExposure ExposureRequest ExpStart TemperatureRequest
       TemperatureNP_s TemperatureNP_value CoolerNP_s CoolerN_value
       getCurrentPollingPeriod timers trace] in *.

Ltac fred :=
  cbn [emit set_InExposure set_TemperatureRequest TemperatureNP_setState
       TemperatureNP_setValue set_CoolerNP_s set_CoolerN_value
       with_exposure with_temperature with_cooler with_trace
       isConnected sim InExposure ExposureRequest ExpStart TemperatureRequest
       TemperatureNP_s TemperatureNP_value CoolerNP_s CoolerN_value
       getCurrentPollingPeriod timers trace fst snd andb negb].

Lemma temperature_updates_app (l l' : list Event) :
  temperature_updates (l ++ l') = temperature_updates l ++ temperature_updates l'.
Proof. apply flat_map_app. Qed.

Lemma cooler_updates_app (l l' : list Event) :
  cooler_updates (l ++ l') = cooler_updates l ++ cooler_updates l'.
Proof. apply flat_map_app. Qed.

Ltac updates :=
  rewrite ?temperature_updates_app, ?cooler_updates_app;
  cbn [temperature_updates cooler_updates flat_map app];
  rewrite ?app_nil_r.

(** The poll never changes the state of the temperature property. *)
Lemma TimerHit_temperature_state (hw : Tick) (c : Camera) :
  TemperatureNP_s (TimerHit_temperature hw c) = TemperatureNP_s c.
Proof.
  fcase c. unfold TimerHit_temperature. fred.
  destruct ts; fred;
    repeat match goal with
           | |- context [if ?b then _ else _] => destruct b
           end; reflexivity.
Qed.

Lemma TimerHit_temperature_alert (hw : Tick) (c : Camera) :
  TemperatureNP_s c = IPS_ALERT -> TimerHit_temperature hw c = c.
Proof. intro H. unfold TimerHit_temperature. rewrite H. reflexivity. Qed.




(** *** Start, abort and completion *)

Lemma SetTimer_frame (ms : Z) (c : Camera) :
  InExposure (snd (SetTimer ms c)) = InExposure c /\
  completions (trace (snd (SetTimer ms c))) = completions (trace c).
Proof.
  fcase c. unfold SetTimer. fred. rewrite completions_app.
  split; [reflexivity | apply Nat.add_0_r].
Qed.

Lemma completions_spin_rounds (n : nat) (slv : Z) :
  completions (spin_rounds n slv) = 0%nat.
Proof. induction n as [|n IH]; [reflexivity | exact IH]. Qed.


(** The download signals completion once, whatever the number of bytes. *)
Lemma grabImage_signals (numBytes : Z) (c : Camera) :
  trace (snd (grabImage numBytes c))
  = trace c ++ [fcUsb_cmd_getRawFrame; ExposureComplete] /\
  InExposure (snd (grabImage numBytes c)) = InExposure c /\
  (numBytes = 0%Z -> fst (grabImage numBytes c) = (-1)%Z) /\
  (numBytes <> 0%Z -> fst (grabImage numBytes c) = 0%Z).
Proof.
  fcase c. unfold grabImage.
  destruct (numBytes =? 0)%Z eqn:E; fred; rewrite <- app_assoc;
    repeat split; try reflexivity; intro H.
  - apply Z.eqb_eq in E. contradiction.
  - apply Z.eqb_neq in E. contradiction.
Qed.

(** The exposure block in the spin branch, once the camera reports ready
    at its [n]-th state query. *)
Lemma TimerHit_exposure_spin (fuel n : nat) (hw : Tick) (c : Camera) :
  InExposure c = true -> sim c = false ->
  CalcTimeLeft (now hw) c <= 7 # 100 ->
  first_ready (getState hw) n -> (n + 2 <= fuel)%nat ->
  exists c1,
    TimerHit_exposure fuel hw c = Some ((-1)%Z, c1) /\
    InExposure c1 = false /\
    timers c1 = timers c /\
    trace c1 =
      trace c
      ++ spin_rounds n (Qtrunc (Qabs (float (100000 * CalcTimeLeft (now hw) c))))
      ++ [fcUsb_cmd_getState; setExposureLeft 0;
          fcUsb_cmd_getRawFrame; ExposureComplete].
Proof.
  intros Hin Hsim HT [Hz Hnz] Hfuel.
  destruct (TimerHit_exposure_branches fuel hw c Hin) as (_ & _ & _ & B4).
  rewrite (B4 HT).
  rewrite (spin_first_ready n fuel 0 _ _ c Hsim Hz Hnz Hfuel).
  eexists. split; [reflexivity|].
  unfold grabImage.
  destruct (negb (getRawFrame hw =? 0)%Z); destruct c; cbn;
    rewrite <- !app_assoc; cbn; auto.
Qed.

(** The exposure block in the spin branch in simulation: the loop is not
    entered. *)
Lemma TimerHit_exposure_sim (fuel : nat) (hw : Tick) (c : Camera) :
  InExposure c = true -> sim c = true ->
  CalcTimeLeft (now hw) c <= 7 # 100 -> (1 <= fuel)%nat ->
  exists c1,
    TimerHit_exposure fuel hw c = Some ((-1)%Z, c1) /\
    InExposure c1 = false /\
    timers c1 = timers c /\
    trace c1 =
      trace c ++ [setExposureLeft 0; fcUsb_cmd_getRawFrame; ExposureComplete].
Proof.
  intros Hin Hsim HT Hfuel.
  destruct (TimerHit_exposure_branches fuel hw c Hin) as (_ & _ & _ & B4).
  rewrite (B4 HT). destruct fuel as [|fuel]; [lia|].
  cbn [spin]. rewrite Hsim. cbn [negb andb].
  eexists. split; [reflexivity|].
  unfold grabImage.
  destruct (negb (getRawFrame hw =? 0)%Z); destruct c; cbn;
    rewrite <- !app_assoc; cbn; auto.
Qed.


End FishCampFacts.

(** ** Kepler: the two halves of [readTemperature] *)

Module KeplerFacts.
Import Kepler.

(** Case analysis on the camera, so that every projection computes. *)
Ltac kcase c :=
  destruct c as [ts tv tg ti cs cv ed mp tr];
  cbn [TemperatureNP_s TemperatureN_value m_TargetTemperature
       TemperatureTimer_interval CoolerDutyNP_s CoolerDutyNP_value
       ExposureDuration MergePlanesSP trace] in *.

Ltac kred :=
  cbn [emit setExposureDuration set_TemperatureNP_s set_TemperatureN_value
       set_m_TargetTemperature TemperatureTimer_setInterval
       with_temperature with_cooler with_trace
       TemperatureNP_s TemperatureN_value m_TargetTemperature
       TemperatureTimer_interval CoolerDutyNP_s CoolerDutyNP_value
       ExposureDuration MergePlanesSP trace fst snd andb negb IPState_eqb].

Ltac split_ifs :=
  repeat match goal with
         | |- context [if ?b then _ else _] => destruct b
         end.

Lemma Kepler_temperature_updates_app (l l' : list Event) :
  temperature_updates (l ++ l') = temperature_updates l ++ temperature_updates l'.
Proof. apply flat_map_app. Qed.

Lemma Kepler_cooler_updates_app (l l' : list Event) :
  cooler_updates (l ++ l') = cooler_updates l ++ cooler_updates l'.
Proof. apply flat_map_app. Qed.

Lemma Kepler_completions_app (l l' : list Event) :
  completions (l ++ l') = (completions l + completions l')%nat.
Proof. unfold completions. rewrite filter_app, length_app. reflexivity. Qed.

Lemma failures_app (l l' : list Event) :
  failures (l ++ l') = (failures l + failures l')%nat.
Proof. unfold failures. rewrite filter_app, length_app. reflexivity. Qed.

Lemma grabs_app (l l' : list Event) :
  grabs (l ++ l') = (grabs l + grabs l')%nat.
Proof. unfold grabs. rewrite filter_app, length_app. reflexivity. Qed.

(** Events that are no temperature update, and events that are no cooler
    update, drop out of the respective reading of a trace. *)
Ltac updates :=
  rewrite ?Kepler_temperature_updates_app, ?Kepler_cooler_updates_app;
  cbn [temperature_updates cooler_updates flat_map app];
  rewrite ?app_nil_r.

(** The duty cycle half touches neither the temperature members nor the
    temperature updates. *)
Lemma readTemperature_dutycycle_frame (hw : Poll) (c : Camera) :
  let c' := readTemperature_dutycycle hw c in
  TemperatureNP_s c' = TemperatureNP_s c /\
  TemperatureN_value c' = TemperatureN_value c /\
  m_TargetTemperature c' = m_TargetTemperature c /\
  TemperatureTimer_interval c' = TemperatureTimer_interval c /\
  temperature_updates (trace c') = temperature_updates (trace c).
Proof.
  intro c'. subst c'. kcase c. unfold readTemperature_dutycycle. kred.
  split_ifs; kred; updates; repeat split; reflexivity.
Qed.


(** A failed read raises the alert, whatever the state was. *)
Lemma temperature_read_failure (hw : Poll) (c : Camera) :
  (GetTemperatures hw < 0)%Z ->
  let c' := readTemperature_temperature hw c in
  TemperatureNP_s c' = IPS_ALERT /\
  TemperatureN_value c' = TemperatureN_value c /\
  temperature_updates (trace c') =
    temperature_updates (trace c) ++ [(IPS_ALERT, TemperatureN_value c)].
Proof.
  intros H c'. subst c'. apply Z.ltb_lt in H. kcase c.
  unfold readTemperature_temperature. rewrite H. kred. updates.
  repeat split; reflexivity.
Qed.

(** In alert the temperature half classifies nothing. *)
Lemma temperature_alert_absorbing (hw : Poll) (c : Camera) :
  TemperatureNP_s c = IPS_ALERT ->
  let c' := readTemperature_temperature hw c in
  TemperatureNP_s c' = IPS_ALERT /\
  TemperatureN_value c' = TemperatureN_value c /\
  m_TargetTemperature c' = m_TargetTemperature c /\
  TemperatureTimer_interval c' = TemperatureTimer_interval c /\
  ((0 <= GetTemperatures hw)%Z ->
   temperature_updates (trace c') = temperature_updates (trace c)).
Proof.
  intros Hs c'. subst c'. kcase c. subst ts.
  unfold readTemperature_temperature.
  destruct (GetTemperatures hw <? 0)%Z eqn:E; kred;
    (split; [|split; [|split; [|split]]]); try reflexivity; intro H.
  - apply Z.ltb_lt in E. lia.
  - updates. reflexivity.
Qed.

(** The temperature half in state busy, after a read that succeeded. *)
Lemma temperature_busy (hw : Poll) (c : Camera) :
  TemperatureNP_s c = IPS_BUSY -> (0 <= GetTemperatures hw)%Z ->
  let c' := readTemperature_temperature hw c in
  TemperatureN_value c' = cooler hw /\
  m_TargetTemperature c' = m_TargetTemperature c /\
  (Qabs (double (cooler hw - m_TargetTemperature c)) <= TEMPERATURE_THRESHOLD ->
   TemperatureNP_s c' = IPS_OK /\
   TemperatureTimer_interval c' = TEMPERATURE_FREQUENCY_IDLE) /\
  (TEMPERATURE_THRESHOLD < Qabs (double (cooler hw - m_TargetTemperature c)) ->
   TemperatureNP_s c' = IPS_BUSY /\
   TemperatureTimer_interval c' = TemperatureTimer_interval c).
Proof.
  intros Hs Hrc c'. subst c'. apply Z.ltb_ge in Hrc. kcase c. subst ts.
  unfold readTemperature_temperature. rewrite Hrc. kred.
  split; [|split; [|split]]; try intro H.
  - split_ifs; reflexivity.
  - split_ifs; reflexivity.
  - apply Qle_bool_iff in H. rewrite H. kred. split; reflexivity.
  - apply Qle_bool_gt in H. rewrite H. kred. split; reflexivity.
Qed.



(** *** The worker *)

Lemma trace_emit (e : Event) (c : Camera) : trace (emit e c) = trace c ++ [e].
Proof. reflexivity. Qed.

(** Events that are neither completion, failure nor grab: they do not count. *)
Ltac counts :=
  rewrite ?trace_emit, ?Kepler_completions_app, ?failures_app, ?grabs_app;
  cbn [completions failures grabs filter length];
  rewrite ?Nat.add_0_r.

(** The attempts to start the capture signal nothing and grab nothing. *)
Lemma capture_start_frame (n : nat) :
  forall (i : nat) (answers : nat -> Z) (result : Z) (c : Camera),
    let c' := snd (capture_start n i answers result c) in
    completions (trace c') = completions (trace c) /\
    failures (trace c') = failures (trace c) /\
    grabs (trace c') = grabs (trace c).
Proof.
  induction n as [|n IH]; intros i answers result c; cbn [capture_start snd].
  - repeat split.
  - destruct (answers i =? 0)%Z; cbn [snd].
    + counts. repeat split.
    + destruct (IH (S i) answers (answers i)
                  (emit (usleep (100 * 1000)) (emit FPROFrame_CaptureStart c)))
        as (Hc & Hf & Hg).
      cbv zeta in Hc, Hf, Hg. rewrite Hc, Hf, Hg. counts. repeat split.
Qed.

(** They end with result 0 as soon as one of them succeeds. *)
Lemma capture_start_succeeds (n : nat) :
  forall (i : nat) (answers : nat -> Z) (result : Z) (c : Camera),
    (exists j, (j < n)%nat /\ answers (i + j)%nat = 0%Z) ->
    fst (capture_start n i answers result c) = 0%Z.
Proof.
  induction n as [|n IH]; intros i answers result c (j & Hj & Hz).
  - lia.
  - cbn [capture_start]. destruct (answers i =? 0)%Z eqn:E.
    + apply Z.eqb_eq in E. exact E.
    + apply IH. destruct j as [|j].
      * rewrite Nat.add_0_r in Hz. apply Z.eqb_neq in E. contradiction.
      * exists j. split; [lia|]. rewrite Nat.add_succ_comm. exact Hz.
Qed.

(** With [k] failures followed by a success they make [k + 1] attempts and
    sleep 100 ms after each failure. *)
Lemma capture_start_attempts (k : nat) :
  forall (n i : nat) (answers : nat -> Z) (result : Z) (c : Camera),
    (k < n)%nat ->
    (forall j, (j < k)%nat -> answers (i + j)%nat <> 0%Z) ->
    answers (i + k)%nat = 0%Z ->
    trace (snd (capture_start n i answers result c))
    = trace c ++ retry_rounds k ++ [FPROFrame_CaptureStart].
Proof.
  induction k as [|k IH]; intros n i answers result c Hn Hnz Hz;
    (destruct n as [|n]; [lia|]); cbn [capture_start].
  - rewrite Nat.add_0_r in Hz. apply Z.eqb_eq in Hz. rewrite Hz. reflexivity.
  - assert (Hi : answers i <> 0%Z).
    { rewrite <- (Nat.add_0_r i). apply Hnz. lia. }
    apply Z.eqb_neq in Hi. rewrite Hi.
    rewrite IH.
    + rewrite !trace_emit, <- !app_assoc. reflexivity.
    + lia.
    + intros j Hj. rewrite Nat.add_succ_comm. apply Hnz. lia.
    + rewrite Nat.add_succ_comm. exact Hz.
Qed.

(** When all [n] attempts fail they leave [n] rounds and a non-zero
    result. *)
Lemma capture_start_fails (n : nat) :
  forall (i : nat) (answers : nat -> Z) (result : Z) (c : Camera),
    result <> 0%Z \/ (0 < n)%nat ->
    (forall j, (j < n)%nat -> answers (i + j)%nat <> 0%Z) ->
    fst (capture_start n i answers result c) <> 0%Z /\
    trace (snd (capture_start n i answers result c))
    = trace c ++ retry_rounds n.
Proof.
  induction n as [|n IH]; intros i answers result c Hr Hnz; cbn [capture_start].
  - cbn [fst snd retry_rounds]. rewrite app_nil_r.
    split; [|reflexivity]. destruct Hr as [Hr|Hr]; [exact Hr | lia].
  - assert (Hi : answers i <> 0%Z).
    { rewrite <- (Nat.add_0_r i). apply Hnz. lia. }
    pose proof Hi as Hi'. apply Z.eqb_neq in Hi'. rewrite Hi'.
    destruct (IH (S i) answers (answers i)
                (emit (usleep (100 * 1000)) (emit FPROFrame_CaptureStart c)))
      as (H1 & H2).
    + left. exact Hi.
    + intros j Hj. rewrite Nat.add_succ_comm. apply Hnz. lia.
    + split; [exact H1|]. rewrite H2, !trace_emit, <- !app_assoc. reflexivity.
Qed.


(** The download step signals exactly once: completion or failure. *)
Lemma download_signals (timeLeft : Q) (env : Run) (c : Camera) :
  let c' := download timeLeft env c in
  ((0 <= GetVideoFrameUnpacked env)%Z ->
   completions (trace c') = S (completions (trace c)) /\
   failures (trace c') = failures (trace c)) /\
  ((GetVideoFrameUnpacked env < 0)%Z ->
   completions (trace c') = completions (trace c) /\
   failures (trace c') = S (failures (trace c))).
Proof.
  intro c'. subst c'. unfold download. split; intro H.
  - apply Z.leb_le in H. rewrite H.
    destruct (MergePlanesSP (emit FPROFrame_CaptureAbort
                (emit (FPROFrame_GetVideoFrameUnpacked (Qtrunc (timeLeft * 1000))) c)));
      counts; split; lia.
  - apply Z.leb_gt in H. rewrite H. counts. split; lia.
Qed.

End KeplerFacts.

(** ** The exposure poll of FishCamp *)




(** ** Setting the target temperature *)

(** C10, amended.  When the difference of the requested temperature and
    the temperature last reported, as the driver computes it in [double],
    is less than the double constant 0.1 in absolute value, Kepler's
    [SetTemperature] returns 1 and gives the camera back as it was: no
    setpoint command is added to the trace, and target temperature and
    poll interval keep their values. *)
Theorem C10_Kepler_SetTemperature_near_current
  (rc : Z) (temperature : Q) (c : Kepler.Camera) :
  Qabs (double (temperature - Kepler.TemperatureN_value c))
    < Kepler.TEMPERATURE_THRESHOLD ->
  Kepler.SetTemperature rc temperature c = (1%Z, c).
Proof.
  intro H. unfold Kepler.SetTemperature.
  apply Qltb_lt in H. rewrite H. reflexivity.
Qed.

(** C10 as stated fails where the subtraction rounds up to the threshold.
    The camera reports the double just below -0.05 and the double nearest
    to 0.05 is asked for: the two are less than 0.1 apart, their difference
    in [double] is the constant 0.1 itself, and [SetTemperature] sends the
    setpoint, returns 0, stores the target and selects the busy interval. *)
Lemma C10_counterexample_rounded_distance :
  is_double (- Kepler.below_0_05) /\
  Kepler.TemperatureN_value (Kepler.bench_at (- Kepler.below_0_05))
  = - Kepler.below_0_05 /\
  Qabs (double (1 # 20)
        - Kepler.TemperatureN_value (Kepler.bench_at (- Kepler.below_0_05)))
    < 1 # 10 /\
  double (double (1 # 20)
          - Kepler.TemperatureN_value (Kepler.bench_at (- Kepler.below_0_05)))
    == Kepler.TEMPERATURE_THRESHOLD /\
  fst (Kepler.SetTemperature 0 (double (1 # 20))
         (Kepler.bench_at (- Kepler.below_0_05))) = 0%Z /\
  Kepler.trace
    (snd (Kepler.SetTemperature 0 (double (1 # 20))
            (Kepler.bench_at (- Kepler.below_0_05))))
  = [Kepler.FPROCtrl_SetTemperatureSetPoint (double (1 # 20))] /\
  Kepler.m_TargetTemperature
    (snd (Kepler.SetTemperature 0 (double (1 # 20))
            (Kepler.bench_at (- Kepler.below_0_05))))
  = double (1 # 20) /\
  Kepler.TemperatureTimer_interval
    (snd (Kepler.SetTemperature 0 (double (1 # 20))
            (Kepler.bench_at (- Kepler.below_0_05))))
  = 1000%Z.
Proof.
  repeat split; vm_compute; reflexivity.
Qed.

(** The double 20.05 asked of a camera that reports 20 degrees. *)
Lemma C10_Kepler_SetTemperature_near_current_witness :
  Kepler.SetTemperature 0 (double (401 # 20)) (Kepler.bench IPS_OK 5000)
  = (1%Z, Kepler.bench IPS_OK 5000).
Proof.
  apply (C10_Kepler_SetTemperature_near_current 0 (double (401 # 20))
           (Kepler.bench IPS_OK 5000)).
  vm_compute. reflexivity.
Defined.

(** C5, amended.  Neither driver compares the requested temperature with a
    range.  FishCamp's [SetTemperature] takes every target: it returns 0,
    stores the target and sets the temperature property busy.  Kepler's
    [SetTemperature], for a target whose difference from the reported
    temperature, computed in [double], is not below the double constant
    0.1 in absolute value, sends the setpoint command and nothing else;
    when the camera rejects it the call returns -1 and property state,
    reported temperature, target and poll interval stay as they were; when
    the camera accepts it the call returns 0, the target is stored and the
    poll interval becomes the busy one. *)
Theorem C5_SetTemperature_unvalidated
  (powerOK : bool) (rc : Z) (t : Q) (f : FishCamp.Camera) (k : Kepler.Camera) :
  (fst (FishCamp.SetTemperature powerOK t f) = 0%Z /\
   FishCamp.TemperatureRequest (snd (FishCamp.SetTemperature powerOK t f)) = t /\
   FishCamp.TemperatureNP_s (snd (FishCamp.SetTemperature powerOK t f)) = IPS_BUSY) /\
  (Kepler.TEMPERATURE_THRESHOLD
     <= Qabs (double (t - Kepler.TemperatureN_value k)) ->
   ((rc < 0)%Z ->
    fst (Kepler.SetTemperature rc t k) = (-1)%Z /\
    Kepler.TemperatureNP_s (snd (Kepler.SetTemperature rc t k))
      = Kepler.TemperatureNP_s k /\
    Kepler.TemperatureN_value (snd (Kepler.SetTemperature rc t k))
      = Kepler.TemperatureN_value k /\
    Kepler.m_TargetTemperature (snd (Kepler.SetTemperature rc t k))
      = Kepler.m_TargetTemperature k /\
    Kepler.TemperatureTimer_interval (snd (Kepler.SetTemperature rc t k))
      = Kepler.TemperatureTimer_interval k /\
    Kepler.trace (snd (Kepler.SetTemperature rc t k))
      = Kepler.trace k ++ [Kepler.FPROCtrl_SetTemperatureSetPoint t]) /\
   ((0 <= rc)%Z ->
    fst (Kepler.SetTemperature rc t k) = 0%Z /\
    Kepler.m_TargetTemperature (snd (Kepler.SetTemperature rc t k)) = t /\
    Kepler.TemperatureTimer_interval (snd (Kepler.SetTemperature rc t k))
      = Kepler.TEMPERATURE_FREQUENCY_BUSY /\
    Kepler.TemperatureNP_s (snd (Kepler.SetTemperature rc t k))
      = Kepler.TemperatureNP_s k /\
    Kepler.TemperatureN_value (snd (Kepler.SetTemperature rc t k))
      = Kepler.TemperatureN_value k /\
    Kepler.trace (snd (Kepler.SetTemperature rc t k))
      = Kepler.trace k ++ [Kepler.FPROCtrl_SetTemperatureSetPoint t])).
Proof.
  split.
  - destruct f. destruct powerOK; repeat split; reflexivity.
  - intro H. apply Qltb_ge in H. destruct k. unfold Kepler.SetTemperature.
    rewrite H. split; intro Hrc.
    + apply Z.leb_gt in Hrc. rewrite Hrc. repeat split; reflexivity.
    + apply Z.leb_le in Hrc. rewrite Hrc. repeat split; reflexivity.
Qed.

(** A target of 100 degrees, above [MAX_CCD_TEMP], is taken by both
    drivers: FishCamp returns 0, stores 100 and goes from idle to busy;
    Kepler, the camera not objecting, sends the setpoint, returns 0, stores
    100 and polls every second. *)
Lemma C5_counterexample_out_of_range :
  FishCamp.MAX_CCD_TEMP < 100 /\
  FishCamp.TemperatureNP_s FishCamp.bench = IPS_IDLE /\
  fst (FishCamp.SetTemperature true 100 FishCamp.bench) = 0%Z /\
  FishCamp.TemperatureRequest (snd (FishCamp.SetTemperature true 100 FishCamp.bench))
  = 100 /\
  FishCamp.TemperatureNP_s (snd (FishCamp.SetTemperature true 100 FishCamp.bench))
  = IPS_BUSY /\
  fst (Kepler.SetTemperature 0 100 (Kepler.bench IPS_OK 5000)) = 0%Z /\
  Kepler.m_TargetTemperature
    (snd (Kepler.SetTemperature 0 100 (Kepler.bench IPS_OK 5000))) = 100 /\
  Kepler.TemperatureTimer_interval
    (snd (Kepler.SetTemperature 0 100 (Kepler.bench IPS_OK 5000))) = 1000%Z /\
  Kepler.trace (snd (Kepler.SetTemperature 0 100 (Kepler.bench IPS_OK 5000)))
  = [Kepler.FPROCtrl_SetTemperatureSetPoint 100].
Proof.
  repeat split; vm_compute; reflexivity.
Qed.

(** A camera at 20 degrees that refuses a setpoint of 100 degrees, and one
    that takes it: the command is sent to both. *)
Lemma C5_SetTemperature_unvalidated_witness :
  fst (Kepler.SetTemperature (-1) 100 (Kepler.bench IPS_OK 5000)) = (-1)%Z /\
  Kepler.m_TargetTemperature
    (snd (Kepler.SetTemperature (-1) 100 (Kepler.bench IPS_OK 5000))) = 0 /\
  Kepler.m_TargetTemperature
    (snd (Kepler.SetTemperature 0 100 (Kepler.bench IPS_OK 5000))) = 100 /\
  Kepler.trace (snd (Kepler.SetTemperature 0 100 (Kepler.bench IPS_OK 5000)))
  = Kepler.trace (Kepler.bench IPS_OK 5000)
    ++ [Kepler.FPROCtrl_SetTemperatureSetPoint 100].
Proof.
  destruct (C5_SetTemperature_unvalidated true (-1) 100 FishCamp.bench
              (Kepler.bench IPS_OK 5000)) as (_ & Hk).
  destruct (Hk ltac:(vm_compute; discriminate)) as (Hrej & _).
  destruct (Hrej eq_refl) as (H1 & _ & _ & H2 & _).
  destruct (C5_SetTemperature_unvalidated true 0 100 FishCamp.bench
              (Kepler.bench IPS_OK 5000)) as (_ & Hk').
  destruct (Hk' ltac:(vm_compute; discriminate)) as (_ & Hacc).
  destruct (Hacc ltac:(vm_compute; discriminate)) as (_ & H3 & _ & _ & _ & H4).
  repeat split; assumption.
Defined.

(** ** The temperature poll *)

(** C6, amended.  In Kepler a failed temperature read puts the temperature
    property in alert.  Alert is sticky: a poll that starts in alert ends in
    alert with reported temperature, target and poll interval untouched,
    and when its read succeeds it sends no temperature update, whatever the
    value read.  No poll clears the alert.  FishCamp's poll never changes
    the state of the temperature property, and in alert it does nothing. *)
Theorem C6_alert_sticky
  (hw : Kepler.Poll) (c : Kepler.Camera) (fhw : FishCamp.Tick) (f : FishCamp.Camera) :
  ((Kepler.GetTemperatures hw < 0)%Z ->
   Kepler.TemperatureNP_s (Kepler.readTemperature hw c) = IPS_ALERT) /\
  (Kepler.TemperatureNP_s c = IPS_ALERT ->
   Kepler.TemperatureNP_s (Kepler.readTemperature hw c) = IPS_ALERT /\
   Kepler.TemperatureN_value (Kepler.readTemperature hw c)
     = Kepler.TemperatureN_value c /\
   Kepler.m_TargetTemperature (Kepler.readTemperature hw c)
     = Kepler.m_TargetTemperature c /\
   Kepler.TemperatureTimer_interval (Kepler.readTemperature hw c)
     = Kepler.TemperatureTimer_interval c /\
   ((0 <= Kepler.GetTemperatures hw)%Z ->
    Kepler.temperature_updates (Kepler.trace (Kepler.readTemperature hw c))
      = Kepler.temperature_updates (Kepler.trace c))) /\
  FishCamp.TemperatureNP_s (FishCamp.TimerHit_temperature fhw f)
    = FishCamp.TemperatureNP_s f /\
  (FishCamp.TemperatureNP_s f = IPS_ALERT ->
   FishCamp.TimerHit_temperature fhw f = f).
Proof.
  unfold Kepler.readTemperature.
  destruct (KeplerFacts.readTemperature_dutycycle_frame hw
              (Kepler.readTemperature_temperature hw c))
    as (Fs & Fv & Fg & Fi & Fu).
  cbv zeta in Fs, Fv, Fg, Fi, Fu.
  split; [|split; [|split]].
  - intro H. rewrite Fs.
    apply (KeplerFacts.temperature_read_failure hw c H).
  - intro Hs. rewrite Fs, Fv, Fg, Fi, Fu.
    apply (KeplerFacts.temperature_alert_absorbing hw c Hs).
  - apply FishCampFacts.TimerHit_temperature_state.
  - apply FishCampFacts.TimerHit_temperature_alert.
Qed.

(** A Kepler camera in alert that last reported 20 degrees reads 25 degrees
    without error: it stays in alert, keeps 20 degrees and sends nothing. *)
Lemma C6_counterexample_alert_not_cleared :
  (0 <= Kepler.GetTemperatures (Kepler.poll 0 25 0 40))%Z /\
  ~ Kepler.cooler (Kepler.poll 0 25 0 40)
    == Kepler.TemperatureN_value (Kepler.bench IPS_ALERT 5000) /\
  Kepler.TemperatureNP_s
    (Kepler.readTemperature (Kepler.poll 0 25 0 40) (Kepler.bench IPS_ALERT 5000))
  = IPS_ALERT /\
  Kepler.TemperatureN_value
    (Kepler.readTemperature (Kepler.poll 0 25 0 40) (Kepler.bench IPS_ALERT 5000))
  = 20 /\
  Kepler.temperature_updates
    (Kepler.trace
       (Kepler.readTemperature (Kepler.poll 0 25 0 40) (Kepler.bench IPS_ALERT 5000)))
  = [].
Proof.
  repeat split; vm_compute; discriminate.
Qed.

(** A failed read on an idle camera, and a good read on a camera in alert. *)
Lemma C6_alert_sticky_witness :
  Kepler.TemperatureNP_s
    (Kepler.readTemperature (Kepler.poll (-1) 0 0 40) (Kepler.bench IPS_OK 5000))
  = IPS_ALERT /\
  Kepler.TemperatureNP_s
    (Kepler.readTemperature (Kepler.poll 0 25 0 40) (Kepler.bench IPS_ALERT 5000))
  = IPS_ALERT.
Proof.
  split.
  - apply (proj1 (C6_alert_sticky (Kepler.poll (-1) 0 0 40)
                    (Kepler.bench IPS_OK 5000)
                    (FishCamp.poll_at 101 0 0 1 2000 40) FishCamp.bench)).
    reflexivity.
  - apply (proj1 (proj2 (C6_alert_sticky (Kepler.poll 0 25 0 40)
                           (Kepler.bench IPS_ALERT 5000)
                           (FishCamp.poll_at 101 0 0 1 2000 40) FishCamp.bench))).
    reflexivity.
Defined.

(** C7, amended.  A Kepler poll in state busy whose read succeeds and
    finds the cooler within the threshold of the target (the difference of
    the two, computed in [double], is at most the double constant 0.1 in
    absolute value) sets the temperature property OK and the poll interval
    to the idle one (5000 ms); further away it stays busy and keeps the
    interval.  FishCamp's poll leaves a busy temperature property busy,
    whatever it reads. *)
Theorem C7_regulation_converges
  (hw : Kepler.Poll) (c : Kepler.Camera) (fhw : FishCamp.Tick) (f : FishCamp.Camera) :
  (Kepler.TemperatureNP_s c = IPS_BUSY -> (0 <= Kepler.GetTemperatures hw)%Z ->
   (Qabs (double (Kepler.cooler hw - Kepler.m_TargetTemperature c))
      <= Kepler.TEMPERATURE_THRESHOLD ->
    Kepler.TemperatureNP_s (Kepler.readTemperature hw c) = IPS_OK /\
    Kepler.TemperatureTimer_interval (Kepler.readTemperature hw c)
      = Kepler.TEMPERATURE_FREQUENCY_IDLE) /\
   (Kepler.TEMPERATURE_THRESHOLD
      < Qabs (double (Kepler.cooler hw - Kepler.m_TargetTemperature c)) ->
    Kepler.TemperatureNP_s (Kepler.readTemperature hw c) = IPS_BUSY /\
    Kepler.TemperatureTimer_interval (Kepler.readTemperature hw c)
      = Kepler.TemperatureTimer_interval c)) /\
  (FishCamp.TemperatureNP_s f = IPS_BUSY ->
   FishCamp.TemperatureNP_s (FishCamp.TimerHit_temperature fhw f) = IPS_BUSY).
Proof.
  unfold Kepler.readTemperature.
  destruct (KeplerFacts.readTemperature_dutycycle_frame hw
              (Kepler.readTemperature_temperature hw c))
    as (Fs & _ & _ & Fi & _).
  cbv zeta in Fs, Fi.
  split.
  - intros Hs Hrc. rewrite Fs, Fi.
    apply (KeplerFacts.temperature_busy hw c Hs Hrc).
  - intro Hs. rewrite FishCampFacts.TimerHit_temperature_state. exact Hs.
Qed.

(** A FishCamp camera that regulates toward 20 degrees reads exactly 20
    degrees and stays busy. *)
Lemma C7_counterexample_FishCamp_stays_busy :
  FishCamp.TemperatureNP_s FishCamp.regulating = IPS_BUSY /\
  double (inject_Z (FishCamp.getTemperature (FishCamp.poll_at 101 0 0 1 2000 40)) / 100)
  == FishCamp.TemperatureRequest FishCamp.regulating /\
  FishCamp.TemperatureNP_s
    (FishCamp.TimerHit_temperature (FishCamp.poll_at 101 0 0 1 2000 40)
       FishCamp.regulating)
  = IPS_BUSY.
Proof.
  repeat split; vm_compute; reflexivity.
Qed.

(** A Kepler camera that regulates toward 0 degrees and reads the double
    0.1, which is the threshold itself. *)
Lemma C7_regulation_converges_witness :
  Kepler.TemperatureNP_s
    (Kepler.readTemperature (Kepler.poll 0 (double (1 # 10)) 0 40)
       (Kepler.bench IPS_BUSY 1000))
  = IPS_OK /\
  Kepler.TemperatureTimer_interval
    (Kepler.readTemperature (Kepler.poll 0 (double (1 # 10)) 0 40)
       (Kepler.bench IPS_BUSY 1000))
  = 5000%Z.
Proof.
  apply (proj1 (C7_regulation_converges (Kepler.poll 0 (double (1 # 10)) 0 40)
                  (Kepler.bench IPS_BUSY 1000)
                  (FishCamp.poll_at 101 0 0 1 2000 40) FishCamp.regulating)).
  - reflexivity.
  - vm_compute; discriminate.
  - vm_compute; discriminate.
Defined.




(** ** The cooler poll *)




(** ** The download step *)

(** C3, amended.  FishCamp's [grabImage] signals completion after every
    grab; it returns -1 when the grab gave zero bytes and 0 for every other
    count, negative ones included.  Kepler's download step looks at the
    result code of the grab and not at the number of bytes: a result of 0
    or more signals completion and no failure, a negative result signals
    failure and no completion.  Either way each download sends exactly one
    signal. *)
Theorem C3_download_signals
  (numBytes : Z) (f : FishCamp.Camera)
  (timeLeft : Q) (env : Kepler.Run) (c : Kepler.Camera) :
  (FishCamp.trace (snd (FishCamp.grabImage numBytes f))
   = FishCamp.trace f ++ [FishCamp.fcUsb_cmd_getRawFrame; FishCamp.ExposureComplete] /\
   (numBytes = 0%Z -> fst (FishCamp.grabImage numBytes f) = (-1)%Z) /\
   (numBytes <> 0%Z -> fst (FishCamp.grabImage numBytes f) = 0%Z)) /\
  ((0 <= Kepler.GetVideoFrameUnpacked env)%Z ->
   Kepler.completions (Kepler.trace (Kepler.download timeLeft env c))
   = S (Kepler.completions (Kepler.trace c)) /\
   Kepler.failures (Kepler.trace (Kepler.download timeLeft env c))
   = Kepler.failures (Kepler.trace c)) /\
  ((Kepler.GetVideoFrameUnpacked env < 0)%Z ->
   Kepler.completions (Kepler.trace (Kepler.download timeLeft env c))
   = Kepler.completions (Kepler.trace c) /\
   Kepler.failures (Kepler.trace (Kepler.download timeLeft env c))
   = S (Kepler.failures (Kepler.trace c))).
Proof.
  split.
  - destruct (FishCampFacts.grabImage_signals numBytes f) as (Ht & _ & Hz & Hnz).
    repeat split; assumption.
  - apply (KeplerFacts.download_signals timeLeft env c).
Qed.

(** A Kepler grab that returns 0 and delivers zero bytes is a success:
    completion is signalled and no failure.  A Kepler grab that returns -1
    signals no completion. *)
Lemma C3_counterexample_Kepler_zero_bytes :
  (Kepler.GetVideoFrameUnpacked (Kepler.run 0 (fun _ => 0%Z) 9 0 0) = 0%Z /\
   Kepler.grabSize (Kepler.run 0 (fun _ => 0%Z) 9 0 0) = 0%Z /\
   Kepler.trace
     (Kepler.download 0 (Kepler.run 0 (fun _ => 0%Z) 9 0 0) (Kepler.bench IPS_OK 5000))
   = [Kepler.FPROFrame_GetVideoFrameUnpacked 0; Kepler.FPROFrame_CaptureAbort;
      Kepler.setFrameBuffer Kepler.HWMERGE_FRAME_BOTH; Kepler.setExposureLeft 0;
      Kepler.ExposureComplete]) /\
  Kepler.trace
    (Kepler.download 0 (Kepler.run 0 (fun _ => 0%Z) 9 (-1) 0) (Kepler.bench IPS_OK 5000))
  = [Kepler.FPROFrame_GetVideoFrameUnpacked 0; Kepler.setExposureFailed].
Proof.
  repeat split.
Qed.

(** A FishCamp grab of zero bytes, and Kepler grabs that return 0 and -1. *)
Lemma C3_download_signals_witness :
  fst (FishCamp.grabImage 0 FishCamp.bench) = (-1)%Z /\
  Kepler.completions
    (Kepler.trace
       (Kepler.download 0 (Kepler.run 0 (fun _ => 0%Z) 9 0 0)
          (Kepler.bench IPS_OK 5000))) = 1%nat /\
  Kepler.failures
    (Kepler.trace
       (Kepler.download 0 (Kepler.run 0 (fun _ => 0%Z) 9 (-1) 0)
          (Kepler.bench IPS_OK 5000))) = 1%nat.
Proof.
  destruct (C3_download_signals 0 FishCamp.bench 0
              (Kepler.run 0 (fun _ => 0%Z) 9 0 0) (Kepler.bench IPS_OK 5000))
    as ((_ & Hz & _) & Hok & _).
  destruct (C3_download_signals 0 FishCamp.bench 0
              (Kepler.run 0 (fun _ => 0%Z) 9 (-1) 0) (Kepler.bench IPS_OK 5000))
    as (_ & _ & Hfail).
  split; [exact (Hz eq_refl)|].
  split.
  - exact (proj1 (Hok ltac:(vm_compute; discriminate))).
  - exact (proj2 (Hfail eq_refl)).
Defined.

(** ** Starting an exposure *)

(** C4, amended.  Kepler's worker attempts the capture start up to three
    times: after [k < 3] failures and a success it has made [k + 1]
    attempts and slept 100 ms after each failure; when all three fail it
    has made three attempts, each followed by 100 ms of sleep, and ends
    there: no countdown and no grab follow, and completion is not
    signalled.  FishCamp issues the start command once, and
    [StartExposure] returns whether it gave 0. *)
Theorem C4_start_attempts
  (fuel k : nat) (env : Kepler.Run) (duration : Q) (c : Kepler.Camera)
  (rc_start : Z) (t : FishCamp.timeval) (f : FishCamp.Camera) :
  ((k < 3)%nat ->
   (forall j, (j < k)%nat -> Kepler.CaptureStart env j <> 0%Z) ->
   Kepler.CaptureStart env k = 0%Z ->
   fst (Kepler.capture_start 3 0 (Kepler.CaptureStart env) 0 c) = 0%Z /\
   Kepler.trace (snd (Kepler.capture_start 3 0 (Kepler.CaptureStart env) 0 c))
   = Kepler.trace c ++ Kepler.retry_rounds k ++ [Kepler.FPROFrame_CaptureStart]) /\
  (Kepler.SetExposure env = 0%Z ->
   (forall j, (j < 3)%nat -> Kepler.CaptureStart env j <> 0%Z) ->
   exists c',
     Kepler.workerExposure fuel env duration c = Some c' /\
     Kepler.start_attempts (Kepler.trace c')
     = (Kepler.start_attempts (Kepler.trace c) + 3)%nat /\
     KeplerRun.sleeps (Kepler.trace c')
     = KeplerRun.sleeps (Kepler.trace c) ++ [100000; 100000; 100000]%Z /\
     Kepler.countdown_reports (Kepler.trace c')
     = Kepler.countdown_reports (Kepler.trace c) /\
     Kepler.grabs (Kepler.trace c') = Kepler.grabs (Kepler.trace c) /\
     Kepler.completions (Kepler.trace c')
     = Kepler.completions (Kepler.trace c)) /\
  (FishCamp.start_commands
     (FishCamp.trace (snd (FishCamp.StartExposure rc_start t duration f)))
   = S (FishCamp.start_commands (FishCamp.trace f)) /\
   fst (FishCamp.StartExposure rc_start t duration f) = (rc_start =? 0)%Z).
Proof.
  split; [|split].
  - intros Hk Hnz Hz. split.
    + apply KeplerFacts.capture_start_succeeds. exists k. split; assumption.
    + apply KeplerFacts.capture_start_attempts; assumption.
  - intros Hset Hnz. unfold Kepler.workerExposure. rewrite Hset.
    cbn [Z.eqb negb].
    destruct (KeplerFacts.capture_start_fails 3 0 (Kepler.CaptureStart env) 0
                (Kepler.setExposureDuration duration
                   (Kepler.emit
                      (Kepler.FPROCtrl_SetExposure (Qtrunc (duration * 1000000000)))
                      c)))
      as (Hr & Ht).
    + right. lia.
    + exact Hnz.
    + destruct (Kepler.capture_start 3 0 (Kepler.CaptureStart env) 0 _)
        as [result c1].
      cbn [fst snd] in Hr, Ht. apply Z.eqb_neq in Hr. rewrite Hr. cbn [negb].
      exists c1. split; [reflexivity|]. rewrite Ht.
      destruct c as [ts tv tg ti cs cv ed mp tr].
      cbn [Kepler.trace Kepler.setExposureDuration Kepler.emit Kepler.with_trace
           Kepler.ExposureDuration].
      unfold Kepler.start_attempts, KeplerRun.sleeps, Kepler.countdown_reports,
        Kepler.grabs, Kepler.completions.
      rewrite !filter_app, !length_app, !flat_map_app. cbn.
      rewrite !Nat.add_0_r, <- app_assoc. repeat split.
  - destruct f. unfold FishCamp.StartExposure, FishCamp.start_commands. cbn.
    rewrite !filter_app, !length_app. cbn. rewrite negb_involutive.
    split; [lia | reflexivity].
Qed.

(** FishCamp's start command fails: the trace shows the integration time
    and one start command, and nothing else.  Kepler's three attempts fail:
    [StartExposure] gives [true]. *)
Lemma C4_counterexample_FishCamp_single_attempt :
  FishCamp.trace
    (snd (FishCamp.StartExposure (-1) {| FishCamp.tv_sec := 100; FishCamp.tv_usec := 0 |}
            2 FishCamp.bench))
  = [FishCamp.fcUsb_cmd_setIntegrationTime 2000; FishCamp.fcUsb_cmd_startExposure] /\
  option_map fst
    (Kepler.StartExposure 10 (Kepler.run 3 (fun _ => 0%Z) 9 0 0) 2
       (Kepler.bench IPS_OK 5000))
  = Some true.
Proof.
  split; reflexivity.
Qed.

(** Two failures and a success, and three failures, on the Kepler bench
    camera. *)
Lemma C4_start_attempts_witness :
  Kepler.trace
    (snd (Kepler.capture_start 3 0
            (Kepler.CaptureStart (Kepler.run 2 (fun _ => 0%Z) 9 0 0)) 0
            (Kepler.bench IPS_OK 5000)))
  = [Kepler.FPROFrame_CaptureStart; Kepler.usleep 100000;
     Kepler.FPROFrame_CaptureStart; Kepler.usleep 100000;
     Kepler.FPROFrame_CaptureStart] /\
  exists c',
    Kepler.workerExposure 10 (Kepler.run 3 (fun _ => 0%Z) 9 0 0) 2
      (Kepler.bench IPS_OK 5000) = Some c' /\
    Kepler.start_attempts (Kepler.trace c') = 3%nat /\
    KeplerRun.sleeps (Kepler.trace c') = [100000; 100000; 100000]%Z /\
    Kepler.countdown_reports (Kepler.trace c') = 0%nat /\
    Kepler.grabs (Kepler.trace c') = 0%nat /\
    Kepler.completions (Kepler.trace c') = 0%nat.
Proof.
  destruct (C4_start_attempts 10 2 (Kepler.run 2 (fun _ => 0%Z) 9 0 0) 2
              (Kepler.bench IPS_OK 5000) 0
              {| FishCamp.tv_sec := 100; FishCamp.tv_usec := 0 |} FishCamp.bench)
    as (Hok & _ & _).
  destruct (C4_start_attempts 10 0 (Kepler.run 3 (fun _ => 0%Z) 9 0 0) 2
              (Kepler.bench IPS_OK 5000) 0
              {| FishCamp.tv_sec := 100; FishCamp.tv_usec := 0 |} FishCamp.bench)
    as (_ & Hfail & _).
  split.
  - refine (proj2 (Hok _ _ eq_refl)).
    + repeat constructor.
    + intros j Hj. destruct j as [|[|j]]; try discriminate.
      exfalso. apply PeanoNat.Nat.succ_lt_mono in Hj.
      apply PeanoNat.Nat.succ_lt_mono in Hj. inversion Hj.
  - refine (Hfail eq_refl _).
    intros j Hj. destruct j as [|[|[|j]]]; try discriminate.
    exfalso. do 3 apply PeanoNat.Nat.succ_lt_mono in Hj. inversion Hj.
Defined.

(** ** Abort *)




(** * Further properties *)

(** ** FishCamp: the chain of polls *)

Module FishCampRunFacts.
Import FishCamp FishCampRun FishCampFacts.

#[local] Arguments completions : simpl never.
#[local] Arguments timer_requests : simpl never.

Lemma FishCamp_trace_emit (e : Event) (c : Camera) : trace (emit e c) = trace c ++ [e].
Proof. reflexivity. Qed.

Lemma trace_SetTimer (ms : Z) (c : Camera) :
  trace (snd (SetTimer ms c)) = trace c ++ [SetTimer_ ms].
Proof. reflexivity. Qed.

Lemma completions_single (e : Event) :
  completions [e] = match e with ExposureComplete => 1%nat | _ => 0%nat end.
Proof. destruct e; reflexivity. Qed.

Lemma timer_requests_single (e : Event) :
  timer_requests [e] = match e with SetTimer_ ms => [ms] | _ => [] end.
Proof. destruct e; reflexivity. Qed.

(** What one more event adds to the two readings of a trace. *)
Ltac one_event :=
  rewrite ?FishCamp_trace_emit, ?trace_SetTimer, ?timer_requests_app, ?completions_app,
    ?completions_single, ?timer_requests_single;
  cbv iota; rewrite ?app_nil_r, ?Nat.add_0_r.

Lemma same_run_refl (c : Camera) : same_run c c.
Proof. repeat split. Qed.

Lemma same_run_trans (a b c : Camera) :
  same_run a b -> same_run b c -> same_run a c.
Proof.
  unfold same_run. intros H1 H2.
  decompose [and] H1. decompose [and] H2. repeat split; congruence.
Qed.

Lemma same_exposure_same_run (c c' : Camera) :
  same_exposure c c' -> same_run c c'.
Proof.
  unfold same_exposure, same_run. intro H. decompose [and] H.
  repeat split; assumption.
Qed.

(** The spin loop changes the trace only. *)
Lemma spin_same_run (fuel : nat) :
  forall (ready : bool) (k : nat) (answers : nat -> Z) (slv : Z) (c c' : Camera),
    spin fuel ready k answers slv c = Some c' ->
    same_run c c' /\ InExposure c' = InExposure c /\ timers c' = timers c.
Proof.
  induction fuel as [|fuel IH]; intros ready k answers slv c c' H;
    cbn [spin] in H; [discriminate|].
  destruct (negb (sim c) && negb ready).
  - destruct (answers k =? 0)%Z; apply IH in H;
      destruct H as (Hr & Hi & Ht); destruct c;
      (split; [exact Hr | split; [exact Hi | exact Ht]]).
  - injection H as <-. split; [apply same_run_refl | split; reflexivity].
Qed.

(** The exposure block keeps connection, request and polling period. *)
Lemma TimerHit_exposure_same_run (fuel : nat) (hw : Tick) (c c1 : Camera) (id : Z) :
  TimerHit_exposure fuel hw c = Some (id, c1) -> same_run c c1.
Proof.
  unfold TimerHit_exposure. intro H.
  destruct (InExposure c).
  - destruct (Qltb (CalcTimeLeft (now hw) c) 1).
    + destruct (Qltb (1 # 4) (CalcTimeLeft (now hw) c)).
      * injection H as _ <-. destruct c; repeat split.
      * destruct (Qltb (double (7 # 100)) (CalcTimeLeft (now hw) c)).
        -- injection H as _ <-. destruct c; repeat split.
        -- destruct (spin fuel false 0 (getState hw) _ c) as [c2|] eqn:E;
             [|discriminate].
           injection H as _ <-. apply spin_same_run in E.
           destruct E as (Hr & _ & _).
           eapply same_run_trans; [exact Hr|].
           unfold grabImage. destruct (negb (getRawFrame hw =? 0)%Z);
             destruct c2; repeat split.
    + injection H as _ <-. destruct c; repeat split.
  - injection H as _ <-. apply same_run_refl.
Qed.

(** What the tail of [TimerHit] adds to a camera whose exposure block left
    [timerHitID] at -1. *)
Lemma TimerHit_tail_base (hw : Tick) (c1 : Camera) :
  let c' := snd (SetTimer
                   (getCurrentPollingPeriod
                      (TimerHit_cooler hw (TimerHit_temperature hw c1)))
                   (TimerHit_cooler hw (TimerHit_temperature hw c1))) in
  same_run c1 c' /\ InExposure c' = InExposure c1 /\
  completions (trace c') = completions (trace c1) /\
  timers c' = S (timers c1) /\
  timer_requests (trace c')
  = timer_requests (trace c1) ++ [getCurrentPollingPeriod c1].
Proof.
  intro c'. subst c'.
  destruct (thermal_frame hw c1) as (Hco & Hsi & Hin & Her & Hes & Hpp & Hti & Htr & Hcp).
  destruct (SetTimer_frame
              (getCurrentPollingPeriod
                 (TimerHit_cooler hw (TimerHit_temperature hw c1)))
              (TimerHit_cooler hw (TimerHit_temperature hw c1))) as (Si & Sc).
  rewrite Si, Sc, Hin, Hcp, Hpp.
  destruct (TimerHit_cooler hw (TimerHit_temperature hw c1)) as
    [co si ie er es tq ts tv cs cv pp ti tc].
  cbn [isConnected sim InExposure ExposureRequest ExpStart
       getCurrentPollingPeriod timers trace] in *.
  unfold same_run, SetTimer.
  cbn [snd isConnected sim InExposure ExposureRequest ExpStart
       getCurrentPollingPeriod timers trace with_trace].
  rewrite timer_requests_app, Htr, timer_requests_single.
  repeat split; congruence.
Qed.

(** A poll of a camera that is not exposing. *)
Lemma poll_idle (fuel : nat) (hw : Tick) (c : Camera) :
  isConnected c = true -> InExposure c = false ->
  exists c',
    TimerHit fuel hw c = Some c' /\ same_run c c' /\
    InExposure c' = false /\
    completions (trace c') = completions (trace c) /\
    timers c' = S (timers c) /\
    timer_requests (trace c')
    = timer_requests (trace c) ++ [getCurrentPollingPeriod c].
Proof.
  intros Hco Hin. unfold TimerHit. rewrite Hco. cbn [negb].
  unfold TimerHit_exposure. rewrite Hin. cbn [Z.eqb Pos.eqb].
  eexists. split; [reflexivity|].
  destruct (TimerHit_tail_base hw c) as (Hr & Hi & Hc & Ht & Hq).
  rewrite Hi, Hin. repeat split; try assumption; apply Hr.
Qed.

(** A poll during an exposure with more than 0.07 s left. *)
Lemma poll_waiting (fuel : nat) (hw : Tick) (c : Camera) :
  isConnected c = true -> InExposure c = true ->
  7 # 100 < CalcTimeLeft (now hw) c ->
  exists c' x,
    TimerHit fuel hw c = Some c' /\ same_run c c' /\
    InExposure c' = true /\
    completions (trace c') = completions (trace c) /\
    timers c' = S (timers c) /\
    timer_requests (trace c') = timer_requests (trace c) ++ [x] /\
    (x = 250%Z \/ x = 50%Z \/ x = getCurrentPollingPeriod c).
Proof.
  intros Hco Hin HT.
  destruct (TimerHit_exposure_branches fuel hw c Hin) as (B1 & B2 & B3 & _).
  assert (Htight : forall ms,
             TimerHit_exposure fuel hw c = Some (SetTimer ms c) ->
             exists c',
               TimerHit fuel hw c = Some c' /\ same_run c c' /\
               InExposure c' = true /\
               completions (trace c') = completions (trace c) /\
               timers c' = S (timers c) /\
               timer_requests (trace c') = timer_requests (trace c) ++ [ms]).
  { intros ms He.
    change (SetTimer ms c) with (Z.of_nat (timers c), snd (SetTimer ms c)) in He.
    unfold TimerHit. rewrite Hco, He. cbn [negb].
    rewrite timer_id_fresh.
    eexists. split; [reflexivity|].
    destruct (thermal_frame hw (snd (SetTimer ms c)))
      as (Fco & Fsi & Fin & Fer & Fes & Fpp & Fti & Ftr & Fcp).
    rewrite Fin, Fcp, Fti, Ftr.
    unfold same_run. rewrite Fco, Fsi, Fer, Fes, Fpp. one_event.
    destruct c; repeat split. exact Hin. }
  destruct (Qlt_le_dec (CalcTimeLeft (now hw) c) 1) as [H1|H1].
  - destruct (Qlt_le_dec (1 # 4) (CalcTimeLeft (now hw) c)) as [H4|H4].
    + destruct (Htight 250%Z (B2 H4 H1)) as (c' & Ha & Hb & Hc & Hd & He & Hf).
      exists c', 250%Z.
      split; [exact Ha | split; [exact Hb | split; [exact Hc |
        split; [exact Hd | split; [exact He | split; [exact Hf | now left]]]]]].
    + destruct (Htight 50%Z (B3 HT H4)) as (c' & Ha & Hb & Hc & Hd & He & Hf).
      exists c', 50%Z.
      split; [exact Ha | split; [exact Hb | split; [exact Hc |
        split; [exact Hd | split; [exact He | split; [exact Hf |
          now right; left]]]]]].
  - unfold TimerHit. rewrite Hco, (B1 H1). cbn [negb Z.eqb Pos.eqb].
    eexists. exists (getCurrentPollingPeriod c). split; [reflexivity|].
    destruct (TimerHit_tail_base hw
                (emit (setExposureLeft (CalcTimeLeft (now hw) c)) c))
      as (Hr & Hi & Hc & Ht & Hq).
    rewrite Hi, Hc, Ht, Hq. one_event.
    split; [eapply same_run_trans; [|exact Hr]; destruct c; repeat split|].
    destruct c; repeat split; auto.
Qed.

(** A poll during an exposure with at most 0.07 s left, in simulation or
    with a camera that gets ready. *)
Lemma poll_due (fuel : nat) (hw : Tick) (c : Camera) :
  isConnected c = true -> InExposure c = true ->
  CalcTimeLeft (now hw) c <= 7 # 100 ->
  (1 <= fuel)%nat -> (sim c = false -> answers_ready fuel hw) ->
  exists c',
    TimerHit fuel hw c = Some c' /\ same_run c c' /\
    InExposure c' = false /\
    completions (trace c') = S (completions (trace c)) /\
    timers c' = S (timers c) /\
    timer_requests (trace c')
    = timer_requests (trace c) ++ [getCurrentPollingPeriod c].
Proof.
  intros Hco Hin HT Hfuel Hready.
  assert (He : exists c1,
             TimerHit_exposure fuel hw c = Some ((-1)%Z, c1) /\
             InExposure c1 = false /\ timers c1 = timers c /\
             completions (trace c1) = S (completions (trace c)) /\
             timer_requests (trace c1) = timer_requests (trace c)).
  { destruct (sim c) eqn:Hsim.
    - destruct (TimerHit_exposure_sim fuel hw c Hin Hsim HT Hfuel)
        as (c1 & He & Hi & Ht & Htr).
      exists c1. rewrite Htr, completions_app, timer_requests_app.
      change (completions [setExposureLeft 0; fcUsb_cmd_getRawFrame; ExposureComplete])
        with 1%nat.
      change (timer_requests [setExposureLeft 0; fcUsb_cmd_getRawFrame; ExposureComplete])
        with (@nil Z).
      rewrite app_nil_r. repeat split; auto. lia.
    - destruct (Hready eq_refl) as (n & Hfr & Hn).
      destruct (TimerHit_exposure_spin fuel n hw c Hin Hsim HT Hfr Hn)
        as (c1 & He & Hi & Ht & Htr).
      exists c1. rewrite Htr, !completions_app, !timer_requests_app.
      rewrite completions_spin_rounds.
      assert (Hsr : forall m slv, timer_requests (spin_rounds m slv) = [])
        by (induction m as [|m IH]; intro slv; [reflexivity | apply IH]).
      rewrite Hsr.
      change (completions [fcUsb_cmd_getState; setExposureLeft 0;
                           fcUsb_cmd_getRawFrame; ExposureComplete]) with 1%nat.
      change (timer_requests [fcUsb_cmd_getState; setExposureLeft 0;
                              fcUsb_cmd_getRawFrame; ExposureComplete])
        with (@nil Z).
      rewrite !app_nil_r. repeat split; auto. lia. }
  destruct He as (c1 & He & Hi1 & Ht1 & Hc1 & Hq1).
  pose proof (TimerHit_exposure_same_run fuel hw c c1 _ He) as Hr1.
  unfold TimerHit. rewrite Hco, He. cbn [negb Z.eqb Pos.eqb].
  eexists. split; [reflexivity|].
  destruct (TimerHit_tail_base hw c1) as (Hr & Hi & Hc & Ht & Hq).
  rewrite Hi, Hc, Ht, Hq, Hi1, Hc1, Ht1, Hq1.
  split; [eapply same_run_trans; eassumption|].
  destruct Hr1 as (_ & _ & _ & _ & Hpp). rewrite Hpp. repeat split.
Qed.

End FishCampRunFacts.

Module FishCampChainFacts.
Import FishCamp FishCampRun FishCampFacts FishCampRunFacts.

Lemma due_same_run (c c' : Camera) (hw : Tick) :
  same_run c c' -> due c' hw = due c hw.
Proof.
  intros (_ & _ & Her & Hes & _). unfold due, CalcTimeLeft.
  rewrite Her, Hes. reflexivity.
Qed.

(** Polls of a camera that is not exposing signal nothing. *)
Lemma polls_idle (fuel : nat) (hws : list Tick) :
  forall c : Camera,
    isConnected c = true -> InExposure c = false ->
    exists c',
      polls fuel hws c = Some c' /\ InExposure c' = false /\
      completions (trace c') = completions (trace c).
Proof.
  induction hws as [|hw hws IH]; intros c Hco Hin; cbn [polls].
  - exists c. repeat split. exact Hin.
  - destruct (poll_idle fuel hw c Hco Hin) as (c1 & He & Hr & Hi & Hc & _).
    rewrite He.
    destruct (IH c1) as (c' & Hp & Hi' & Hc').
    + destruct Hr as (Hr & _). congruence.
    + exact Hi.
    + exists c'. repeat split; congruence.
Qed.

(** Polls of an exposing camera signal completion once, at the first poll
    that finds the exposure due, and never again. *)
Lemma polls_exposing (fuel : nat) (hws : list Tick) :
  forall c : Camera,
    isConnected c = true -> InExposure c = true -> (1 <= fuel)%nat ->
    (sim c = false ->
     forall hw, In hw hws -> due c hw = true -> answers_ready fuel hw) ->
    exists c',
      polls fuel hws c = Some c' /\
      InExposure c' = negb (existsb (due c) hws) /\
      completions (trace c')
      = (completions (trace c) + if existsb (due c) hws then 1 else 0)%nat.
Proof.
  induction hws as [|hw hws IH]; intros c Hco Hin Hfuel Hready; cbn [polls existsb].
  - exists c. repeat split; [exact Hin | lia].
  - destruct (due c hw) eqn:Hdue; cbn [orb negb].
    + pose proof Hdue as Hdue'. unfold due in Hdue. apply Qle_bool_iff in Hdue.
      apply (proj1 (CalcTimeLeft_spin (now hw) c)) in Hdue.
      destruct (poll_due fuel hw c Hco Hin Hdue Hfuel) as (c1 & He & Hr & Hi & Hc & _).
      { intro Hs. apply (Hready Hs); [left; reflexivity | exact Hdue']. }
      rewrite He.
      destruct (polls_idle fuel hws c1) as (c' & Hp & Hi' & Hc').
      * destruct Hr as (Hr & _). congruence.
      * exact Hi.
      * exists c'. repeat split; [exact Hp | exact Hi' | lia].
    + unfold due in Hdue. apply Qle_bool_gt in Hdue.
      apply (proj2 (CalcTimeLeft_spin (now hw) c)) in Hdue.
      destruct (poll_waiting fuel hw c Hco Hin Hdue)
        as (c1 & x & He & Hr & Hi & Hc & _).
      rewrite He.
      destruct (IH c1) as (c' & Hp & Hi' & Hc').
      * destruct Hr as (Hr & _). congruence.
      * exact Hi.
      * exact Hfuel.
      * intros Hs hw' Hin' Hd'. apply Hready.
        -- destruct Hr as (_ & Hr' & _). congruence.
        -- right. exact Hin'.
        -- rewrite <- (due_same_run c c1 hw' Hr). exact Hd'.
      * exists c'. split; [exact Hp|].
        assert (Hd : existsb (due c1) hws = existsb (due c) hws).
        { clear - Hr. induction hws as [|h hs IHh]; [reflexivity|].
          cbn [existsb]. rewrite (due_same_run c c1 h Hr), IHh. reflexivity. }
        rewrite Hd in Hi', Hc'. split; [exact Hi' | lia].
Qed.

Lemma usec_millis (t : timeval) :
  normal t -> (0 <= Z.quot (tv_usec t) 1000 <= 999)%Z.
Proof.
  intros (_ & H). split; [apply Z.quot_pos; lia|].
  apply Z.lt_succ_r. apply Z.quot_lt_upper_bound; lia.
Qed.

(** The milliseconds of a clock reading are computed without rounding. *)
Lemma millis_Z (t : timeval) :
  normal t ->
  millis t == inject_Z (tv_sec t * 1000 + Z.quot (tv_usec t) 1000).
Proof.
  intro Hn. pose proof (usec_millis t Hn) as Hq. destruct Hn as (Hs & _).
  change (2 ^ 43)%Z with 8796093022208%Z in Hs.
  assert (P : (2 ^ 53 = 9007199254740992)%Z) by reflexivity.
  unfold millis.
  assert (E1 : double (inject_Z (tv_sec t)) == inject_Z (tv_sec t))
    by (apply FloatFacts.is_double_Z; lia).
  assert (E2 : double (double (inject_Z (tv_sec t)) * 1000)
               == inject_Z (tv_sec t * 1000)).
  { rewrite (FloatFacts.double_wd _ (inject_Z (tv_sec t * 1000)))
      by (rewrite E1, inject_Z_mult; reflexivity).
    apply FloatFacts.is_double_Z. lia. }
  assert (E3 : double (inject_Z (Z.quot (tv_usec t) 1000))
               == inject_Z (Z.quot (tv_usec t) 1000))
    by (apply FloatFacts.is_double_Z; lia).
  rewrite (FloatFacts.double_wd _
             (inject_Z (tv_sec t * 1000 + Z.quot (tv_usec t) 1000)))
    by (rewrite E2, E3, inject_Z_plus; reflexivity).
  apply FloatFacts.is_double_Z. lia.
Qed.

Lemma millis_mono (a b : timeval) :
  normal a -> normal b -> not_after a b -> millis a <= millis b.
Proof.
  intros Ha Hb Hab.
  rewrite (millis_Z a Ha), (millis_Z b Hb), <- Zle_Qle.
  pose proof (usec_millis a Ha). pose proof (usec_millis b Hb).
  destruct Ha as (_ & Ha). destruct Hb as (_ & Hb).
  destruct Hab as [Hlt|[Heq Hle]].
  - lia.
  - rewrite Heq.
    assert (Z.quot (tv_usec a) 1000 <= Z.quot (tv_usec b) 1000)%Z
      by (apply Z.quot_le_mono; lia).
    lia.
Qed.

(** At the instant the exposure started the time left is the request. *)
Lemma CalcTimeLeft_start (c : Camera) :
  CalcTimeLeft (ExpStart c) c == float (double (ExposureRequest c)).
Proof.
  unfold CalcTimeLeft. cbv zeta.
  set (m := millis (ExpStart c)). set (r := ExposureRequest c).
  assert (E1 : double (m - m) = 0)
    by (rewrite (FloatFacts.double_wd (m - m) 0) by ring; reflexivity).
  rewrite E1.
  assert (E2 : double (0 / 1000) = 0) by reflexivity.
  rewrite E2.
  rewrite (FloatFacts.double_wd (r - 0) r) by ring. reflexivity.
Qed.

(** The time left does not grow with the milliseconds of the clock. *)
Lemma CalcTimeLeft_antitone (a b : timeval) (c : Camera) :
  millis a <= millis b -> CalcTimeLeft b c <= CalcTimeLeft a c.
Proof.
  intro Hm. unfold CalcTimeLeft. cbv zeta.
  set (s := millis (ExpStart c)). set (r := ExposureRequest c).
  apply FloatFacts.float_mono, FloatFacts.double_mono.
  assert (H : double (double (millis a - s) / 1000)
              <= double (double (millis b - s) / 1000)).
  { apply FloatFacts.double_mono.
    assert (H : double (millis a - s) <= double (millis b - s))
      by (apply FloatFacts.double_mono; lra).
    apply Qmult_le_compat_r; [exact H | discriminate]. }
  lra.
Qed.

Lemma poll_at_ready (fuel : nat) (sec usec : Z) (busy : nat) (bytes centi : Z)
  (power : Q) :
  (busy + 2 <= fuel)%nat ->
  answers_ready fuel (poll_at sec usec busy bytes centi power).
Proof.
  intro H. exists busy. split; [split|exact H]; cbn [poll_at getState].
  - rewrite PeanoNat.Nat.ltb_irrefl. reflexivity.
  - intros i Hi. apply PeanoNat.Nat.ltb_lt in Hi. rewrite Hi. discriminate.
Qed.

End FishCampChainFacts.

(** X1.  Every call of [TimerHit] on a connected camera asks for exactly
    one timer, of 250 ms, 50 ms or the polling period, and returns; in
    the one branch that waits for the camera (exposing, at most 0.07 s
    left, no simulation) it does so once the camera reports ready. *)
Theorem X1_TimerHit_rearms_once
  (fuel : nat) (hw : FishCamp.Tick) (c : FishCamp.Camera) :
  FishCamp.isConnected c = true -> (1 <= fuel)%nat ->
  (FishCamp.InExposure c = true ->
   FishCamp.CalcTimeLeft (FishCamp.now hw) c <= 7 # 100 ->
   FishCamp.sim c = false -> FishCampRun.answers_ready fuel hw) ->
  exists c' x,
    FishCamp.TimerHit fuel hw c = Some c' /\
    FishCamp.timers c' = S (FishCamp.timers c) /\
    FishCamp.timer_requests (FishCamp.trace c')
    = FishCamp.timer_requests (FishCamp.trace c) ++ [x] /\
    (x = 250%Z \/ x = 50%Z \/ x = FishCamp.getCurrentPollingPeriod c).
Proof.
  intros Hco Hfuel Hready.
  destruct (FishCamp.InExposure c) eqn:Hin.
  - destruct (Qlt_le_dec (7 # 100) (FishCamp.CalcTimeLeft (FishCamp.now hw) c))
      as [HT|HT].
    + destruct (FishCampRunFacts.poll_waiting fuel hw c Hco Hin HT)
        as (c' & x & He & _ & _ & _ & Ht & Hq & Hx).
      exists c', x. repeat split; assumption.
    + destruct (FishCampRunFacts.poll_due fuel hw c Hco Hin HT Hfuel
                  (Hready eq_refl HT))
        as (c' & He & _ & _ & _ & Ht & Hq).
      exists c', (FishCamp.getCurrentPollingPeriod c).
      split; [exact He | split; [exact Ht | split; [exact Hq | now right; right]]].
  - destruct (FishCampRunFacts.poll_idle fuel hw c Hco Hin)
      as (c' & He & _ & _ & _ & Ht & Hq).
    exists c', (FishCamp.getCurrentPollingPeriod c).
    split; [exact He | split; [exact Ht | split; [exact Hq | now right; right]]].
Qed.

(** The bench camera polled with 0.05 s left and a camera that is busy for
    three queries. *)
Lemma X1_TimerHit_rearms_once_witness :
  exists c' x,
    FishCamp.TimerHit 10 (FishCamp.poll_at 101 950000 3 1 2000 40) FishCamp.bench
    = Some c' /\
    FishCamp.timers c' = 1%nat /\
    FishCamp.timer_requests (FishCamp.trace c') = [x] /\
    (x = 250%Z \/ x = 50%Z \/ x = 1000%Z).
Proof.
  refine (X1_TimerHit_rearms_once 10
            (FishCamp.poll_at 101 950000 3 1 2000 40) FishCamp.bench
            eq_refl _ _).
  - repeat constructor.
  - intros _ _ _. apply FishCampChainFacts.poll_at_ready. repeat constructor.
Defined.

(** X2.  After [StartExposure], whatever it returned, any chain of polls
    of a connected camera signals completion exactly once if one of the
    polls finds at most 0.07 s left, and not at all otherwise; the camera
    is still exposing afterwards exactly in the second case.  The chain
    returns when the camera gets ready in the polls that find the
    exposure due. *)
Theorem X2_exposure_completes_once
  (fuel : nat) (hws : list FishCamp.Tick) (c : FishCamp.Camera)
  (rc_start : Z) (t : FishCamp.timeval) (duration : Q) :
  FishCamp.isConnected c = true -> (1 <= fuel)%nat ->
  (FishCamp.sim c = false ->
   forall hw, In hw hws ->
     FishCampRun.due (snd (FishCamp.StartExposure rc_start t duration c)) hw = true ->
     FishCampRun.answers_ready fuel hw) ->
  exists c',
    FishCampRun.polls fuel hws
      (snd (FishCamp.StartExposure rc_start t duration c)) = Some c' /\
    FishCamp.InExposure c'
    = negb (existsb
              (FishCampRun.due (snd (FishCamp.StartExposure rc_start t duration c)))
              hws) /\
    FishCamp.completions (FishCamp.trace c')
    = (FishCamp.completions (FishCamp.trace c)
       + if existsb
              (FishCampRun.due (snd (FishCamp.StartExposure rc_start t duration c)))
              hws
         then 1 else 0)%nat.
Proof.
  intros Hco Hfuel Hready.
  destruct (FishCampChainFacts.polls_exposing fuel hws
              (snd (FishCamp.StartExposure rc_start t duration c)))
    as (c' & Hp & Hi & Hc).
  - destruct c; exact Hco.
  - destruct c; reflexivity.
  - exact Hfuel.
  - intro Hs. apply Hready. destruct c; exact Hs.
  - exists c'. split; [exact Hp | split; [exact Hi|]].
    rewrite Hc. f_equal. destruct c; unfold FishCamp.StartExposure.
    cbn -[FishCamp.completions].
    rewrite !FishCampFacts.completions_app. cbn. lia.
Qed.

(** An exposure of 2 s started at second 100 and polled with 1.05 s,
    0.9 s, 0.1 s and 0.05 s left and once more a second later: one
    completion. *)
Lemma X2_exposure_completes_once_witness :
  exists c',
    FishCampRun.polls 10
      [FishCamp.poll_at 100 950000 0 1 2000 40;
       FishCamp.poll_at 101 100000 0 1 2000 40;
       FishCamp.poll_at 101 900000 0 1 2000 40;
       FishCamp.poll_at 101 950000 3 1 2000 40;
       FishCamp.poll_at 102 950000 0 1 2000 40]
      (snd (FishCamp.StartExposure 0 {| FishCamp.tv_sec := 100; FishCamp.tv_usec := 0 |}
              2 FishCamp.bench)) = Some c' /\
    FishCamp.InExposure c' = false /\
    FishCamp.completions (FishCamp.trace c') = 1%nat.
Proof.
  refine (X2_exposure_completes_once 10 _ FishCamp.bench 0
            {| FishCamp.tv_sec := 100; FishCamp.tv_usec := 0 |} 2 eq_refl _ _).
  - repeat constructor.
  - intros _ hw Hin _. cbn [In] in Hin.
    destruct Hin as [<-|[<-|[<-|[<-|[<-|[]]]]]];
      apply FishCampChainFacts.poll_at_ready; repeat constructor.
Defined.

(** X3.  The time left is the requested duration, as the [float] it was
    passed as, at the instant [StartExposure] recorded, and it never grows
    while the clock does not go back: of two readings of the clock (seconds
    since the epoch below 2^43, microseconds in [0, 1000000)), the later
    one gives at most the time left of the earlier one. *)
Theorem X3_CalcTimeLeft_clock
  (c : FishCamp.Camera) (rc_start : Z) (t a b : FishCamp.timeval) (duration : Q) :
  FishCamp.CalcTimeLeft t (snd (FishCamp.StartExposure rc_start t duration c))
  == float duration /\
  (FishCampRun.normal a -> FishCampRun.normal b -> FishCampRun.not_after a b ->
   FishCamp.CalcTimeLeft b c <= FishCamp.CalcTimeLeft a c).
Proof.
  split.
  - pose proof (FishCampChainFacts.CalcTimeLeft_start
                  (snd (FishCamp.StartExposure rc_start t duration c))) as H.
    destruct c. unfold FishCamp.StartExposure in *.
    cbn [snd FishCamp.ExpStart FishCamp.ExposureRequest FishCamp.emit
         FishCamp.set_InExposure FishCamp.with_exposure FishCamp.with_trace] in H.
    cbn [snd FishCamp.emit FishCamp.set_InExposure FishCamp.with_exposure
         FishCamp.with_trace].
    rewrite H.
    rewrite (FloatFacts.float_wd (double (float duration)) (float duration))
      by (apply FloatFacts.float_is_double, FloatFacts.float_is_float).
    apply FloatFacts.float_is_float.
  - intros Ha Hb Hab.
    apply FishCampChainFacts.CalcTimeLeft_antitone.
    apply FishCampChainFacts.millis_mono; assumption.
Qed.

(** The bench camera read at 100.9995 s and at 101.0002 s: the
    microseconds decrease, the time left does not grow. *)
Lemma X3_CalcTimeLeft_clock_witness :
  FishCamp.CalcTimeLeft {| FishCamp.tv_sec := 101; FishCamp.tv_usec := 200 |}
    FishCamp.bench
  <= FishCamp.CalcTimeLeft {| FishCamp.tv_sec := 100; FishCamp.tv_usec := 999500 |}
       FishCamp.bench.
Proof.
  refine (proj2 (X3_CalcTimeLeft_clock FishCamp.bench 0
                   {| FishCamp.tv_sec := 0; FishCamp.tv_usec := 0 |}
                   {| FishCamp.tv_sec := 100; FishCamp.tv_usec := 999500 |}
                   {| FishCamp.tv_sec := 101; FishCamp.tv_usec := 200 |} 0) _ _ _).
  - unfold FishCampRun.normal. cbn. lia.
  - unfold FishCampRun.normal. cbn. lia.
  - left. cbn. lia.
Defined.

Module KeplerRunFacts.
Import Kepler KeplerRun KeplerFacts.

Lemma sleeps_app (l l' : list Event) : sleeps (l ++ l') = sleeps l ++ sleeps l'.
Proof. apply flat_map_app. Qed.

Lemma grab_timeouts_app (l l' : list Event) :
  grab_timeouts (l ++ l') = grab_timeouts l ++ grab_timeouts l'.
Proof. apply flat_map_app. Qed.

Lemma quiet_nil : quiet [].
Proof. repeat split. constructor. Qed.

Lemma quiet_app (l l' : list Event) : quiet l -> quiet l' -> quiet (l ++ l').
Proof.
  intros (Hs & Hg & Hc & Hf) (Hs' & Hg' & Hc' & Hf'). unfold quiet.
  rewrite sleeps_app, grab_timeouts_app, Kepler_completions_app, failures_app.
  rewrite Hg, Hg', Hc, Hc', Hf, Hf'.
  split; [apply Forall_app; split; assumption | repeat split].
Qed.

Lemma quiet_sleep (us : Z) : short_sleep us -> quiet [usleep us].
Proof. intro H. repeat split. constructor; [exact H | constructor]. Qed.

(** The fraction [timeLeft - trunc(timeLeft)] of a time left that is not
    negative, raised to 5 ms, gives a sleep of 5000 to 999999
    microseconds. *)
Lemma delay_short (timeLeft : Q) :
  0 <= timeLeft ->
  short_sleep
    (Qtrunc (Qmax (timeLeft - inject_Z (Qtrunc timeLeft)) (5 # 1000) * 1000000)).
Proof.
  intro H0. unfold Qtrunc at 2.
  apply Qle_bool_iff in H0. rewrite H0. apply Qle_bool_iff in H0.
  set (frac := timeLeft - inject_Z (Qfloor timeLeft)).
  assert (Hlo : 0 <= frac) by (unfold frac; pose proof (Qfloor_le timeLeft); lra).
  assert (Hhi : frac < 1).
  { unfold frac. pose proof (Qlt_floor timeLeft) as H.
    rewrite inject_Z_plus in H. change (inject_Z 1) with 1 in H. lra. }
  set (delay := Qmax frac (5 # 1000)).
  assert (Hd : 5 # 1000 <= delay) by apply Q.le_max_r.
  assert (Hd' : delay < 1) by (apply Q.max_lub_lt; [exact Hhi | reflexivity]).
  assert (Hp : 0 <= delay * 1000000) by lra.
  unfold Qtrunc. apply Qle_bool_iff in Hp. rewrite Hp.
  unfold short_sleep. split.
  - change 5000%Z with (Qfloor (inject_Z 5000)).
    apply Qfloor_resp_le. change (inject_Z 5000) with (5000 # 1). lra.
  - apply Z.lt_succ_r. change (Z.succ 999999) with 1000000%Z.
    rewrite Zlt_Qlt. pose proof (Qfloor_le (delay * 1000000)) as H.
    change (inject_Z 1000000) with (1000000 # 1). lra.
Qed.

Lemma Qround_nonneg (x : Q) : 0 <= x -> (0 <= Qround x)%Z.
Proof.
  intro H. unfold Qround. apply Qle_bool_iff in H. rewrite H.
  apply Qle_bool_iff in H.
  change 0%Z with (Qfloor (inject_Z 0)). apply Qfloor_resp_le.
  change (inject_Z 0) with 0. lra.
Qed.

(** A time left below half a second is reported as 0. *)
Lemma Qround_small (x : Q) : 0 <= x -> x < 1 # 2 -> Qround x = 0%Z.
Proof.
  intros H0 H1. pose proof (Qround_nonneg x H0) as Hn.
  unfold Qround in *. apply Qle_bool_iff in H0. rewrite H0 in *.
  assert (Qfloor (x + (1 # 2)) < 1)%Z; [|lia].
  rewrite Zlt_Qlt. pose proof (Qfloor_le (x + (1 # 2))).
  change (inject_Z 1) with 1. lra.
Qed.

(** The attempts to start the capture add retries only. *)
Lemma capture_start_quiet (n : nat) :
  forall (i : nat) (answers : nat -> Z) (result : Z) (c : Camera),
    exists added,
      trace (snd (capture_start n i answers result c)) = trace c ++ added /\
      quiet added.
Proof.
  induction n as [|n IH]; intros i answers result c; cbn [capture_start snd].
  - exists []. rewrite app_nil_r. split; [reflexivity | apply quiet_nil].
  - destruct (answers i =? 0)%Z; cbn [snd].
    + exists [FPROFrame_CaptureStart]. split; [reflexivity|].
      repeat split. constructor.
    + destruct (IH (S i) answers (answers i)
                  (emit (usleep (100 * 1000)) (emit FPROFrame_CaptureStart c)))
        as (added & Ht & Hq).
      exists ([FPROFrame_CaptureStart; usleep (100 * 1000)] ++ added).
      split.
      * rewrite Ht, !trace_emit, <- !app_assoc. reflexivity.
      * apply quiet_app; [|exact Hq]. repeat split.
        constructor; [|constructor]. unfold short_sleep. lia.
Qed.

(** The countdown adds reports and short sleeps only, and its normal exit
    is with 0 left. *)
Lemma countdown_quiet (fuel : nat) :
  forall (k : nat) (duration : Q) (env : Run) (c : Camera)
         (r : option Q) (c' : Camera),
    countdown fuel k duration env c = Some (r, c') ->
    (r = None \/ r = Some 0) /\
    exists added, trace c' = trace c ++ added /\ quiet added.
Proof.
  induction fuel as [|fuel IH]; intros k duration env c r c' H;
    cbn [countdown] in H; [discriminate|].
  destruct (isAboutToQuit env k).
  - injection H as <- <-. split; [now left|].
    exists []. rewrite app_nil_r. split; [reflexivity | apply quiet_nil].
  - set (timeLeft := Qmax (duration - inject_Z (elapsed env k) / 1000) 0) in *.
    assert (H0 : 0 <= timeLeft) by apply Q.le_max_r.
    assert (Hev : quiet [setExposureLeft (inject_Z (Qround timeLeft));
                         usleep (Qtrunc (Qmax (timeLeft - inject_Z (Qtrunc timeLeft))
                                              (5 # 1000) * 1000000))]).
    { apply (quiet_app [_] [_]); [repeat split; constructor|].
      apply quiet_sleep, delay_short, H0. }
    destruct (Qltb 0 (inject_Z (Qround timeLeft))) eqn:E.
    + apply IH in H. destruct H as (Hr & added & Ht & Hq).
      split; [exact Hr|].
      eexists. split; [|exact (quiet_app _ _ Hev Hq)].
      rewrite Ht, !trace_emit, <- !app_assoc. reflexivity.
    + injection H as <- <-. split.
      * right. f_equal. apply Qltb_ge in E.
        change 0 with (inject_Z 0) in E. rewrite <- Zle_Qle in E.
        pose proof (Qround_nonneg timeLeft H0).
        replace (Qround timeLeft) with 0%Z by lia. reflexivity.
      * eexists. split; [|exact Hev].
        rewrite !trace_emit, <- !app_assoc. reflexivity.
Qed.

(** The countdown ends at the first iteration that reads the flag set or
    finds less than half a second left. *)
Lemma countdown_returns (n : nat) :
  forall (fuel k : nat) (duration : Q) (env : Run) (c : Camera),
    (n < fuel)%nat ->
    isAboutToQuit env (k + n)%nat = true \/
    duration - inject_Z (elapsed env (k + n)%nat) / 1000 < 1 # 2 ->
    exists r c', countdown fuel k duration env c = Some (r, c').
Proof.
  induction n as [|n IH]; intros fuel k duration env c Hfuel Hend;
    (destruct fuel as [|fuel]; [lia|]); cbn [countdown].
  - rewrite Nat.add_0_r in Hend.
    destruct (isAboutToQuit env k); [eauto|].
    destruct Hend as [Hq|Hq]; [discriminate|].
    set (timeLeft := Qmax (duration - inject_Z (elapsed env k) / 1000) 0).
    assert (H0 : 0 <= timeLeft) by apply Q.le_max_r.
    assert (H1 : timeLeft < 1 # 2) by (apply Q.max_lub_lt; [exact Hq | reflexivity]).
    rewrite (Qround_small timeLeft H0 H1).
    change (Qltb 0 (inject_Z 0)) with false. cbv iota. eauto.
  - destruct (isAboutToQuit env k); [eauto|].
    match goal with |- context [if ?b then _ else _] => destruct b end; [|eauto].
    apply IH; [lia|]. rewrite Nat.add_succ_comm. exact Hend.
Qed.

(** When no read of the flag up to iteration [k + n] finds it set and
    that iteration finds less than half a second left, the countdown
    exits normally. *)
Lemma countdown_completes (n : nat) :
  forall (fuel k : nat) (duration : Q) (env : Run) (c : Camera),
    (n < fuel)%nat ->
    (forall j, (j <= n)%nat -> isAboutToQuit env (k + j)%nat = false) ->
    duration - inject_Z (elapsed env (k + n)%nat) / 1000 < 1 # 2 ->
    exists c', countdown fuel k duration env c = Some (Some 0, c').
Proof.
  induction n as [|n IH]; intros fuel k duration env c Hfuel Hq Hend;
    (destruct fuel as [|fuel]; [lia|]); cbn [countdown];
    pose proof (Hq 0%nat ltac:(lia)) as Hk; rewrite Nat.add_0_r in Hk; rewrite Hk.
  - rewrite Nat.add_0_r in Hend.
    set (timeLeft := Qmax (duration - inject_Z (elapsed env k) / 1000) 0).
    assert (H0 : 0 <= timeLeft) by apply Q.le_max_r.
    assert (H1 : timeLeft < 1 # 2) by (apply Q.max_lub_lt; [exact Hend | reflexivity]).
    rewrite (Qround_small timeLeft H0 H1).
    change (Qltb 0 (inject_Z 0)) with false. cbv iota. eexists. reflexivity.
  - match goal with |- context [if ?b then _ else _] => destruct b eqn:E end.
    + apply IH; [lia | |].
      * intros j Hj. rewrite Nat.add_succ_comm. apply Hq. lia.
      * rewrite Nat.add_succ_comm. exact Hend.
    + set (timeLeft := Qmax (duration - inject_Z (elapsed env k) / 1000) 0) in *.
      eexists. do 2 f_equal. f_equal.
      apply Qltb_ge in E. change 0 with (inject_Z 0) in E. rewrite <- Zle_Qle in E.
      pose proof (Qround_nonneg timeLeft (Q.le_max_r _ _)).
      replace (Qround timeLeft) with 0%Z by lia.
      reflexivity.
Qed.

Lemma grabs_timeouts (t : list Event) : grabs t = length (grab_timeouts t).
Proof.
  induction t as [|e t IH]; [reflexivity|].
  change (e :: t) with ([e] ++ t).
  rewrite grabs_app, grab_timeouts_app, length_app, IH.
  destruct e; reflexivity.
Qed.

(** What the download step adds after a countdown that ended with 0 left. *)
Lemma download_added (env : Run) (c : Camera) :
  exists added,
    trace (download 0 env c) = trace c ++ added /\
    sleeps added = [] /\ grab_timeouts added = [0%Z] /\
    (completions added + failures added = 1)%nat.
Proof.
  unfold download. change (Qtrunc (0 * 1000)) with 0%Z.
  destruct (0 <=? GetVideoFrameUnpacked env)%Z.
  - destruct (MergePlanesSP
                (emit FPROFrame_CaptureAbort
                   (emit (FPROFrame_GetVideoFrameUnpacked 0) c))) eqn:E;
      eexists; (split; [rewrite !trace_emit, <- !app_assoc; reflexivity|]);
      repeat split.
  - eexists. split; [rewrite !trace_emit, <- !app_assoc; reflexivity|].
    repeat split.
Qed.

(** Every run of the worker that returns. *)
Lemma workerExposure_added (fuel : nat) (env : Run) (duration : Q) (c c' : Camera) :
  workerExposure fuel env duration c = Some c' ->
  exists added,
    trace c' = trace c ++ added /\
    Forall short_sleep (sleeps added) /\
    (grab_timeouts added = [] \/ grab_timeouts added = [0%Z]) /\
    (completions added + failures added = length (grab_timeouts added))%nat.
Proof.
  unfold workerExposure. intro H.
  set (e0 := FPROCtrl_SetExposure (Qtrunc (duration * 1000000000))) in *.
  assert (Q0 : quiet [e0]) by (repeat split; constructor).
  assert (Hfin : forall added, quiet added ->
            Forall short_sleep (sleeps added) /\
            (grab_timeouts added = [] \/ grab_timeouts added = [0%Z]) /\
            (completions added + failures added = length (grab_timeouts added))%nat).
  { intros added (Hs & Hg & Hc & Hf). rewrite Hg, Hc, Hf.
    split; [exact Hs | split; [now left | reflexivity]]. }
  destruct (negb (SetExposure env =? 0)%Z).
  - injection H as <-. exists [e0]. split; [apply trace_emit | apply Hfin, Q0].
  - destruct (capture_start_quiet 3 0 (CaptureStart env) (SetExposure env)
                (setExposureDuration duration (emit e0 c))) as (a1 & Ht1 & Q1).
    destruct (capture_start 3 0 (CaptureStart env) (SetExposure env)
                (setExposureDuration duration (emit e0 c))) as [result c1].
    cbn [snd] in Ht1.
    assert (Ht1' : trace c1 = trace c ++ [e0] ++ a1).
    { rewrite Ht1. destruct c. cbn [setExposureDuration emit with_trace trace].
      rewrite <- app_assoc. reflexivity. }
    pose proof (quiet_app _ _ Q0 Q1) as Q01.
    destruct (negb (result =? 0)%Z).
    + injection H as <-. eexists. split; [exact Ht1' | apply Hfin, Q01].
    + destruct (countdown fuel 0 duration env c1) as [[r c2]|] eqn:E;
        [|discriminate].
      destruct (countdown_quiet fuel 0 duration env c1 r c2 E)
        as (Hr & a2 & Ht2 & Q2).
      pose proof (quiet_app _ _ Q01 Q2) as Q012.
      assert (Ht2' : trace c2 = trace c ++ ([e0] ++ a1) ++ a2).
      { rewrite Ht2, Ht1', <- !app_assoc. reflexivity. }
      destruct Hr as [->| ->].
      * injection H as <-. eexists. split; [exact Ht2' | apply Hfin, Q012].
      * injection H as <-.
        destruct (download_added env c2) as (a3 & Ht3 & Hs3 & Hg3 & Hc3).
        destruct Q012 as (Hs & Hg & Hc & Hf).
        exists ((([e0] ++ a1) ++ a2) ++ a3). split.
        { rewrite Ht3, Ht2', <- !app_assoc. reflexivity. }
        rewrite sleeps_app, grab_timeouts_app, Kepler_completions_app, failures_app.
        rewrite Hs3, Hg3, Hg, Hc, Hf, app_nil_r. cbn [app length].
        split; [exact Hs | split; [now right | lia]].
Qed.

End KeplerRunFacts.

(** X4.  Whenever the worker returns, what it added to the trace holds
    only sleeps of 5000 to 999999 microseconds, at most one request for
    the frame, made with a timeout of 0 ms, and exactly as many signals
    (completion or failure) as requests for the frame. *)
Theorem X4_worker_sleeps_and_grab
  (fuel : nat) (env : Kepler.Run) (duration : Q) (c c' : Kepler.Camera) :
  Kepler.workerExposure fuel env duration c = Some c' ->
  exists added,
    Kepler.trace c' = Kepler.trace c ++ added /\
    Forall KeplerRun.short_sleep (KeplerRun.sleeps added) /\
    (KeplerRun.grab_timeouts added = [] \/ KeplerRun.grab_timeouts added = [0%Z]) /\
    (Kepler.completions added + Kepler.failures added
     = length (KeplerRun.grab_timeouts added))%nat.
Proof.
  apply KeplerRunFacts.workerExposure_added.
Qed.

(** An exposure of 2.5 s whose first attempt to start fails, with the
    timer at 0 s, 1 s, 2 s and 3 s. *)
Lemma X4_worker_sleeps_and_grab_witness :
  exists c',
    Kepler.workerExposure 10
      (Kepler.run 1 (fun k => (Z.of_nat k * 1000)%Z) 9 0 0) (25 # 10)
      (Kepler.bench IPS_OK 5000) = Some c' /\
    exists added,
      Kepler.trace c' = Kepler.trace (Kepler.bench IPS_OK 5000) ++ added /\
      Forall KeplerRun.short_sleep (KeplerRun.sleeps added) /\
      (KeplerRun.grab_timeouts added = [] \/ KeplerRun.grab_timeouts added = [0%Z]) /\
      (Kepler.completions added + Kepler.failures added
       = length (KeplerRun.grab_timeouts added))%nat.
Proof.
  eexists. split; [vm_compute; reflexivity|].
  apply (X4_worker_sleeps_and_grab 10
           (Kepler.run 1 (fun k => (Z.of_nat k * 1000)%Z) 9 0 0) (25 # 10)
           (Kepler.bench IPS_OK 5000)).
  vm_compute. reflexivity.
Defined.

(** X5.  The worker returns as soon as one iteration of the countdown
    reads the quit flag set or finds less than half a second left.  When
    the capture starts, the flag is read clear up to iteration [n] and
    that iteration finds less than half a second left, the run asks for the
    frame exactly once and signals exactly once, completion or failure. *)
Theorem X5_worker_returns
  (fuel n : nat) (env : Kepler.Run) (duration : Q) (c : Kepler.Camera) :
  (n < fuel)%nat ->
  (Kepler.isAboutToQuit env n = true \/
   duration - inject_Z (Kepler.elapsed env n) / 1000 < 1 # 2 ->
   exists c', Kepler.workerExposure fuel env duration c = Some c') /\
  (Kepler.started env ->
   (forall j, (j <= n)%nat -> Kepler.isAboutToQuit env j = false) ->
   duration - inject_Z (Kepler.elapsed env n) / 1000 < 1 # 2 ->
   exists c',
     Kepler.workerExposure fuel env duration c = Some c' /\
     Kepler.grabs (Kepler.trace c') = S (Kepler.grabs (Kepler.trace c)) /\
     (Kepler.completions (Kepler.trace c') + Kepler.failures (Kepler.trace c')
      = S (Kepler.completions (Kepler.trace c) + Kepler.failures (Kepler.trace c)))%nat).
Proof.
  intros Hfuel. split.
  - intro Hend. unfold Kepler.workerExposure.
    destruct (negb (Kepler.SetExposure env =? 0)%Z); [eauto|].
    match goal with
    | |- context [Kepler.capture_start ?a ?b ?f ?r ?x] =>
        destruct (Kepler.capture_start a b f r x) as [result c1]
    end.
    destruct (negb (result =? 0)%Z); [eauto|].
    destruct (KeplerRunFacts.countdown_returns n fuel 0 duration env c1 Hfuel Hend)
      as (r & c2 & E).
    rewrite E. destruct r; eauto.
  - intros (Hset & Hstart) Hq Hend.
    unfold Kepler.workerExposure. rewrite Hset. cbn [Z.eqb negb].
    match goal with
    | |- context [Kepler.capture_start ?a ?b ?f ?r ?x] =>
        pose proof (KeplerFacts.capture_start_succeeds a b f r x Hstart) as Hr;
        destruct (KeplerFacts.capture_start_frame a b f r x) as (Hc1 & Hf1 & Hg1);
        destruct (Kepler.capture_start a b f r x) as [result c1]
    end.
    cbv zeta in Hc1, Hf1, Hg1. cbn [fst snd] in Hr, Hc1, Hf1, Hg1.
    subst result. cbn [Z.eqb negb].
    destruct (KeplerRunFacts.countdown_completes n fuel 0 duration env c1 Hfuel Hq Hend)
      as (c2 & E).
    rewrite E. eexists. split; [reflexivity|].
    destruct (KeplerRunFacts.countdown_quiet fuel 0 duration env c1 _ c2 E)
      as (_ & a2 & Ht2 & _ & Hg2 & Hc2 & Hf2).
    destruct (KeplerRunFacts.download_added env c2) as (a3 & Ht3 & _ & Hg3 & Hs3).
    rewrite Ht3, Ht2, !KeplerFacts.grabs_app, !KeplerFacts.Kepler_completions_app,
      !KeplerFacts.failures_app, (KeplerRunFacts.grabs_timeouts a2),
      (KeplerRunFacts.grabs_timeouts a3), Hg2, Hg3, Hc2, Hf2, Hc1, Hf1, Hg1.
    destruct c. cbn [Kepler.setExposureDuration Kepler.emit Kepler.with_trace
                       Kepler.trace length].
    rewrite KeplerFacts.grabs_app, KeplerFacts.Kepler_completions_app,
      KeplerFacts.failures_app.
    cbn [Kepler.grabs Kepler.completions Kepler.failures filter length].
    split; lia.
Qed.

(** An exposure of 2.5 s with the timer at 0 s, 1 s, 2 s and 3 s and a
    grab that fails: the worker returns after four iterations, with one
    request for the frame and one signal. *)
Lemma X5_worker_returns_witness :
  (exists c',
     Kepler.workerExposure 10
       (Kepler.run 0 (fun k => (Z.of_nat k * 1000)%Z) 99 (-1) 0) (25 # 10)
       (Kepler.bench IPS_OK 5000) = Some c') /\
  (exists c',
     Kepler.workerExposure 10
       (Kepler.run 0 (fun k => (Z.of_nat k * 1000)%Z) 99 (-1) 0) (25 # 10)
       (Kepler.bench IPS_OK 5000) = Some c' /\
     Kepler.grabs (Kepler.trace c') = 1%nat /\
     (Kepler.completions (Kepler.trace c') + Kepler.failures (Kepler.trace c')
      = 1)%nat).
Proof.
  assert (Hfuel : (3 < 10)%nat) by (repeat constructor).
  destruct (X5_worker_returns 10 3
              (Kepler.run 0 (fun k => (Z.of_nat k * 1000)%Z) 99 (-1) 0)
              (25 # 10) (Kepler.bench IPS_OK 5000) Hfuel) as [H1 H2].
  split.
  - apply H1. right. reflexivity.
  - apply H2.
    + split; [reflexivity|]. exists 0%nat. split; [repeat constructor | reflexivity].
    + intros j Hj. cbn [Kepler.run Kepler.isAboutToQuit].
      apply PeanoNat.Nat.leb_gt. apply PeanoNat.Nat.le_lt_trans with (1 := Hj).
      repeat constructor.
    + reflexivity.
Defined.

Module KeplerTimerFacts.
Import Kepler KeplerRun KeplerFacts.

(** One poll in state OK whose read succeeds leaves state, target and
    interval as they are. *)
Lemma readTemperature_ok_stays (hw : Poll) (c : Camera) :
  TemperatureNP_s c = IPS_OK -> (0 <= GetTemperatures hw)%Z ->
  TemperatureNP_s (readTemperature hw c) = IPS_OK /\
  m_TargetTemperature (readTemperature hw c) = m_TargetTemperature c /\
  TemperatureTimer_interval (readTemperature hw c) = TemperatureTimer_interval c.
Proof.
  intros Hs Hrc. unfold readTemperature.
  destruct (readTemperature_dutycycle_frame hw (readTemperature_temperature hw c))
    as (-> & _ & -> & -> & _).
  apply Z.ltb_ge in Hrc. kcase c. subst ts.
  unfold readTemperature_temperature. rewrite Hrc. kred.
  split_ifs; kred; repeat split; reflexivity.
Qed.

(** One poll in state busy whose read succeeds. *)
Lemma readTemperature_busy_step (hw : Poll) (c : Camera) :
  TemperatureNP_s c = IPS_BUSY -> (0 <= GetTemperatures hw)%Z ->
  TemperatureNP_s (readTemperature hw c)
  = (if on_target (m_TargetTemperature c) hw then IPS_OK else IPS_BUSY) /\
  m_TargetTemperature (readTemperature hw c) = m_TargetTemperature c /\
  TemperatureTimer_interval (readTemperature hw c)
  = (if on_target (m_TargetTemperature c) hw then TEMPERATURE_FREQUENCY_IDLE
     else TemperatureTimer_interval c) /\
  TemperatureN_value (readTemperature hw c) = cooler hw /\
  temperature_updates (trace (readTemperature hw c))
  = temperature_updates (trace c)
    ++ [(if on_target (m_TargetTemperature c) hw then IPS_OK else IPS_BUSY,
         cooler hw)].
Proof.
  intros Hs Hrc. unfold readTemperature.
  destruct (readTemperature_dutycycle_frame hw (readTemperature_temperature hw c))
    as (-> & -> & -> & -> & ->).
  apply Z.ltb_ge in Hrc. kcase c. subst ts.
  unfold readTemperature_temperature, on_target. rewrite Hrc. kred.
  split_ifs; kred; updates; repeat split; reflexivity.
Qed.

Lemma temperature_timer_ok (hws : list Poll) :
  forall c : Camera,
    TemperatureNP_s c = IPS_OK ->
    Forall (fun hw => (0 <= GetTemperatures hw)%Z) hws ->
    TemperatureNP_s (temperature_timer hws c) = IPS_OK /\
    m_TargetTemperature (temperature_timer hws c) = m_TargetTemperature c /\
    TemperatureTimer_interval (temperature_timer hws c) = TemperatureTimer_interval c.
Proof.
  induction hws as [|hw hws IH]; intros c Hs Hok; cbn [temperature_timer fold_left].
  - repeat split. exact Hs.
  - inversion Hok as [|? ? Hrc Hok']; subst.
    destruct (readTemperature_ok_stays hw c Hs Hrc) as (Hs' & Ht & Hi).
    destruct (IH (readTemperature hw c) Hs' Hok') as (Hs'' & Ht' & Hi').
    unfold temperature_timer in *. rewrite Hs'', Ht', Hi', Ht, Hi.
    repeat split.
Qed.

Lemma temperature_timer_busy (hws : list Poll) :
  forall c : Camera,
    TemperatureNP_s c = IPS_BUSY ->
    Forall (fun hw => (0 <= GetTemperatures hw)%Z) hws ->
    TemperatureNP_s (temperature_timer hws c)
    = (if existsb (on_target (m_TargetTemperature c)) hws then IPS_OK else IPS_BUSY) /\
    m_TargetTemperature (temperature_timer hws c) = m_TargetTemperature c /\
    TemperatureTimer_interval (temperature_timer hws c)
    = (if existsb (on_target (m_TargetTemperature c)) hws
       then TEMPERATURE_FREQUENCY_IDLE else TemperatureTimer_interval c) /\
    (existsb (on_target (m_TargetTemperature c)) hws = false ->
     temperature_updates (trace (temperature_timer hws c))
     = temperature_updates (trace c) ++ map (fun hw => (IPS_BUSY, cooler hw)) hws).
Proof.
  induction hws as [|hw hws IH]; intros c Hs Hok;
    cbn [temperature_timer fold_left existsb map].
  - rewrite app_nil_r. repeat split. exact Hs.
  - inversion Hok as [|? ? Hrc Hok']; subst.
    destruct (readTemperature_busy_step hw c Hs Hrc) as (Hs' & Ht & Hi & _ & Hu).
    destruct (on_target (m_TargetTemperature c) hw) eqn:E; cbn [orb].
    + destruct (temperature_timer_ok hws (readTemperature hw c) Hs' Hok')
        as (Hs'' & Ht' & Hi').
      unfold temperature_timer in *. rewrite Hs'', Ht', Hi', Ht, Hi.
      split; [|split; [|split]]; try reflexivity. discriminate.
    + destruct (IH (readTemperature hw c) Hs' Hok') as (Hs'' & Ht' & Hi' & Hu').
      unfold temperature_timer in *. rewrite Ht in *. rewrite Hs'', Ht', Hi', Hi.
      split; [|split; [|split]]; try reflexivity.
      intro Hn. rewrite (Hu' Hn), Hu, <- app_assoc. reflexivity.
Qed.

End KeplerTimerFacts.

(** X6.  A Kepler camera that regulates (state busy) and whose reads all
    succeed is, after any number of timeouts of the temperature timer, in
    state OK with the idle interval of 5000 ms if one of the readings was
    within the threshold of the target (their difference, computed in
    [double], at most the double constant 0.1), and otherwise still busy with its
    interval unchanged, every reading having been sent to the client; the
    target itself is never touched. *)
Theorem X6_regulation_run (hws : list Kepler.Poll) (c : Kepler.Camera) :
  Kepler.TemperatureNP_s c = IPS_BUSY ->
  Forall (fun hw => (0 <= Kepler.GetTemperatures hw)%Z) hws ->
  Kepler.m_TargetTemperature (KeplerRun.temperature_timer hws c)
  = Kepler.m_TargetTemperature c /\
  (existsb (KeplerRun.on_target (Kepler.m_TargetTemperature c)) hws = true ->
   Kepler.TemperatureNP_s (KeplerRun.temperature_timer hws c) = IPS_OK /\
   Kepler.TemperatureTimer_interval (KeplerRun.temperature_timer hws c)
   = Kepler.TEMPERATURE_FREQUENCY_IDLE) /\
  (existsb (KeplerRun.on_target (Kepler.m_TargetTemperature c)) hws = false ->
   Kepler.TemperatureNP_s (KeplerRun.temperature_timer hws c) = IPS_BUSY /\
   Kepler.TemperatureTimer_interval (KeplerRun.temperature_timer hws c)
   = Kepler.TemperatureTimer_interval c /\
   Kepler.temperature_updates (Kepler.trace (KeplerRun.temperature_timer hws c))
   = Kepler.temperature_updates (Kepler.trace c)
     ++ map (fun hw => (IPS_BUSY, Kepler.cooler hw)) hws).
Proof.
  intros Hs Hok.
  destruct (KeplerTimerFacts.temperature_timer_busy hws c Hs Hok)
    as (Hs' & Ht & Hi & Hu).
  split; [exact Ht|]. split; intro E; rewrite E in Hs', Hi.
  - split; assumption.
  - split; [exact Hs' | split; [exact Hi | exact (Hu E)]].
Qed.

(** Regulating from 20 degrees toward 0 with the readings 12.5, 4 and the
    doubles 0.05 and 0.3: OK after the third, and still OK after the
    fourth; with the readings 12.5 and 4 alone: still busy, both sent. *)
Lemma X6_regulation_run_witness :
  (Kepler.TemperatureNP_s
     (KeplerRun.temperature_timer
        [Kepler.poll 0 (125 # 10) 0 40; Kepler.poll 0 4 0 40;
         Kepler.poll 0 (double (5 # 100)) 0 40; Kepler.poll 0 (double (3 # 10)) 0 40]
        (Kepler.bench IPS_BUSY 1000)) = IPS_OK /\
   Kepler.TemperatureTimer_interval
     (KeplerRun.temperature_timer
        [Kepler.poll 0 (125 # 10) 0 40; Kepler.poll 0 4 0 40;
         Kepler.poll 0 (double (5 # 100)) 0 40; Kepler.poll 0 (double (3 # 10)) 0 40]
        (Kepler.bench IPS_BUSY 1000)) = 5000%Z) /\
  (Kepler.TemperatureNP_s
     (KeplerRun.temperature_timer
        [Kepler.poll 0 (125 # 10) 0 40; Kepler.poll 0 4 0 40]
        (Kepler.bench IPS_BUSY 1000)) = IPS_BUSY /\
   Kepler.TemperatureTimer_interval
     (KeplerRun.temperature_timer
        [Kepler.poll 0 (125 # 10) 0 40; Kepler.poll 0 4 0 40]
        (Kepler.bench IPS_BUSY 1000)) = 1000%Z /\
   Kepler.temperature_updates
     (Kepler.trace
        (KeplerRun.temperature_timer
           [Kepler.poll 0 (125 # 10) 0 40; Kepler.poll 0 4 0 40]
           (Kepler.bench IPS_BUSY 1000)))
   = [(IPS_BUSY, 125 # 10); (IPS_BUSY, 4)]).
Proof.
  split.
  - refine (proj1 (proj2 (X6_regulation_run
                     [Kepler.poll 0 (125 # 10) 0 40; Kepler.poll 0 4 0 40;
                      Kepler.poll 0 (double (5 # 100)) 0 40; Kepler.poll 0 (double (3 # 10)) 0 40]
                     (Kepler.bench IPS_BUSY 1000) eq_refl _)) eq_refl).
    repeat constructor; discriminate.
  - refine (proj2 (proj2 (X6_regulation_run
                     [Kepler.poll 0 (125 # 10) 0 40; Kepler.poll 0 4 0 40]
                     (Kepler.bench IPS_BUSY 1000) eq_refl _)) eq_refl).
    repeat constructor; discriminate.
Defined.

Module FishCampFrameFacts.
Import FishCampFrame.

Lemma wrap_small (bits z : Z) :
  (0 < bits)%Z -> (- 2 ^ (bits - 1) <= z < 2 ^ (bits - 1))%Z -> wrap bits z = z.
Proof.
  intros Hb Hz. unfold wrap.
  replace (2 ^ bits)%Z with (2 * 2 ^ (bits - 1))%Z.
  - rewrite Z.mod_small; lia.
  - rewrite <- Z.pow_succ_r by lia. f_equal. lia.
Qed.

Lemma int_small (z : Z) : is_int z -> int z = z.
Proof. intro H. apply wrap_small; [lia | exact H]. Qed.

Lemma long_small (z : Z) : (- 2 ^ 63 <= z < 2 ^ 63)%Z -> long z = z.
Proof. intro H. apply wrap_small; [lia | exact H]. Qed.

Lemma rois_app (l l' : list Event) : rois (l ++ l') = rois l ++ rois l'.
Proof. apply flat_map_app. Qed.

(** The test of [UpdateCCDFrame] on a sane chip and an [int] request
    that is not negative. *)
Lemma UpdateCCDFrame_test (x y w h : Z) (c : Chip) :
  sane c -> is_int x -> is_int y -> is_int w -> is_int h ->
  (0 <= x)%Z -> (0 <= y)%Z -> (0 <= w)%Z -> (0 <= h)%Z ->
  long (x + int (Z.quot w (BinX c))) = (x + w)%Z /\
  long (y + int (Z.quot h (BinY c))) = (y + h)%Z /\
  int (Z.quot (XRes c) (BinX c)) = XRes c /\
  int (Z.quot (YRes c) (BinY c)) = YRes c.
Proof.
  unfold sane, is_int.
  intros (HX & HY & -> & -> & HB & Hfit) Hx Hy Hw Hh Hx0 Hy0 Hw0 Hh0.
  rewrite !Z.quot_1_r.
  assert (XRes c < 2 ^ 31 /\ YRes c < 2 ^ 31)%Z as (HX' & HY') by (split; nia).
  rewrite !int_small by (unfold is_int; lia).
  rewrite !long_small by lia.
  repeat split.
Qed.

End FishCampFrameFacts.

(** X7.  On a sensor without binning whose whole frame fits an [int]
    buffer, a request for a frame that is not negative is accepted exactly
    when its far corner lies on the sensor.  A rejected request sends no
    ROI command and leaves frame and buffer size as they were.  An
    accepted one sends the one ROI command (x, y, x+w-1, y+h-1), stores
    the frame and sets the buffer to (x+w)(y+h)BPP/8 + 512 bytes, which
    is enough for the w*h pixels and at most what [initProperties] sets
    for the whole sensor. *)
Theorem X7_FishCamp_frame_buffer (x y w h : Z) (c : FishCampFrame.Chip) :
  FishCampFrame.sane c ->
  FishCampFrame.is_int x -> FishCampFrame.is_int y ->
  FishCampFrame.is_int w -> FishCampFrame.is_int h ->
  (0 <= x)%Z -> (0 <= y)%Z -> (0 <= w)%Z -> (0 <= h)%Z ->
  (fst (FishCampFrame.UpdateCCDFrame x y w h c) = true <->
   (x + w <= FishCampFrame.XRes c /\ y + h <= FishCampFrame.YRes c)%Z) /\
  (fst (FishCampFrame.UpdateCCDFrame x y w h c) = false ->
   let c' := snd (FishCampFrame.UpdateCCDFrame x y w h c) in
   FishCampFrame.rois (FishCampFrame.trace c')
   = FishCampFrame.rois (FishCampFrame.trace c) /\
   (FishCampFrame.SubX c', FishCampFrame.SubY c',
    FishCampFrame.SubW c', FishCampFrame.SubH c')
   = (FishCampFrame.SubX c, FishCampFrame.SubY c,
      FishCampFrame.SubW c, FishCampFrame.SubH c) /\
   FishCampFrame.FrameBufferSize c' = FishCampFrame.FrameBufferSize c) /\
  (fst (FishCampFrame.UpdateCCDFrame x y w h c) = true ->
   let c' := snd (FishCampFrame.UpdateCCDFrame x y w h c) in
   FishCampFrame.rois (FishCampFrame.trace c')
   = FishCampFrame.rois (FishCampFrame.trace c)
     ++ [(x, y, x + w - 1, y + h - 1)%Z] /\
   (FishCampFrame.SubX c', FishCampFrame.SubY c',
    FishCampFrame.SubW c', FishCampFrame.SubH c') = (x, y, w, h) /\
   FishCampFrame.FrameBufferSize c'
   = (Z.quot ((x + w) * (y + h) * FishCampFrame.BPP c) 8 + 512)%Z /\
   (Z.quot (w * h * FishCampFrame.BPP c) 8 + 512
    <= FishCampFrame.FrameBufferSize c'
    <= FishCampFrame.FrameBufferSize (FishCampFrame.initProperties_buffer c))%Z).
Proof.
  intros Hsane Hx Hy Hw Hh Hx0 Hy0 Hw0 Hh0.
  destruct (FishCampFrameFacts.UpdateCCDFrame_test x y w h c Hsane Hx Hy Hw Hh
              Hx0 Hy0 Hw0 Hh0) as (Ebw & Ebh & EX & EY).
  destruct Hsane as (HX & HY & HbX & HbY & HB & Hfit).
  unfold FishCampFrame.UpdateCCDFrame. cbv zeta. rewrite Ebw, Ebh, EX, EY.
  destruct (FishCampFrame.XRes c <? x + w)%Z eqn:E1;
    [|destruct (FishCampFrame.YRes c <? y + h)%Z eqn:E2]; cbn [fst snd].
  - apply Z.ltb_lt in E1. split; [|split].
    + split; [discriminate | lia].
    + intros _. destruct c; cbn. rewrite FishCampFrameFacts.rois_app, app_nil_r.
      repeat split.
    + discriminate.
  - apply Z.ltb_lt in E2. split; [|split].
    + split; [discriminate | lia].
    + intros _. destruct c; cbn. rewrite FishCampFrameFacts.rois_app, app_nil_r.
      repeat split.
    + discriminate.
  - apply Z.ltb_ge in E1, E2. split; [|split].
    + split; [lia | reflexivity].
    + discriminate.
    + intros _.
      assert (FishCampFrame.XRes c < 2 ^ 31 /\ FishCampFrame.YRes c < 2 ^ 31)%Z
        as (HX' & HY') by (split; nia).
      assert (Hcorner : (0 <= (x + w) * (y + h) * FishCampFrame.BPP c
                         <= FishCampFrame.XRes c * FishCampFrame.YRes c
                            * FishCampFrame.BPP c)%Z).
      { split; [apply Z.mul_nonneg_nonneg; [apply Z.mul_nonneg_nonneg|]; lia|].
        apply Z.mul_le_mono_nonneg_r; [lia|].
        apply Z.mul_le_mono_nonneg; lia. }
      assert (Harea : (0 <= w * h * FishCampFrame.BPP c
                       <= (x + w) * (y + h) * FishCampFrame.BPP c)%Z).
      { split; [apply Z.mul_nonneg_nonneg; [apply Z.mul_nonneg_nonneg|]; lia|].
        apply Z.mul_le_mono_nonneg_r; [lia|].
        apply Z.mul_le_mono_nonneg; lia. }
      assert (Hxy : (0 <= (x + w) * (y + h)
                     <= FishCampFrame.XRes c * FishCampFrame.YRes c)%Z).
      { split; [apply Z.mul_nonneg_nonneg; lia|].
        apply Z.mul_le_mono_nonneg; lia. }
      assert (Hfull : (FishCampFrame.XRes c * FishCampFrame.YRes c
                       <= FishCampFrame.XRes c * FishCampFrame.YRes c
                          * FishCampFrame.BPP c)%Z) by nia.
      assert (Hq : forall z, (0 <= z < 2 ^ 31 - 4096)%Z ->
                             (0 <= Z.quot z 8 <= z)%Z).
      { intros z Hz. split; [apply Z.quot_pos; lia|].
        apply Z.quot_le_upper_bound; lia. }
      pose proof (Hq ((x + w) * (y + h) * FishCampFrame.BPP c)%Z ltac:(lia)) as Hq1.
      pose proof (Hq (FishCampFrame.XRes c * FishCampFrame.YRes c
                      * FishCampFrame.BPP c)%Z ltac:(lia)) as Hq2.
      assert (Hbuf : FishCampFrame.int
                (FishCampFrame.int
                   (Z.quot (FishCampFrame.long
                              (FishCampFrame.long ((x + w) * (y + h))
                               * FishCampFrame.BPP c)) 8) + 512)
              = (Z.quot ((x + w) * (y + h) * FishCampFrame.BPP c) 8 + 512)%Z).
      { rewrite (FishCampFrameFacts.long_small ((x + w) * (y + h))) by lia.
        rewrite FishCampFrameFacts.long_small by lia.
        rewrite (FishCampFrameFacts.int_small (Z.quot _ 8))
          by (unfold FishCampFrame.is_int; lia).
        apply FishCampFrameFacts.int_small. unfold FishCampFrame.is_int. lia. }
      assert (Hinit : FishCampFrame.FrameBufferSize
                        (FishCampFrame.initProperties_buffer c)
                      = (Z.quot (FishCampFrame.XRes c * FishCampFrame.YRes c
                                 * FishCampFrame.BPP c) 8 + 512)%Z).
      { unfold FishCampFrame.initProperties_buffer. cbv zeta.
        cbn [FishCampFrame.setFrameBufferSize FishCampFrame.FrameBufferSize].
        rewrite (FishCampFrameFacts.int_small
                   (FishCampFrame.XRes c * FishCampFrame.YRes c))
          by (unfold FishCampFrame.is_int; lia).
        rewrite (FishCampFrameFacts.int_small
                   (FishCampFrame.XRes c * FishCampFrame.YRes c * FishCampFrame.BPP c))
          by (unfold FishCampFrame.is_int; lia).
        rewrite (FishCampFrameFacts.int_small (Z.quot _ 8))
          by (unfold FishCampFrame.is_int; lia).
        apply FishCampFrameFacts.int_small. unfold FishCampFrame.is_int. lia. }
      rewrite Hinit.
      cbn [FishCampFrame.setFrameBufferSize FishCampFrame.setFrame FishCampFrame.emit
           FishCampFrame.FrameBufferSize FishCampFrame.trace FishCampFrame.SubX
           FishCampFrame.SubY FishCampFrame.SubW FishCampFrame.SubH
           FishCampFrame.BPP].
      rewrite Hbuf, FishCampFrameFacts.rois_app.
      rewrite (FishCampFrameFacts.long_small (x + w)),
        (FishCampFrameFacts.long_small (y + h)),
        (FishCampFrameFacts.long_small (x + w - 1)),
        (FishCampFrameFacts.long_small (y + h - 1)) by lia.
      split; [reflexivity | split; [reflexivity | split; [reflexivity|]]].
      split; apply Z.add_le_mono_r; apply Z.quot_le_mono; lia.
Qed.

(** A frame of 640 x 480 at (100, 200) on a sensor of 1280 x 1024 is
    accepted, with a buffer for 740 x 680 pixels; the same frame at
    (1000, 0) is rejected. *)
Lemma X7_FishCamp_frame_buffer_witness :
  (FishCampFrame.rois
     (FishCampFrame.trace
        (snd (FishCampFrame.UpdateCCDFrame 100 200 640 480 FishCampFrame.starfish)))
   = [(100, 200, 739, 679)%Z] /\
   FishCampFrame.FrameBufferSize
     (snd (FishCampFrame.UpdateCCDFrame 100 200 640 480 FishCampFrame.starfish))
   = 1006912%Z) /\
  (FishCampFrame.rois
     (FishCampFrame.trace
        (snd (FishCampFrame.UpdateCCDFrame 1000 0 640 480 FishCampFrame.starfish)))
   = [] /\
   FishCampFrame.FrameBufferSize
     (snd (FishCampFrame.UpdateCCDFrame 1000 0 640 480 FishCampFrame.starfish))
   = 0%Z).
Proof.
  assert (Hsane : FishCampFrame.sane FishCampFrame.starfish).
  { unfold FishCampFrame.sane. cbn. repeat split; lia. }
  assert (Hint : forall z, (0 <= z <= 1280)%Z -> FishCampFrame.is_int z).
  { intros z Hz. unfold FishCampFrame.is_int. lia. }
  split.
  - destruct (X7_FishCamp_frame_buffer 100 200 640 480 FishCampFrame.starfish Hsane)
      as (_ & _ & Hyes); try apply Hint; try lia.
    destruct (Hyes eq_refl) as (Hr & _ & Hb & _). split; [exact Hr | exact Hb].
  - destruct (X7_FishCamp_frame_buffer 1000 0 640 480 FishCampFrame.starfish Hsane)
      as (_ & Hno & _); try apply Hint; try lia.
    destruct (Hno eq_refl) as (Hr & _ & Hb). split; [exact Hr | exact Hb].
Defined.

Module KeplerFrameFacts.
Import KeplerFrame.

Lemma areas_app (l l' : list Event) : areas (l ++ l') = areas l ++ areas l'.
Proof. apply flat_map_app. Qed.

(** What [UpdateCCDFrame] does, by the answer to the image area. *)
Lemma UpdateCCDFrame_cases (sdk : Sdk) (x y w h : Z) (c : Chip) :
  areas (trace (snd (UpdateCCDFrame sdk x y w h c)))
  = areas (trace c) ++ [(x, y, w, h)] /\
  (BinX (snd (UpdateCCDFrame sdk x y w h c)),
   BinY (snd (UpdateCCDFrame sdk x y w h c))) = (BinX c, BinY c) /\
  ((SetImageArea sdk < 0)%Z ->
   fst (UpdateCCDFrame sdk x y w h c) = false /\
   frame (snd (UpdateCCDFrame sdk x y w h c)) = frame c /\
   m_TotalFrameBufferSize (snd (UpdateCCDFrame sdk x y w h c))
   = m_TotalFrameBufferSize c /\
   m_FrameBuffer (snd (UpdateCCDFrame sdk x y w h c)) = m_FrameBuffer c) /\
  ((0 <= SetImageArea sdk)%Z ->
   fst (UpdateCCDFrame sdk x y w h c) = true /\
   frame (snd (UpdateCCDFrame sdk x y w h c)) = (x, y, w, h) /\
   m_TotalFrameBufferSize (snd (UpdateCCDFrame sdk x y w h c))
   = uint32 (ComputeFrameSize sdk) /\
   m_FrameBuffer (snd (UpdateCCDFrame sdk x y w h c))
   = uint32 (ComputeFrameSize sdk)).
Proof.
  destruct c as [bx by_ sx sy sw sh total buf tr]. unfold UpdateCCDFrame.
  destruct (0 <=? SetImageArea sdk)%Z eqn:E;
    cbn [emit setFrame setBuffer frame BinX BinY SubX SubY SubW SubH
         m_TotalFrameBufferSize m_FrameBuffer trace fst snd];
    rewrite ?areas_app; cbn [areas flat_map app]; rewrite ?app_nil_r;
    (split; [reflexivity | split; [reflexivity | split]]); intro H;
    try (apply Z.leb_le in E; lia); try (apply Z.leb_gt in E; lia);
    repeat split.
Qed.

End KeplerFrameFacts.

(** X8.  [UpdateCCDFrame] of Kepler always sends the image area asked
    for.  It returns true exactly when the camera accepts the area; then
    the frame is stored and both the buffer size and the size of the
    buffer allocated are what the camera computes for the frame.  When
    the camera rejects the area, the frame, the buffer size and the buffer
    stay as they were. *)
Theorem X8_Kepler_frame_update
  (sdk : KeplerFrame.Sdk) (x y w h : Z) (c : KeplerFrame.Chip) :
  KeplerFrame.areas (KeplerFrame.trace (snd (KeplerFrame.UpdateCCDFrame sdk x y w h c)))
  = KeplerFrame.areas (KeplerFrame.trace c) ++ [(x, y, w, h)] /\
  (fst (KeplerFrame.UpdateCCDFrame sdk x y w h c) = true
   <-> (0 <= KeplerFrame.SetImageArea sdk)%Z) /\
  (fst (KeplerFrame.UpdateCCDFrame sdk x y w h c) = false ->
   KeplerFrame.frame (snd (KeplerFrame.UpdateCCDFrame sdk x y w h c))
   = KeplerFrame.frame c /\
   KeplerFrame.m_TotalFrameBufferSize (snd (KeplerFrame.UpdateCCDFrame sdk x y w h c))
   = KeplerFrame.m_TotalFrameBufferSize c /\
   KeplerFrame.m_FrameBuffer (snd (KeplerFrame.UpdateCCDFrame sdk x y w h c))
   = KeplerFrame.m_FrameBuffer c /\
   (KeplerFrame.buffer_ok c ->
    KeplerFrame.buffer_ok (snd (KeplerFrame.UpdateCCDFrame sdk x y w h c)))) /\
  (fst (KeplerFrame.UpdateCCDFrame sdk x y w h c) = true ->
   KeplerFrame.frame (snd (KeplerFrame.UpdateCCDFrame sdk x y w h c)) = (x, y, w, h) /\
   KeplerFrame.m_TotalFrameBufferSize (snd (KeplerFrame.UpdateCCDFrame sdk x y w h c))
   = KeplerFrame.uint32 (KeplerFrame.ComputeFrameSize sdk) /\
   KeplerFrame.buffer_ok (snd (KeplerFrame.UpdateCCDFrame sdk x y w h c))).
Proof.
  destruct (KeplerFrameFacts.UpdateCCDFrame_cases sdk x y w h c)
    as (Ha & _ & Hno & Hyes).
  split; [exact Ha|].
  destruct (Z.lt_ge_cases (KeplerFrame.SetImageArea sdk) 0) as [Hrc|Hrc].
  - destruct (Hno Hrc) as (Hr & Hf & Ht & Hb). rewrite Hr.
    split; [split; [discriminate | lia]|].
    split; [|discriminate]. intros _.
    split; [exact Hf|]. split; [exact Ht|]. split; [exact Hb|].
    unfold KeplerFrame.buffer_ok. congruence.
  - destruct (Hyes Hrc) as (Hr & Hf & Ht & Hb). rewrite Hr.
    split; [split; [intros _; exact Hrc | reflexivity]|].
    split; [discriminate|]. intros _. split; [exact Hf | split; [exact Ht|]].
    unfold KeplerFrame.buffer_ok. congruence.
Qed.

(** A frame of 1024 x 1024 at (512, 512): rejected with -1 it leaves the
    chip at its whole frame and with the buffer it had; accepted, with a
    frame size of 2101248 bytes, it is stored with that buffer. *)
Lemma X8_Kepler_frame_update_witness :
  (KeplerFrame.frame
     (snd (KeplerFrame.UpdateCCDFrame
             {| KeplerFrame.SetBinning := 0; KeplerFrame.SetImageArea := -1;
                KeplerFrame.ComputeFrameSize := 2101248 |}
             512 512 1024 1024 KeplerFrame.chip)) = (0, 0, 4096, 4096)%Z /\
   KeplerFrame.m_FrameBuffer
     (snd (KeplerFrame.UpdateCCDFrame
             {| KeplerFrame.SetBinning := 0; KeplerFrame.SetImageArea := -1;
                KeplerFrame.ComputeFrameSize := 2101248 |}
             512 512 1024 1024 KeplerFrame.chip))
   = KeplerFrame.m_FrameBuffer KeplerFrame.chip) /\
  (KeplerFrame.frame
     (snd (KeplerFrame.UpdateCCDFrame
             {| KeplerFrame.SetBinning := 0; KeplerFrame.SetImageArea := 0;
                KeplerFrame.ComputeFrameSize := 2101248 |}
             512 512 1024 1024 KeplerFrame.chip)) = (512, 512, 1024, 1024)%Z /\
   KeplerFrame.m_TotalFrameBufferSize
     (snd (KeplerFrame.UpdateCCDFrame
             {| KeplerFrame.SetBinning := 0; KeplerFrame.SetImageArea := 0;
                KeplerFrame.ComputeFrameSize := 2101248 |}
             512 512 1024 1024 KeplerFrame.chip)) = 2101248%Z).
Proof.
  split.
  - destruct (proj1 (proj2 (proj2 (X8_Kepler_frame_update
             {| KeplerFrame.SetBinning := 0; KeplerFrame.SetImageArea := -1;
                KeplerFrame.ComputeFrameSize := 2101248 |}
             512 512 1024 1024 KeplerFrame.chip))) eq_refl) as (Hf & _ & Hb & _).
    split; [exact Hf | exact Hb].
  - destruct (proj2 (proj2 (proj2 (X8_Kepler_frame_update
             {| KeplerFrame.SetBinning := 0; KeplerFrame.SetImageArea := 0;
                KeplerFrame.ComputeFrameSize := 2101248 |}
             512 512 1024 1024 KeplerFrame.chip))) eq_refl) as (Hf & Ht & _).
    split; [exact Hf | exact Ht].
Defined.

(** X9.  [UpdateCCDBin] of Kepler never changes the frame stored.  When
    the camera rejects the binning, nothing else changes either and no
    image area is sent.  When the camera accepts it, the binning is stored
    and the stored frame is sent again as image area, and the call
    returns what that update returns: a rejected image area leaves the new
    binning in place with the old buffer. *)
Theorem X9_Kepler_binning_update
  (sdk : KeplerFrame.Sdk) (binx biny : Z) (c : KeplerFrame.Chip) :
  KeplerFrame.frame (snd (KeplerFrame.UpdateCCDBin sdk binx biny c))
  = KeplerFrame.frame c /\
  (fst (KeplerFrame.UpdateCCDBin sdk binx biny c) = true
   <-> (0 <= KeplerFrame.SetBinning sdk /\ 0 <= KeplerFrame.SetImageArea sdk)%Z) /\
  ((KeplerFrame.SetBinning sdk < 0)%Z ->
   (KeplerFrame.BinX (snd (KeplerFrame.UpdateCCDBin sdk binx biny c)),
    KeplerFrame.BinY (snd (KeplerFrame.UpdateCCDBin sdk binx biny c)))
   = (KeplerFrame.BinX c, KeplerFrame.BinY c) /\
   KeplerFrame.areas (KeplerFrame.trace (snd (KeplerFrame.UpdateCCDBin sdk binx biny c)))
   = KeplerFrame.areas (KeplerFrame.trace c) /\
   KeplerFrame.m_TotalFrameBufferSize (snd (KeplerFrame.UpdateCCDBin sdk binx biny c))
   = KeplerFrame.m_TotalFrameBufferSize c) /\
  ((0 <= KeplerFrame.SetBinning sdk)%Z ->
   (KeplerFrame.BinX (snd (KeplerFrame.UpdateCCDBin sdk binx biny c)),
    KeplerFrame.BinY (snd (KeplerFrame.UpdateCCDBin sdk binx biny c)))
   = (binx, biny) /\
   KeplerFrame.areas (KeplerFrame.trace (snd (KeplerFrame.UpdateCCDBin sdk binx biny c)))
   = KeplerFrame.areas (KeplerFrame.trace c) ++ [KeplerFrame.frame c] /\
   ((KeplerFrame.SetImageArea sdk < 0)%Z ->
    KeplerFrame.m_TotalFrameBufferSize (snd (KeplerFrame.UpdateCCDBin sdk binx biny c))
    = KeplerFrame.m_TotalFrameBufferSize c)) /\
  (KeplerFrame.buffer_ok c ->
   KeplerFrame.buffer_ok (snd (KeplerFrame.UpdateCCDBin sdk binx biny c))).
Proof.
  unfold KeplerFrame.UpdateCCDBin. cbv zeta.
  destruct (0 <=? KeplerFrame.SetBinning sdk)%Z eqn:E.
  - apply Z.leb_le in E.
    set (c1 := KeplerFrame.setBin binx biny
                 (KeplerFrame.emit (KeplerFrame.FPROSensor_SetBinning binx biny) c)).
    assert (Hc1 : KeplerFrame.frame c1 = KeplerFrame.frame c
                  /\ KeplerFrame.areas (KeplerFrame.trace c1)
                     = KeplerFrame.areas (KeplerFrame.trace c)
                  /\ KeplerFrame.BinX c1 = binx /\ KeplerFrame.BinY c1 = biny
                  /\ KeplerFrame.m_TotalFrameBufferSize c1
                     = KeplerFrame.m_TotalFrameBufferSize c
                  /\ KeplerFrame.m_FrameBuffer c1 = KeplerFrame.m_FrameBuffer c).
    { subst c1. destruct c. cbn. rewrite KeplerFrameFacts.areas_app, app_nil_r.
      repeat split. }
    destruct Hc1 as (Hf1 & Ha1 & Hbx & Hby & Ht1 & Hb1).
    destruct (KeplerFrameFacts.UpdateCCDFrame_cases sdk
                (KeplerFrame.SubX c1) (KeplerFrame.SubY c1)
                (KeplerFrame.SubW c1) (KeplerFrame.SubH c1) c1)
      as (Ha & Hbin & Hno & Hyes).
    fold (KeplerFrame.frame c1) in Ha. rewrite Hf1, Ha1 in Ha.
    rewrite Hbx, Hby in Hbin.
    destruct (Z.lt_ge_cases (KeplerFrame.SetImageArea sdk) 0) as [Hrc|Hrc].
    + destruct (Hno Hrc) as (Hr & Hf & Ht & Hb). rewrite Hr, Hf, Ht.
      split; [exact Hf1|]. split; [split; [discriminate | lia]|].
      split; [lia|]. split; [intros _; split; [exact Hbin | split; [exact Ha|]]|].
      * intros _. exact Ht1.
      * unfold KeplerFrame.buffer_ok. congruence.
    + destruct (Hyes Hrc) as (Hr & Hf & Ht & Hb). rewrite Hr, Hf.
      split; [exact Hf1|]. split; [split; [lia | reflexivity]|].
      split; [lia|]. split; [intros _; split; [exact Hbin | split; [exact Ha|]]|].
      * lia.
      * unfold KeplerFrame.buffer_ok. congruence.
  - apply Z.leb_gt in E. cbn [fst snd].
    destruct c; cbn. rewrite KeplerFrameFacts.areas_app, app_nil_r.
    split; [reflexivity|]. split; [split; [discriminate | lia]|].
    split; [intros _; repeat split|]. split; [lia|]. intro H; exact H.
Qed.

(** Binning 2 x 2 on the whole frame: rejected with -1 nothing is sent;
    accepted, the whole frame is sent again. *)
Lemma X9_Kepler_binning_update_witness :
  (KeplerFrame.areas
     (KeplerFrame.trace
        (snd (KeplerFrame.UpdateCCDBin
                {| KeplerFrame.SetBinning := -1; KeplerFrame.SetImageArea := 0;
                   KeplerFrame.ComputeFrameSize := 8388608 |}
                2 2 KeplerFrame.chip))) = []) /\
  (KeplerFrame.areas
     (KeplerFrame.trace
        (snd (KeplerFrame.UpdateCCDBin
                {| KeplerFrame.SetBinning := 0; KeplerFrame.SetImageArea := 0;
                   KeplerFrame.ComputeFrameSize := 8388608 |}
                2 2 KeplerFrame.chip))) = [(0, 0, 4096, 4096)%Z]) /\
  KeplerFrame.buffer_ok
    (snd (KeplerFrame.UpdateCCDBin
            {| KeplerFrame.SetBinning := 0; KeplerFrame.SetImageArea := 0;
               KeplerFrame.ComputeFrameSize := 8388608 |}
            2 2 KeplerFrame.chip)).
Proof.
  split; [|split].
  - refine (proj1 (proj2 (proj1 (proj2 (proj2 (X9_Kepler_binning_update
              {| KeplerFrame.SetBinning := -1; KeplerFrame.SetImageArea := 0;
                 KeplerFrame.ComputeFrameSize := 8388608 |}
              2 2 KeplerFrame.chip))) _))).
    reflexivity.
  - refine (proj1 (proj2 (proj1 (proj2 (proj2 (proj2 (X9_Kepler_binning_update
              {| KeplerFrame.SetBinning := 0; KeplerFrame.SetImageArea := 0;
                 KeplerFrame.ComputeFrameSize := 8388608 |}
              2 2 KeplerFrame.chip)))) _))).
    discriminate.
  - refine (proj2 (proj2 (proj2 (proj2 (X9_Kepler_binning_update
              {| KeplerFrame.SetBinning := 0; KeplerFrame.SetImageArea := 0;
                 KeplerFrame.ComputeFrameSize := 8388608 |}
              2 2 KeplerFrame.chip)))) _).
    reflexivity.
Defined.

Module KeplerGPSFacts.
Import KeplerGPS.

Lemma FPROGPSSTATE_eqb_eq (a b : FPROGPSSTATE) :
  FPROGPSSTATE_eqb a b = true <-> a = b.
Proof. destruct a, b; split; intro H; try reflexivity; discriminate. Qed.

Lemma FPROGPSSTATE_eqb_refl (a : FPROGPSSTATE) : FPROGPSSTATE_eqb a a = true.
Proof. destruct a; reflexivity. Qed.

(** One read keeps the lights on the state last stored; they are lit
    from the first change of state on. *)
Lemma readGPS_shows (lit : bool) (result : Z) (state : FPROGPSSTATE) (g : Gps) :
  shows lit g ->
  shows (lit || ((0 <=? result)%Z
                 && negb (FPROGPSSTATE_eqb state (m_LastGPSState g))))
        (readGPS result state g) /\
  m_LastGPSState (readGPS result state g)
  = (if (0 <=? result)%Z then state else m_LastGPSState g).
Proof.
  intro H. unfold readGPS. destruct (0 <=? result)%Z; cbn [andb].
  - destruct (FPROGPSSTATE_eqb state (m_LastGPSState g)) eqn:E; cbn [negb].
    + rewrite orb_false_r. split; [exact H|].
      apply FPROGPSSTATE_eqb_eq in E. symmetry. exact E.
    + rewrite orb_true_r. split; [|reflexivity].
      intro i. cbn. destruct (FPROGPSSTATE_eqb i state); reflexivity.
  - rewrite orb_false_r. split; [|reflexivity]. intro i. cbn. apply H.
Qed.

Lemma gps_timer_shows (reads : list (Z * FPROGPSSTATE)) :
  forall (g : Gps) (lit : bool),
    shows lit g ->
    (lit = false -> m_LastGPSState g = FPRO_GPS_NOT_DETECTED) ->
    shows (lit || detected reads) (gps_timer reads g) /\
    m_LastGPSState (gps_timer reads g) = last_read (m_LastGPSState g) reads.
Proof.
  induction reads as [|[result state] reads IH]; intros g lit Hs Hl;
    cbn [gps_timer last_read detected fold_left existsb fst snd].
  - rewrite orb_false_r. split; [exact Hs | reflexivity].
  - destruct (readGPS_shows lit result state g Hs) as (Hs' & Hlast).
    destruct (IH _ _ Hs') as (Hs'' & Hlast').
    + intro E. apply orb_false_iff in E. destruct E as (-> & E).
      rewrite Hlast, (Hl eq_refl).
      destruct (0 <=? result)%Z; [|reflexivity].
      cbn [andb] in E. apply negb_false_iff, FPROGPSSTATE_eqb_eq in E.
      rewrite E. apply Hl. reflexivity.
    + unfold gps_timer, last_read, detected in *.
      rewrite Hlast in Hlast'. split; [|exact Hlast'].
      destruct lit; cbn [orb] in *; [exact Hs''|].
      rewrite (Hl eq_refl) in Hs''. exact Hs''.
Qed.

(** Reads that succeed with the state last stored change nothing. *)
Lemma gps_timer_unchanged (reads : list (Z * FPROGPSSTATE)) :
  forall g : Gps,
    Forall (fun r => (0 <= fst r)%Z /\ snd r = m_LastGPSState g) reads ->
    gps_timer reads g = g.
Proof.
  induction reads as [|[result state] reads IH]; intros g H;
    cbn [gps_timer fold_left fst snd]; [reflexivity|].
  inversion H as [|? ? (Hrc & Hst) H']; subst. cbn [fst snd] in Hrc, Hst.
  assert (E : readGPS result state g = g).
  { unfold readGPS. apply Z.leb_le in Hrc.
    rewrite Hrc, Hst, FPROGPSSTATE_eqb_refl. reflexivity. }
  rewrite E. apply IH. exact H'.
Qed.

End KeplerGPSFacts.

(** X10.  After any run of the GPS timer from the state the constructor
    leaves, the state stored is that of the last read that succeeded, and
    a light is OK exactly when it is the light of that state and some read
    has succeeded with a state other than "not detected": the light "not
    detected" is never OK before another state was seen.  A failed read sets
    the property to alert, and reads that then succeed with the state
    last stored send nothing and leave the alert standing. *)
Theorem X10_GPS_lights
  (reads quiet : list (Z * KeplerGPS.FPROGPSSTATE)) (result : Z)
  (state i : KeplerGPS.FPROGPSSTATE) :
  let g := KeplerGPS.gps_timer reads KeplerGPS.initial in
  KeplerGPS.m_LastGPSState g
  = KeplerGPS.last_read KeplerGPS.FPRO_GPS_NOT_DETECTED reads /\
  KeplerGPS.GPSStateLP g i
  = (if KeplerGPS.detected reads
        && KeplerGPS.FPROGPSSTATE_eqb i (KeplerGPS.m_LastGPSState g)
     then IPS_OK else IPS_IDLE) /\
  ((result < 0)%Z ->
   Forall (fun r => (0 <= fst r)%Z /\ snd r = KeplerGPS.m_LastGPSState g) quiet ->
   let g' := KeplerGPS.gps_timer ((result, state) :: quiet) g in
   KeplerGPS.GPSStateLP_s g' = IPS_ALERT /\
   KeplerGPS.m_LastGPSState g' = KeplerGPS.m_LastGPSState g /\
   length (KeplerGPS.trace g') = S (length (KeplerGPS.trace g))).
Proof.
  intro g.
  destruct (KeplerGPSFacts.gps_timer_shows reads KeplerGPS.initial false)
    as (Hs & Hl).
  { intro j. reflexivity. }
  { reflexivity. }
  split; [exact Hl|]. split; [apply Hs|].
  intros Hrc Hq g'. subst g'. cbn [KeplerGPS.gps_timer fold_left fst snd].
  fold (KeplerGPS.gps_timer quiet (KeplerGPS.readGPS result state g)).
  assert (E : KeplerGPS.readGPS result state g
              = KeplerGPS.apply (KeplerGPS.setState IPS_ALERT g)).
  { unfold KeplerGPS.readGPS. apply Z.leb_gt in Hrc. rewrite Hrc. reflexivity. }
  rewrite E, KeplerGPSFacts.gps_timer_unchanged by exact Hq.
  cbn. rewrite length_app. cbn. repeat split. apply Nat.add_1_r.
Qed.

(** The GPS found without lock, then locked; then a read fails and two
    reads report the lock again. *)
Lemma X10_GPS_lights_witness :
  KeplerGPS.GPSStateLP_s
    (KeplerGPS.gps_timer
       [(-1, KeplerGPS.FPRO_GPS_NOT_DETECTED);
        (0, KeplerGPS.FPRO_GPS_DETECTED_AND_SAT_LOCK);
        (0, KeplerGPS.FPRO_GPS_DETECTED_AND_SAT_LOCK)]%Z
       (KeplerGPS.gps_timer
          [(0, KeplerGPS.FPRO_GPS_DETECTED_NO_SAT_LOCK);
           (0, KeplerGPS.FPRO_GPS_DETECTED_AND_SAT_LOCK)]%Z
          KeplerGPS.initial)) = IPS_ALERT.
Proof.
  refine (proj1 (proj2 (proj2 (X10_GPS_lights
            [(0, KeplerGPS.FPRO_GPS_DETECTED_NO_SAT_LOCK);
             (0, KeplerGPS.FPRO_GPS_DETECTED_AND_SAT_LOCK)]%Z
            [(0, KeplerGPS.FPRO_GPS_DETECTED_AND_SAT_LOCK);
             (0, KeplerGPS.FPRO_GPS_DETECTED_AND_SAT_LOCK)]%Z
            (-1) KeplerGPS.FPRO_GPS_NOT_DETECTED
            KeplerGPS.FPRO_GPS_NOT_DETECTED)) _ _)).
  - reflexivity.
  - repeat constructor; discriminate.
Defined.

Module FishCampThermalFacts.
Import FishCamp FishCampRun FishCampFacts FishCampRunFacts.

Lemma same_thermal_refl (c : Camera) : same_thermal c c.
Proof. repeat split. Qed.

Lemma same_thermal_trans (a b c : Camera) :
  same_thermal a b -> same_thermal b c -> same_thermal a c.
Proof.
  unfold same_thermal. intros H1 H2.
  decompose [and] H1. decompose [and] H2. repeat split; congruence.
Qed.

Lemma emit_thermal (e : Event) (c : Camera) :
  silent e = true -> same_thermal c (emit e c).
Proof.
  intro H. fcase c. unfold same_thermal. fred. updates.
  destruct e; try discriminate; cbn; rewrite ?app_nil_r; repeat split.
Qed.

Lemma SetTimer_thermal (ms : Z) (c : Camera) : same_thermal c (snd (SetTimer ms c)).
Proof.
  fcase c. unfold same_thermal, SetTimer. fred. updates. repeat split.
Qed.

Lemma set_InExposure_thermal (b : bool) (c : Camera) :
  same_thermal c (set_InExposure b c).
Proof. fcase c. unfold same_thermal. fred. repeat split. Qed.

Lemma spin_thermal (fuel : nat) :
  forall (ready : bool) (k : nat) (answers : nat -> Z) (slv : Z) (c c' : Camera),
    spin fuel ready k answers slv c = Some c' -> same_thermal c c'.
Proof.
  induction fuel as [|fuel IH]; intros ready k answers slv c c' H;
    cbn [spin] in H; [discriminate|].
  destruct (negb (sim c) && negb ready).
  - destruct (answers k =? 0)%Z; apply IH in H.
    + eapply same_thermal_trans; [|exact H]. apply emit_thermal. reflexivity.
    + eapply same_thermal_trans; [|exact H].
      eapply same_thermal_trans; apply emit_thermal; reflexivity.
  - injection H as <-. apply same_thermal_refl.
Qed.

Lemma grabImage_thermal (numBytes : Z) (c : Camera) :
  same_thermal c (snd (grabImage numBytes c)).
Proof.
  unfold grabImage. destruct (negb (numBytes =? 0)%Z); cbn [snd];
    (eapply same_thermal_trans; apply emit_thermal; reflexivity).
Qed.

(** The exposure block reports nothing and leaves the thermal members. *)
Lemma TimerHit_exposure_thermal (fuel : nat) (hw : Tick) (c c1 : Camera) (id : Z) :
  TimerHit_exposure fuel hw c = Some (id, c1) -> same_thermal c c1.
Proof.
  unfold TimerHit_exposure. intro H.
  destruct (InExposure c).
  - destruct (Qltb (CalcTimeLeft (now hw) c) 1).
    + destruct (Qltb (1 # 4) (CalcTimeLeft (now hw) c)).
      * injection H as _ <-. apply SetTimer_thermal.
      * destruct (Qltb (double (7 # 100)) (CalcTimeLeft (now hw) c)).
        -- injection H as _ <-. apply SetTimer_thermal.
        -- destruct (spin fuel false 0 (getState hw) _ c) as [c2|] eqn:E;
             [|discriminate].
           injection H as _ <-. apply spin_thermal in E.
           eapply same_thermal_trans; [exact E|].
           eapply same_thermal_trans; [|apply grabImage_thermal].
           eapply same_thermal_trans; [|apply set_InExposure_thermal].
           apply emit_thermal. reflexivity.
    + injection H as _ <-. apply emit_thermal. reflexivity.
  - injection H as _ <-. apply same_thermal_refl.
Qed.

(** What the temperature block reports in the states busy and alert. *)
Lemma TimerHit_temperature_reports (hw : Tick) (c : Camera) :
  sim (TimerHit_temperature hw c) = sim c /\
  TemperatureRequest (TimerHit_temperature hw c) = TemperatureRequest c /\
  TemperatureNP_s (TimerHit_temperature hw c) = TemperatureNP_s c /\
  CoolerNP_s (TimerHit_temperature hw c) = CoolerNP_s c /\
  cooler_updates (trace (TimerHit_temperature hw c)) = cooler_updates (trace c) /\
  (TemperatureNP_s c = IPS_BUSY ->
   temperature_updates (trace (TimerHit_temperature hw c))
   = temperature_updates (trace c) ++ [busy_report c hw]) /\
  (TemperatureNP_s c = IPS_ALERT ->
   temperature_updates (trace (TimerHit_temperature hw c))
   = temperature_updates (trace c)).
Proof.
  fcase c. unfold TimerHit_temperature, busy_report. fred.
  destruct ts; fred;
    repeat match goal with
           | |- context [if ?b then _ else _] => destruct b
           end; fred; updates;
    (split; [reflexivity|]); (split; [reflexivity|]); (split; [reflexivity|]);
    (split; [reflexivity|]); (split; [reflexivity|]);
    split; intro H; try discriminate; reflexivity.
Qed.

(** What the cooler block reports. *)
Lemma TimerHit_cooler_reports (hw : Tick) (c : Camera) :
  sim (TimerHit_cooler hw c) = sim c /\
  TemperatureRequest (TimerHit_cooler hw c) = TemperatureRequest c /\
  TemperatureNP_s (TimerHit_cooler hw c) = TemperatureNP_s c /\
  CoolerNP_s (TimerHit_cooler hw c) = CoolerNP_s c /\
  temperature_updates (trace (TimerHit_cooler hw c)) = temperature_updates (trace c) /\
  cooler_updates (trace (TimerHit_cooler hw c))
  = cooler_updates (trace c)
    ++ (if IPState_eqb (CoolerNP_s c) IPS_OK then [getTECPowerLevel hw] else []).
Proof.
  fcase c. unfold TimerHit_cooler. fred.
  destruct cs; fred; updates; repeat split; reflexivity.
Qed.

(** One poll of a connected camera. *)
Lemma TimerHit_thermal (fuel : nat) (hw : Tick) (c c' : Camera) :
  isConnected c = true ->
  TimerHit fuel hw c = Some c' ->
  sim c' = sim c /\
  TemperatureRequest c' = TemperatureRequest c /\
  TemperatureNP_s c' = TemperatureNP_s c /\
  CoolerNP_s c' = CoolerNP_s c /\
  cooler_updates (trace c')
  = cooler_updates (trace c)
    ++ (if IPState_eqb (CoolerNP_s c) IPS_OK then [getTECPowerLevel hw] else []) /\
  (TemperatureNP_s c = IPS_BUSY ->
   temperature_updates (trace c')
   = temperature_updates (trace c) ++ [busy_report c hw]) /\
  (TemperatureNP_s c = IPS_ALERT ->
   temperature_updates (trace c') = temperature_updates (trace c)).
Proof.
  intros Hco H. unfold TimerHit in H. rewrite Hco in H. cbn [negb] in H.
  destruct (TimerHit_exposure fuel hw c) as [[id c1]|] eqn:E; [|discriminate].
  apply TimerHit_exposure_thermal in E.
  destruct E as (Hsim & Hreq & Hts & Htv & Hcs & Hcv & Htu & Hcu).
  destruct (TimerHit_temperature_reports hw c1)
    as (Hsim2 & Hreq2 & Hts2 & Hcs2 & Hcu2 & Hbusy2 & Halert2).
  destruct (TimerHit_cooler_reports hw (TimerHit_temperature hw c1))
    as (Hsim3 & Hreq3 & Hts3 & Hcs3 & Htu3 & Hcu3).
  set (c3 := TimerHit_cooler hw (TimerHit_temperature hw c1)) in *.
  assert (Hlast : same_thermal c3 c').
  { destruct (id =? -1)%Z; injection H as <-;
      [apply SetTimer_thermal | apply same_thermal_refl]. }
  destruct Hlast as (Hsim4 & Hreq4 & Hts4 & Htv4 & Hcs4 & Hcv4 & Htu4 & Hcu4).
  assert (Hrep : busy_report c1 hw = busy_report c hw)
    by (unfold busy_report; rewrite Hsim, Hreq; reflexivity).
  split; [congruence|]. split; [congruence|]. split; [congruence|].
  split; [congruence|]. split.
  - rewrite Hcu4, Hcu3, Hcs2, Hcu2, Hcs, Hcu. reflexivity.
  - split; intro Hs; rewrite Htu4, Htu3.
    + rewrite Hbusy2 by congruence. rewrite Htu, Hrep. reflexivity.
    + rewrite Halert2 by congruence. exact Htu.
Qed.

(** A chain of polls of a connected camera. *)
Lemma polls_thermal (fuel : nat) (hws : list Tick) :
  forall c c' : Camera,
    isConnected c = true ->
    polls fuel hws c = Some c' ->
    sim c' = sim c /\
    TemperatureRequest c' = TemperatureRequest c /\
    TemperatureNP_s c' = TemperatureNP_s c /\
    CoolerNP_s c' = CoolerNP_s c /\
    cooler_updates (trace c')
    = cooler_updates (trace c)
      ++ (if IPState_eqb (CoolerNP_s c) IPS_OK then map getTECPowerLevel hws else []) /\
    (TemperatureNP_s c = IPS_BUSY ->
     temperature_updates (trace c')
     = temperature_updates (trace c) ++ map (busy_report c) hws) /\
    (TemperatureNP_s c = IPS_ALERT ->
     temperature_updates (trace c') = temperature_updates (trace c)).
Proof.
  induction hws as [|hw hws IH]; intros c c' Hco H; cbn [polls map] in *.
  - injection H as <-. rewrite !app_nil_r.
    destruct (IPState_eqb (CoolerNP_s c) IPS_OK); rewrite ?app_nil_r;
      repeat split; reflexivity.
  - destruct (TimerHit fuel hw c) as [c1|] eqn:E; [|discriminate].
    destruct (TimerHit_thermal fuel hw c c1 Hco E)
      as (Hsim & Hreq & Hts & Hcs & Hcu & Hbusy & Halert).
    assert (Hco1 : isConnected c1 = true).
    { unfold TimerHit in E. rewrite Hco in E. cbn [negb] in E.
      destruct (TimerHit_exposure fuel hw c) as [[id c2]|] eqn:E2; [|discriminate].
      apply TimerHit_exposure_same_run in E2. destruct E2 as (Hc2 & _).
      pose proof (thermal_frame hw c2) as (Hc3 & _).
      cbv zeta in E.
      destruct (id =? -1)%Z; injection E as <-;
        cbn [isConnected with_trace]; congruence. }
    destruct (IH c1 c' Hco1 H) as (Hsim' & Hreq' & Hts' & Hcs' & Hcu' & Hbusy' & Halert').
    assert (Hrep : map (busy_report c1) hws = map (busy_report c) hws).
    { apply map_ext. intro a. unfold busy_report. rewrite Hsim, Hreq. reflexivity. }
    split; [congruence|]. split; [congruence|]. split; [congruence|].
    split; [congruence|]. split.
    + rewrite Hcu', Hcu, Hcs.
      destruct (IPState_eqb (CoolerNP_s c) IPS_OK);
        rewrite <- ?app_assoc; reflexivity.
    + split; intro Hs.
      * rewrite Hbusy' by congruence. rewrite Hbusy by exact Hs.
        rewrite Hrep, <- app_assoc. reflexivity.
      * rewrite Halert' by congruence. apply Halert. exact Hs.
Qed.

End FishCampThermalFacts.

(** X16.  Over any chain of polls of a connected FishCamp camera that
    returns, the states of the temperature and cooler properties and the
    target never change.  While the cooler property is OK every poll
    reports the power level it read, and otherwise none does; while the
    temperature property is busy every poll reports the reading (in
    simulation the target), and in alert none reports. *)
Theorem X16_FishCamp_thermal_run
  (fuel : nat) (hws : list FishCamp.Tick) (c c' : FishCamp.Camera) :
  FishCamp.isConnected c = true ->
  FishCampRun.polls fuel hws c = Some c' ->
  FishCamp.TemperatureRequest c' = FishCamp.TemperatureRequest c /\
  FishCamp.TemperatureNP_s c' = FishCamp.TemperatureNP_s c /\
  FishCamp.CoolerNP_s c' = FishCamp.CoolerNP_s c /\
  FishCamp.cooler_updates (FishCamp.trace c')
  = FishCamp.cooler_updates (FishCamp.trace c)
    ++ (if IPState_eqb (FishCamp.CoolerNP_s c) IPS_OK
        then map FishCamp.getTECPowerLevel hws else []) /\
  (FishCamp.TemperatureNP_s c = IPS_BUSY ->
   FishCamp.temperature_updates (FishCamp.trace c')
   = FishCamp.temperature_updates (FishCamp.trace c)
     ++ map (FishCampRun.busy_report c) hws) /\
  (FishCamp.TemperatureNP_s c = IPS_ALERT ->
   FishCamp.temperature_updates (FishCamp.trace c')
   = FishCamp.temperature_updates (FishCamp.trace c)).
Proof.
  intros Hco H.
  destruct (FishCampThermalFacts.polls_thermal fuel hws c c' Hco H)
    as (_ & Hreq & Hts & Hcs & Hcu & Hbusy & Halert).
  split; [exact Hreq|]. split; [exact Hts|]. split; [exact Hcs|].
  split; [exact Hcu|]. split; [exact Hbusy | exact Halert].
Qed.

(** The bench camera regulating toward 20 degrees, polled at 100.5 s and
    at 101.5 s with the readings 24.00 and 22.50: both are reported. *)
Lemma X16_FishCamp_thermal_run_witness :
  exists c',
    FishCampRun.polls 10
      [FishCamp.poll_at 100 500000 0 1 2400 40;
       FishCamp.poll_at 101 500000 0 1 2250 40] FishCamp.regulating = Some c' /\
    FishCamp.TemperatureNP_s c' = IPS_BUSY /\
    FishCamp.temperature_updates (FishCamp.trace c')
    = [double (2400 # 100); double (2250 # 100)].
Proof.
  eexists. split; [vm_compute; reflexivity|].
  match goal with
  | |- FishCamp.TemperatureNP_s ?c' = _ /\ _ =>
      destruct (X16_FishCamp_thermal_run 10
                  [FishCamp.poll_at 100 500000 0 1 2400 40;
                   FishCamp.poll_at 101 500000 0 1 2250 40]
                  FishCamp.regulating c' eq_refl)
        as (_ & Hts & _ & _ & Hbusy & _)
  end.
  - vm_compute. reflexivity.
  - split; [exact Hts | exact (Hbusy eq_refl)].
Defined.

Module KeplerMergeFacts.
Import Kepler KeplerMerge KeplerFacts.

Lemma delivered_app (l l' : list Event) :
  delivered (l ++ l') = delivered l ++ delivered l'.
Proof. apply flat_map_app. Qed.

End KeplerMergeFacts.

(** X15.  The download step hands over at most one plane, the one whose
    switch is on, and only after a grab that succeeded; the image of that
    plane is among those [prepareUnpacked] asks for.  [prepareUnpacked]
    asks for low and high images with either single plane and for all
    three with "both", always for the metadata, and for the same
    statistics as images; the flags [ISNewSwitch] sets are those
    [prepareUnpacked] computes for the switch it stored. *)
Theorem X15_planes_requested_and_delivered
  (timeLeft : Q) (env : Kepler.Run) (c : Kepler.Camera) (on : option Kepler.HWMERGE) :
  KeplerMerge.delivered (Kepler.trace (Kepler.download timeLeft env c))
  = KeplerMerge.delivered (Kepler.trace c)
    ++ (if (0 <=? Kepler.GetVideoFrameUnpacked env)%Z
        then match Kepler.MergePlanesSP c with Some plane => [plane] | None => [] end
        else []) /\
  (forall plane, Kepler.MergePlanesSP c = Some plane ->
                 KeplerMerge.image_requested (KeplerMerge.prepareUnpacked c) plane = true) /\
  (forall plane,
     KeplerMerge.image_requested (KeplerMerge.prepareUnpacked c) plane
     = match Kepler.MergePlanesSP c with
       | Some Kepler.HWMERGE_FRAME_BOTH => true
       | Some Kepler.HWMERGE_FRAME_LOWONLY =>
           match plane with Kepler.HWMERGE_FRAME_LOWONLY => true | _ => false end
       | Some Kepler.HWMERGE_FRAME_HIGHONLY =>
           match plane with Kepler.HWMERGE_FRAME_HIGHONLY => true | _ => false end
       | None => false
       end) /\
  KeplerMerge.bMetaDataRequest (KeplerMerge.prepareUnpacked c) = true /\
  (KeplerMerge.bLowRequest (KeplerMerge.prepareUnpacked c),
   KeplerMerge.bHighRequest (KeplerMerge.prepareUnpacked c),
   KeplerMerge.bMergedRequest (KeplerMerge.prepareUnpacked c))
  = (KeplerMerge.bLowImageRequest (KeplerMerge.prepareUnpacked c),
     KeplerMerge.bHighImageRequest (KeplerMerge.prepareUnpacked c),
     KeplerMerge.bMergedImageRequest (KeplerMerge.prepareUnpacked c)) /\
  snd (KeplerMerge.ISNewSwitch_MergePlanes on c)
  = KeplerMerge.prepareUnpacked (snd (fst (KeplerMerge.ISNewSwitch_MergePlanes on c))).
Proof.
  split; [|split; [|split; [|split; [|split]]]].
  - unfold Kepler.download.
    destruct (0 <=? Kepler.GetVideoFrameUnpacked env)%Z.
    + destruct c as [ts tv tg ti cs cv ed [plane|] tr];
        cbn [Kepler.emit Kepler.with_trace Kepler.trace Kepler.MergePlanesSP
             Kepler.ExposureDuration];
        rewrite <- ?app_assoc, KeplerMergeFacts.delivered_app; reflexivity.
    + rewrite KeplerFacts.trace_emit, KeplerMergeFacts.delivered_app, KeplerFacts.trace_emit,
        KeplerMergeFacts.delivered_app. cbn. rewrite !app_nil_r. reflexivity.
  - intros plane H. unfold KeplerMerge.prepareUnpacked. rewrite H.
    destruct plane; reflexivity.
  - intro plane. unfold KeplerMerge.prepareUnpacked.
    destruct (Kepler.MergePlanesSP c) as [[| |]|], plane; reflexivity.
  - reflexivity.
  - reflexivity.
  - reflexivity.
Qed.

(** With the switch "both" on, the merged image is asked for and, after
    a grab that gave 0, handed over. *)
Lemma X15_planes_requested_and_delivered_witness :
  KeplerMerge.image_requested
    (KeplerMerge.prepareUnpacked (Kepler.bench IPS_OK 5000))
    Kepler.HWMERGE_FRAME_BOTH = true /\
  KeplerMerge.delivered
    (Kepler.trace
       (Kepler.download 0 (Kepler.run 0 (fun _ => 0%Z) 9 0 0)
          (Kepler.bench IPS_OK 5000)))
  = [Kepler.HWMERGE_FRAME_BOTH].
Proof.
  destruct (X15_planes_requested_and_delivered 0
              (Kepler.run 0 (fun _ => 0%Z) 9 0 0) (Kepler.bench IPS_OK 5000) None)
    as (Hd & Hreq & _).
  split; [apply Hreq; reflexivity | exact Hd].
Defined.

(** X17.  The alert of the duty cycle property is raised by a failed
    read only when the property is not in alert yet, and then nothing
    else happens in the poll.  A poll that finds the property in alert
    does not look at the result of the read: it compares the local value
    (0 unless the read stored one) with the last one reported and, when
    they differ by at least 1, reports it and leaves the alert. *)
Theorem X17_duty_cycle_alert
  (hw : Kepler.Poll) (c : Kepler.Camera) :
  ((Kepler.GetCoolerDutyCycle hw < 0)%Z ->
   Kepler.CoolerDutyNP_s c <> IPS_ALERT ->
   let c' := Kepler.readTemperature_dutycycle hw c in
   Kepler.CoolerDutyNP_s c' = IPS_ALERT /\
   Kepler.CoolerDutyNP_value c' = Kepler.CoolerDutyNP_value c /\
   Kepler.cooler_updates (Kepler.trace c')
   = Kepler.cooler_updates (Kepler.trace c)
     ++ [(IPS_ALERT, Kepler.CoolerDutyNP_value c)]) /\
  (Kepler.CoolerDutyNP_s c = IPS_ALERT ->
   let c' := Kepler.readTemperature_dutycycle hw c in
   (1 <= Qabs (inject_Z (Kepler.dutycycle hw) - Kepler.CoolerDutyNP_value c) ->
    Kepler.CoolerDutyNP_s c'
    = (if (0 <? Kepler.dutycycle hw)%Z then IPS_BUSY else IPS_IDLE) /\
    Kepler.CoolerDutyNP_value c' = inject_Z (Kepler.dutycycle hw) /\
    Kepler.cooler_updates (Kepler.trace c')
    = Kepler.cooler_updates (Kepler.trace c)
      ++ [(if (0 <? Kepler.dutycycle hw)%Z then IPS_BUSY else IPS_IDLE,
           inject_Z (Kepler.dutycycle hw))]) /\
   (Qabs (inject_Z (Kepler.dutycycle hw) - Kepler.CoolerDutyNP_value c) < 1 ->
    Kepler.CoolerDutyNP_s c' = IPS_ALERT /\
    Kepler.CoolerDutyNP_value c' = Kepler.CoolerDutyNP_value c /\
    Kepler.cooler_updates (Kepler.trace c')
    = Kepler.cooler_updates (Kepler.trace c))).
Proof.
  split.
  - intros Hrc Hs c'. subst c'. apply Z.ltb_lt in Hrc.
    destruct c as [ts tv tg ti cs cv ed mp tr].
    cbn [Kepler.CoolerDutyNP_s Kepler.CoolerDutyNP_value Kepler.trace] in *.
    unfold Kepler.readTemperature_dutycycle. rewrite Hrc.
    cbn [Kepler.emit Kepler.with_trace Kepler.with_cooler Kepler.CoolerDutyNP_s
         Kepler.CoolerDutyNP_value Kepler.trace Kepler.ExposureDuration andb].
    destruct cs; try congruence;
      cbn [IPState_eqb negb Kepler.emit Kepler.with_trace Kepler.with_cooler
           Kepler.CoolerDutyNP_s Kepler.CoolerDutyNP_value Kepler.trace
           Kepler.ExposureDuration];
      rewrite !KeplerFacts.Kepler_cooler_updates_app; cbn; rewrite app_nil_r;
      repeat split.
  - intros Hs c'. subst c'.
    destruct c as [ts tv tg ti cs cv ed mp tr].
    cbn [Kepler.CoolerDutyNP_s Kepler.CoolerDutyNP_value Kepler.trace] in *.
    subst cs. unfold Kepler.readTemperature_dutycycle.
    cbn [Kepler.emit Kepler.with_trace Kepler.with_cooler Kepler.CoolerDutyNP_s
         Kepler.CoolerDutyNP_value Kepler.trace Kepler.ExposureDuration
         IPState_eqb negb].
    rewrite andb_false_r.
    split; intro H; [apply Qle_bool_iff in H | apply Qle_bool_gt in H];
      rewrite H;
      cbn [Kepler.emit Kepler.with_trace Kepler.with_cooler Kepler.CoolerDutyNP_s
           Kepler.CoolerDutyNP_value Kepler.trace Kepler.ExposureDuration];
      rewrite ?KeplerFacts.Kepler_cooler_updates_app; cbn; rewrite ?app_nil_r;
      repeat split.
Qed.

(** Two failed reads in a row from 40 per cent: the first raises the
    alert, the second reports 0 per cent and idle. *)
Lemma X17_duty_cycle_alert_witness :
  Kepler.cooler_updates
    (Kepler.trace
       (Kepler.readTemperature_dutycycle (Kepler.poll 0 20 (-1) 0)
          (Kepler.readTemperature_dutycycle (Kepler.poll 0 20 (-1) 0)
             (Kepler.bench IPS_OK 5000))))
  = [(IPS_ALERT, 40); (IPS_IDLE, 0)].
Proof.
  pose proof (X17_duty_cycle_alert (Kepler.poll 0 20 (-1) 0) (Kepler.bench IPS_OK 5000))
    as (H1 & _).
  destruct H1 as (Hs & Hv & Hu); [reflexivity | discriminate |].
  pose proof (X17_duty_cycle_alert (Kepler.poll 0 20 (-1) 0)
                (Kepler.readTemperature_dutycycle (Kepler.poll 0 20 (-1) 0)
                   (Kepler.bench IPS_OK 5000))) as (_ & H2).
  destruct (H2 Hs) as (H3 & _).
  destruct H3 as (_ & _ & Hu'); [discriminate|].
  rewrite Hu'. reflexivity.
Defined.

Module KeplerLegacyFacts.
Import KeplerLegacy.

Lemma med_cmpf_le (a b : Q) : (med_cmpf a b <= 0)%Z <-> a <= b.
Proof.
  unfold med_cmpf. cbv zeta.
  destruct (Qltb (a - b) 0) eqn:E1.
  - apply Qltb_lt in E1. split; [intros _; lra | intros _; lia].
  - apply Qltb_ge in E1. destruct (Qltb 0 (a - b)) eqn:E2.
    + apply Qltb_lt in E2. split; [lia | intro; lra].
    + apply Qltb_ge in E2. split; [intros _; lra | intros _; lia].
Qed.

Lemma filter_length_perm (f : Q -> bool) (l l' : list Q) :
  Permutation l l' -> length (filter f l) = length (filter f l').
Proof.
  induction 1 as [|x l l' _ IH|x y l|l l' l'' _ IH1 _ IH2]; cbn [filter].
  - reflexivity.
  - destruct (f x); cbn [length]; rewrite IH; reflexivity.
  - destruct (f x), (f y); reflexivity.
  - congruence.
Qed.

Lemma filter_length_all (f : Q -> bool) (l : list Q) :
  Forall (fun v => f v = true) l -> length (filter f l) = length l.
Proof.
  induction 1 as [|x l Hx _ IH]; cbn [filter length]; [reflexivity|].
  rewrite Hx. cbn [length]. rewrite IH. reflexivity.
Qed.

(** In a sorted list every element before a position is at most the
    element there, and every element after it at least. *)
Lemma sorted_split (l1 l2 : list Q) (m : Q) :
  StronglySorted (fun a b => (med_cmpf a b <= 0)%Z) (l1 ++ m :: l2) ->
  Forall (fun v => Qle_bool v m = true) l1 /\
  Forall (fun v => Qle_bool m v = true) l2.
Proof.
  induction l1 as [|a l1 IH]; cbn [app]; intro H;
    apply StronglySorted_inv in H; destruct H as (Hs & Hall).
  - split; [constructor|].
    eapply Forall_impl; [|exact Hall]. intros v Hv.
    apply Qle_bool_iff, med_cmpf_le, Hv.
  - destruct (IH Hs) as (H1 & H2). split; [|exact H2].
    constructor; [|exact H1].
    rewrite Forall_forall in Hall.
    apply Qle_bool_iff, med_cmpf_le, Hall, in_elt.
Qed.

(** The element in the middle of a sorted permutation. *)
Lemma median_rank (l sorted : list Q) :
  Permutation l sorted ->
  StronglySorted (fun a b => (med_cmpf a b <= 0)%Z) sorted ->
  (0 < length l)%nat ->
  In (nth (length l / 2) sorted 0) l /\
  (length l / 2 + 1 <= at_most (nth (length l / 2) sorted 0%Q) l)%nat /\
  (length l - length l / 2 <= at_least (nth (length l / 2) sorted 0%Q) l)%nat.
Proof.
  intros Hp Hs Hn.
  pose proof (Permutation_length Hp) as Hlen.
  assert (Hk : (length l / 2 < length sorted)%nat).
  { rewrite <- Hlen. apply Nat.div_lt; lia. }
  destruct (nth_split sorted 0 Hk) as (l1 & l2 & Hsplit & Hl1).
  set (m := nth (length l / 2) sorted 0) in *.
  split; [|split].
  - apply (Permutation_in _ (Permutation_sym Hp)). apply nth_In. exact Hk.
  - unfold at_most. rewrite (filter_length_perm _ _ _ Hp), Hsplit.
    rewrite Hsplit in Hs. destruct (sorted_split l1 l2 m Hs) as (H1 & _).
    rewrite filter_app, length_app, (filter_length_all _ l1 H1). cbn [filter].
    assert (Hm : Qle_bool m m = true) by (apply Qle_bool_iff; lra).
    rewrite Hm. cbn [length]. lia.
  - unfold at_least. rewrite (filter_length_perm _ _ _ Hp), Hsplit.
    assert (Hl2 : (length l2 = length l - length l / 2 - 1)%nat).
    { rewrite Hlen, Hsplit at 1. rewrite length_app. cbn [length]. lia. }
    rewrite Hsplit in Hs. destruct (sorted_split l1 l2 m Hs) as (_ & H2).
    rewrite filter_app, length_app. cbn [filter].
    assert (Hm : Qle_bool m m = true) by (apply Qle_bool_iff; lra).
    rewrite Hm. cbn [length].
    match goal with
    | |- context [length (filter ?f l2)] => rewrite (filter_length_all f l2 H2)
    end.
    lia.
Qed.

(** The arrays after an exposure start and the samples [ps]. *)
Lemma snoop_vels (ps : list Pointing) :
  forall s : Legacy,
    xvels (snoop ps s) = xvels s ++ map XVEL_TP ps /\
    yvels (snoop ps s) = yvels s ++ map YVEL_TP ps.
Proof.
  induction ps as [|p ps IH]; intro s; cbn [snoop fold_left map].
  - rewrite !app_nil_r. split; reflexivity.
  - destruct (IH (checkMaxFE p (addMedianVels p s))) as (Hx & Hy).
    unfold snoop in *. rewrite Hx, Hy.
    unfold checkMaxFE, addMedianVels. cbv zeta.
    repeat match goal with |- context [if ?b then _ else _] => destruct b end;
      cbn [xvels yvels]; rewrite <- !app_assoc; split; reflexivity.
Qed.

Lemma insert_sorted_perm (x : Q) (l : list Q) : Permutation (x :: l) (insert_sorted x l).
Proof.
  induction l as [|y l IH]; cbn [insert_sorted]; [reflexivity|].
  destruct (med_cmpf x y <=? 0)%Z; [reflexivity|].
  rewrite perm_swap. apply perm_skip. exact IH.
Qed.

Lemma insert_sorted_sorted (x : Q) (l : list Q) :
  StronglySorted (fun a b => (med_cmpf a b <= 0)%Z) l ->
  StronglySorted (fun a b => (med_cmpf a b <= 0)%Z) (insert_sorted x l).
Proof.
  induction 1 as [|y l Hs IH Hall]; cbn [insert_sorted].
  - constructor; constructor.
  - destruct (med_cmpf x y <=? 0)%Z eqn:E.
    + apply Z.leb_le in E. constructor; [constructor; assumption|].
      constructor; [exact E|].
      eapply Forall_impl; [|exact Hall]. intros v Hv.
      apply med_cmpf_le. apply med_cmpf_le in E, Hv. lra.
    + apply Z.leb_gt in E. constructor; [exact IH|].
      apply (Permutation_Forall (insert_sorted_perm x l)).
      constructor; [|exact Hall].
      apply med_cmpf_le.
      assert (~ x <= y) by (intro Hxy; apply med_cmpf_le in Hxy; lia). lra.
Qed.

Lemma insertion_sort_sorts : sorts insertion_sort.
Proof.
  intro l. induction l as [|x l (Hp & Hs)]; cbn [insertion_sort].
  - split; constructor.
  - split.
    + rewrite <- insert_sorted_perm. apply perm_skip. exact Hp.
    + apply insert_sorted_sorted. exact Hs.
Qed.

(** The larger absolute value is kept; ties keep the older error. *)
Lemma checkMaxFE_x (p : Pointing) (s : Legacy) :
  maxxfe (checkMaxFE p s)
  = (if Qltb (Qabs (maxxfe s)) (Qabs (XFE_TP p)) then XFE_TP p else maxxfe s) /\
  maxyfe (checkMaxFE p s)
  = (if Qltb (Qabs (maxyfe s)) (Qabs (YFE_TP p)) then YFE_TP p else maxyfe s).
Proof.
  unfold checkMaxFE. cbv zeta.
  destruct (Qltb (Qabs (maxxfe s)) (Qabs (XFE_TP p)));
    cbn [maxxfe maxyfe];
    destruct (Qltb (Qabs (maxyfe s)) (Qabs (YFE_TP p)));
    split; reflexivity.
Qed.

Lemma snoop_maxxfe (ps : list Pointing) :
  forall s : Legacy,
    Qabs (maxxfe s) <= Qabs (maxxfe (snoop ps s)) /\
    Forall (fun p => Qabs (XFE_TP p) <= Qabs (maxxfe (snoop ps s))) ps /\
    (maxxfe (snoop ps s) = maxxfe s \/ In (maxxfe (snoop ps s)) (map XFE_TP ps)).
Proof.
  induction ps as [|p ps IH]; intro s; cbn [snoop fold_left map In].
  - split; [lra | split; [constructor | now left]].
  - destruct (IH (checkMaxFE p (addMedianVels p s))) as (Hge & Hall & Hin).
    fold (snoop ps (checkMaxFE p (addMedianVels p s))) in *.
    destruct (checkMaxFE_x p (addMedianVels p s)) as (Hx & _).
    change (maxxfe (addMedianVels p s)) with (maxxfe s) in Hx.
    rewrite Hx in Hge, Hin.
    destruct (Qltb (Qabs (maxxfe s)) (Qabs (XFE_TP p))) eqn:E.
    + apply Qltb_lt in E. split; [lra|]. split; [constructor; [exact Hge | exact Hall]|].
      right. destruct Hin as [->|Hin]; [now left | now right].
    + apply Qltb_ge in E. split; [exact Hge|].
      split; [constructor; [lra | exact Hall]|].
      destruct Hin as [Hin|Hin]; [now left | now right; right].
Qed.

Lemma snoop_maxyfe (ps : list Pointing) :
  forall s : Legacy,
    Qabs (maxyfe s) <= Qabs (maxyfe (snoop ps s)) /\
    Forall (fun p => Qabs (YFE_TP p) <= Qabs (maxyfe (snoop ps s))) ps /\
    (maxyfe (snoop ps s) = maxyfe s \/ In (maxyfe (snoop ps s)) (map YFE_TP ps)).
Proof.
  induction ps as [|p ps IH]; intro s; cbn [snoop fold_left map In].
  - split; [lra | split; [constructor | now left]].
  - destruct (IH (checkMaxFE p (addMedianVels p s))) as (Hge & Hall & Hin).
    fold (snoop ps (checkMaxFE p (addMedianVels p s))) in *.
    destruct (checkMaxFE_x p (addMedianVels p s)) as (_ & Hy).
    change (maxyfe (addMedianVels p s)) with (maxyfe s) in Hy.
    rewrite Hy in Hge, Hin.
    destruct (Qltb (Qabs (maxyfe s)) (Qabs (YFE_TP p))) eqn:E.
    + apply Qltb_lt in E. split; [lra|]. split; [constructor; [exact Hge | exact Hall]|].
      right. destruct Hin as [->|Hin]; [now left | now right].
    + apply Qltb_ge in E. split; [exact Hge|].
      split; [constructor; [lra | exact Hall]|].
      destruct Hin as [Hin|Hin]; [now left | now right; right].
Qed.

End KeplerLegacyFacts.

(** X13.  With a [qsort] that sorts, the median velocities reported after
    an exposure start and the samples [ps] are 0 when no sample was
    snooped; otherwise each is one of the samples, at least
    [n / 2 + 1] of the [n] samples are at most it and at least
    [n - n / 2] are at least it.  The call leaves the arrays sorted, with
    the samples they held. *)
Theorem X13_median_velocities
  (qsort : list Q -> list Q) (ps : list KeplerLegacy.Pointing)
  (s : KeplerLegacy.Legacy) :
  KeplerLegacy.sorts qsort ->
  let s1 := KeplerLegacy.snoop ps (KeplerLegacy.exposure_start s) in
  let mxv := fst (fst (KeplerLegacy.getMedianVels qsort s1)) in
  let myv := snd (fst (KeplerLegacy.getMedianVels qsort s1)) in
  let s2 := snd (KeplerLegacy.getMedianVels qsort s1) in
  (ps = [] -> mxv = 0 /\ myv = 0) /\
  (ps <> [] ->
   In mxv (map KeplerLegacy.XVEL_TP ps) /\
   (length ps / 2 + 1
    <= KeplerLegacy.at_most mxv (map KeplerLegacy.XVEL_TP ps))%nat /\
   (length ps - length ps / 2
    <= KeplerLegacy.at_least mxv (map KeplerLegacy.XVEL_TP ps))%nat /\
   In myv (map KeplerLegacy.YVEL_TP ps) /\
   (length ps / 2 + 1
    <= KeplerLegacy.at_most myv (map KeplerLegacy.YVEL_TP ps))%nat /\
   (length ps - length ps / 2
    <= KeplerLegacy.at_least myv (map KeplerLegacy.YVEL_TP ps))%nat) /\
  Permutation (map KeplerLegacy.XVEL_TP ps) (KeplerLegacy.xvels s2) /\
  Permutation (map KeplerLegacy.YVEL_TP ps) (KeplerLegacy.yvels s2) /\
  (ps <> [] ->
   StronglySorted (fun a b => (KeplerLegacy.med_cmpf a b <= 0)%Z)
     (KeplerLegacy.xvels s2) /\
   StronglySorted (fun a b => (KeplerLegacy.med_cmpf a b <= 0)%Z)
     (KeplerLegacy.yvels s2)).
Proof.
  intros Hsort s1 mxv myv s2. subst mxv myv s2.
  destruct (KeplerLegacyFacts.snoop_vels ps (KeplerLegacy.exposure_start s))
    as (Hx & Hy).
  fold s1 in Hx, Hy. cbn [KeplerLegacy.exposure_start KeplerLegacy.initMedianVels
                           KeplerLegacy.xvels KeplerLegacy.yvels app] in Hx, Hy.
  unfold KeplerLegacy.getMedianVels. rewrite Hx, Hy, !length_map.
  destruct ps as [|p ps].
  - cbn. split; [intros _; split; reflexivity|].
    split; [intro H; contradiction|]. split; [constructor|].
    split; [constructor|]. intro H; contradiction.
  - set (qs := p :: ps) in *.
    assert (Hn : (0 < length qs)%nat) by (cbn; lia).
    assert (Hpos : (0 <? length qs)%nat = true) by (apply Nat.ltb_lt; exact Hn).
    rewrite Hpos. cbn [fst snd KeplerLegacy.xvels KeplerLegacy.yvels].
    destruct (Hsort (map KeplerLegacy.XVEL_TP qs)) as (Hpx & Hsx).
    destruct (Hsort (map KeplerLegacy.YVEL_TP qs)) as (Hpy & Hsy).
    pose proof (KeplerLegacyFacts.median_rank _ _ Hpx Hsx) as Hmx.
    pose proof (KeplerLegacyFacts.median_rank _ _ Hpy Hsy) as Hmy.
    rewrite !length_map in Hmx, Hmy.
    destruct (Hmx Hn) as (Hx1 & Hx2 & Hx3). destruct (Hmy Hn) as (Hy1 & Hy2 & Hy3).
    split; [discriminate|].
    split; [intros _; repeat split; assumption|].
    split; [exact Hpx|]. split; [exact Hpy|]. intros _. split; assumption.
Qed.

(** Five samples with the velocities 3, 1, 2, 5, 4 in HA and 0.5 in Dec,
    sorted by insertion: the median in HA is one of them, with at least
    three samples on either side; without samples it is 0. *)
Lemma X13_median_velocities_witness :
  (In (fst (fst (KeplerLegacy.getMedianVels KeplerLegacy.insertion_sort
                   (KeplerLegacy.snoop
                      [KeplerLegacy.sample 3 (1 # 2) 0 0;
                       KeplerLegacy.sample 1 (1 # 2) 0 0;
                       KeplerLegacy.sample 2 (1 # 2) 0 0;
                       KeplerLegacy.sample 5 (1 # 2) 0 0;
                       KeplerLegacy.sample 4 (1 # 2) 0 0]
                      (KeplerLegacy.exposure_start KeplerLegacy.fresh)))))
      [3; 1; 2; 5; 4]) /\
  fst (fst (KeplerLegacy.getMedianVels KeplerLegacy.insertion_sort
              (KeplerLegacy.snoop []
                 (KeplerLegacy.exposure_start KeplerLegacy.fresh)))) = 0.
Proof.
  split.
  - refine (proj1 (proj1 (proj2 (X13_median_velocities KeplerLegacy.insertion_sort
              [KeplerLegacy.sample 3 (1 # 2) 0 0;
               KeplerLegacy.sample 1 (1 # 2) 0 0;
               KeplerLegacy.sample 2 (1 # 2) 0 0;
               KeplerLegacy.sample 5 (1 # 2) 0 0;
               KeplerLegacy.sample 4 (1 # 2) 0 0]
              KeplerLegacy.fresh KeplerLegacyFacts.insertion_sort_sorts)) _)).
    discriminate.
  - exact (proj1 (proj1 (X13_median_velocities KeplerLegacy.insertion_sort []
              KeplerLegacy.fresh KeplerLegacyFacts.insertion_sort_sorts) eq_refl)).
Defined.

(** X14.  After an exposure start and the samples [ps], the maximum
    following error stored on each axis is 0 or one of the errors
    snooped, and no error snooped is larger in absolute value. *)
Theorem X14_max_following_error
  (ps : list KeplerLegacy.Pointing) (s : KeplerLegacy.Legacy) :
  let s1 := KeplerLegacy.snoop ps (KeplerLegacy.exposure_start s) in
  Forall (fun p => Qabs (KeplerLegacy.XFE_TP p) <= Qabs (KeplerLegacy.maxxfe s1)) ps /\
  (KeplerLegacy.maxxfe s1 = 0 \/
   In (KeplerLegacy.maxxfe s1) (map KeplerLegacy.XFE_TP ps)) /\
  Forall (fun p => Qabs (KeplerLegacy.YFE_TP p) <= Qabs (KeplerLegacy.maxyfe s1)) ps /\
  (KeplerLegacy.maxyfe s1 = 0 \/
   In (KeplerLegacy.maxyfe s1) (map KeplerLegacy.YFE_TP ps)).
Proof.
  intro s1. subst s1.
  destruct (KeplerLegacyFacts.snoop_maxxfe ps (KeplerLegacy.exposure_start s))
    as (_ & Hx & Hxin).
  destruct (KeplerLegacyFacts.snoop_maxyfe ps (KeplerLegacy.exposure_start s))
    as (_ & Hy & Hyin).
  split; [exact Hx|]. split; [exact Hxin|]. split; [exact Hy | exact Hyin].
Qed.

Module LoaderFacts.
Import stdpp.base stdpp.strings stdpp.gmap stdpp.pretty.
Import Loader.
#[local] Open Scope Z_scope.

Lemma append_empty_r (s : string) : s +:+ EmptyString = s.
Proof.
  induction s as [|a s IH]; [reflexivity|].
  change (String a (s +:+ EmptyString) = String a s). f_equal. exact IH.
Qed.

Lemma candidate_inj (cameraName : string) : Inj (=) (=) (candidate cameraName).
Proof.
  intros j k H. destruct j as [|j], k as [|k]; cbn [candidate] in H.
  - reflexivity.
  - exfalso. rewrite <- (append_empty_r cameraName) in H at 1.
    apply (inj (String.append cameraName)) in H. discriminate.
  - exfalso. rewrite <- (append_empty_r cameraName) in H at 2.
    apply (inj (String.append cameraName)) in H. discriminate.
  - apply (inj (String.append cameraName)) in H.
    apply (inj (String.append " ")) in H.
    unfold to_wstring in H. apply (inj pretty) in H. lia.
Qed.

(** [n] names tried and found taken are [n] entries of the map. *)
Lemma taken_bound (cameraName : string) (used : gmap string bool) (n : nat) :
  (forall j, (j < n)%nat -> taken used (candidate cameraName j)) ->
  (n <= size used)%nat.
Proof.
  intro H.
  assert (Hsub : list_to_set (candidate cameraName <$> seq 0 n) ⊆@{gset string} dom used).
  { intros x Hx. apply elem_of_list_to_set, list_elem_of_fmap in Hx.
    destruct Hx as (j & -> & Hj). apply elem_of_seq in Hj.
    apply elem_of_dom. exists true. apply H. lia. }
  apply subseteq_size in Hsub.
  rewrite size_list_to_set, length_fmap, length_seq, size_dom in Hsub.
  - exact Hsub.
  - apply NoDup_fmap_2; [apply candidate_inj | apply NoDup_seq].
Qed.

Lemma Loader_int_small (z : Z) : - 2 ^ 31 <= z < 2 ^ 31 -> int z = z.
Proof. intro H. unfold int. rewrite Z.mod_small; lia. Qed.

(** The loop started at the [k]-th name, the names before it being
    taken, stops at the first name that is not. *)
Lemma make_loop_spec (name : string) (used : gmap string bool) (fuel : nat) :
  forall k : nat,
    (forall j, (j < k)%nat -> taken used (candidate name j)) ->
    (size used < fuel + k)%nat ->
    Z.of_nat (size used) < 2 ^ 31 - 1 ->
    exists n : nat,
      (k <= n <= size used)%nat /\
      ~ taken used (candidate name n) /\
      (forall j, (j < n)%nat -> taken used (candidate name j)) /\
      make_loop fuel (Z.of_nat k) name (candidate name k) used
      = Some (candidate name n, (used_at (candidate name n) used).2).
Proof.
  induction fuel as [|fuel IH]; intros k Hk Hfuel Hint;
    pose proof (taken_bound name used k Hk) as Hbound; [lia|].
  cbn [make_loop]. unfold used_at at 1.
  destruct (used !! candidate name k) as [[|]|] eqn:E.
  - assert (Hk' : forall j, (j < S k)%nat -> taken used (candidate name j)).
    { intros j Hj. destruct (decide (j = k)) as [->|]; [exact E | apply Hk; lia]. }
    pose proof (taken_bound name used (S k) Hk') as Hbound'.
    rewrite Loader_int_small by lia.
    replace (Z.of_nat k + 1) with (Z.of_nat (S k)) by lia.
    destruct (IH (S k) Hk' ltac:(lia) Hint) as (n & Hn & Hfree & Hall & Hrun).
    exists n. split; [lia|]. split; [exact Hfree|]. split; [exact Hall|].
    exact Hrun.
  - exists k. split; [lia|]. split; [unfold taken; congruence|].
    split; [exact Hk|]. unfold used_at. rewrite E. reflexivity.
  - exists k. split; [lia|]. split; [unfold taken; congruence|].
    split; [exact Hk|]. unfold used_at. rewrite E. reflexivity.
Qed.

(** Marking the name found gives the same map whether the test left an
    entry for it or not. *)
Lemma mark_used_at (name : string) (used : gmap string bool) :
  <[name := true]> (used_at name used).2 = mark name used.
Proof.
  unfold used_at, mark. destruct (used !! name); [reflexivity|].
  cbn [snd]. apply insert_insert_eq.
Qed.

Lemma make_spec (fuel : nat) (cFriendlyName : string) (used : gmap string bool) :
  (entries used < fuel)%nat ->
  Z.of_nat (entries used) < 2 ^ 31 - 1 ->
  exists n : nat,
    (n <= entries used)%nat /\
    ~ taken used (candidate (cameraName cFriendlyName) n) /\
    (forall j, (j < n)%nat -> taken used (candidate (cameraName cFriendlyName) j)) /\
    make fuel cFriendlyName used
    = Some (candidate (cameraName cFriendlyName) n,
            mark (candidate (cameraName cFriendlyName) n) used).
Proof.
  unfold entries. intros Hfuel Hint. unfold make. cbv zeta.
  change ("FLI " +:+ cFriendlyName) with (cameraName cFriendlyName).
  destruct (make_loop_spec (cameraName cFriendlyName) used fuel 0)
    as (n & Hn & Hfree & Hall & Hrun); [intros j Hj; lia | lia | exact Hint |].
  change (Z.of_nat 0) with 0 in Hrun. cbn [candidate] in Hrun. rewrite Hrun.
  exists n. split; [lia|]. split; [exact Hfree|]. split; [exact Hall|].
  rewrite mark_used_at. reflexivity.
Qed.

Lemma taken_mark (name x : string) (used : gmap string bool) :
  taken (mark name used) x <-> x = name \/ taken used x.
Proof.
  unfold taken, mark. destruct (decide (x = name)) as [->|Hne].
  - rewrite lookup_insert_eq. split; [now left | reflexivity].
  - rewrite lookup_insert_ne by congruence.
    split; [now right | intros [?|?]; [contradiction | assumption]].
Qed.

Lemma entries_mark (name : string) (used : gmap string bool) :
  (entries (mark name used) <= S (entries used))%nat.
Proof.
  unfold entries, mark. destruct (used !! name) eqn:E.
  - rewrite map_size_insert_Some by eauto. lia.
  - rewrite map_size_insert_None by exact E. lia.
Qed.

Lemma make_all_spec (fuel : nat) (infos : list string) :
  forall used : gmap string bool,
    (entries used + length infos <= fuel)%nat ->
    Z.of_nat (entries used + length infos) < 2 ^ 31 ->
    exists names used',
      make_all fuel infos used = Some (names, used') /\
      length names = length infos /\
      List.NoDup names /\
      (forall x, In x names -> ~ taken used x) /\
      (forall x, taken used' x <-> taken used x \/ In x names).
Proof.
  induction infos as [|info infos IH]; intros used Hfuel Hint; cbn [make_all].
  - exists [], used. split; [reflexivity|]. split; [reflexivity|].
    split; [apply List.NoDup_nil|]. split; [intros x []|].
    intro x. split; [now left | intros [?|[]]; assumption].
  - cbn [length] in Hfuel, Hint.
    destruct (make_spec fuel info used) as (n & _ & Hfree & _ & Hmake);
      [lia | lia |].
    rewrite Hmake.
    set (name := candidate (cameraName info) n) in *.
    pose proof (entries_mark name used) as Hsize.
    destruct (IH (mark name used)) as (names & used' & Hall & Hlen & Hnd & Hnew & Htaken);
      [lia | lia |].
    rewrite Hall. exists (name :: names), used'.
    split; [reflexivity|]. split; [cbn [length]; lia|].
    split; [|split].
    + apply List.NoDup_cons; [|exact Hnd].
      intro Hin. apply (Hnew name Hin). apply taken_mark. now left.
    + intros x [<-|Hin]; [exact Hfree|].
      intro Ht. apply (Hnew x Hin). apply taken_mark. now right.
    + intro x. rewrite Htaken, taken_mark. cbn [In].
      split; [intros [[->|?]|?] | intros [?|[<-|?]]]; auto.
Qed.

End LoaderFacts.

(** X11.  [UniqueName::make] returns: with fewer than 2^31 - 1 entries in
    the map, the loop stops at the first of the names "FLI <friendly>",
    "FLI <friendly> 1", "FLI <friendly> 2", ... that is not marked, which is
    found among the first [entries + 1] of them; that name is returned and
    marked, and no other entry of the map changes. *)
Theorem X11_make_unique_name
  (fuel : nat) (cFriendlyName : String.string)
  (used : stdpp.gmap.gmap String.string bool) :
  (Loader.entries used < fuel)%nat ->
  (Z.of_nat (Loader.entries used) < 2 ^ 31 - 1)%Z ->
  exists n : nat,
    (n <= Loader.entries used)%nat /\
    ~ Loader.taken used (Loader.candidate (Loader.cameraName cFriendlyName) n) /\
    (forall j, (j < n)%nat ->
               Loader.taken used (Loader.candidate (Loader.cameraName cFriendlyName) j)) /\
    Loader.make fuel cFriendlyName used
    = Some (Loader.candidate (Loader.cameraName cFriendlyName) n,
            Loader.mark (Loader.candidate (Loader.cameraName cFriendlyName) n) used) /\
    forall x,
      Loader.taken
        (Loader.mark (Loader.candidate (Loader.cameraName cFriendlyName) n) used) x
      <-> x = Loader.candidate (Loader.cameraName cFriendlyName) n
          \/ Loader.taken used x.
Proof.
  intros Hfuel Hint.
  destruct (LoaderFacts.make_spec fuel cFriendlyName used Hfuel Hint)
    as (n & Hn & Hfree & Hall & Hmake).
  exists n. split; [exact Hn|]. split; [exact Hfree|]. split; [exact Hall|].
  split; [exact Hmake|]. intro x. apply LoaderFacts.taken_mark.
Qed.

(** A third Kepler beside "FLI Kepler" and "FLI Kepler 1". *)
Lemma X11_make_unique_name_witness :
  exists n : nat,
    (n <= Loader.entries Loader.two_keplers)%nat /\
    ~ Loader.taken Loader.two_keplers
        (Loader.candidate (Loader.cameraName Loader.friendly) n) /\
    Loader.make 5 Loader.friendly Loader.two_keplers
    = Some (Loader.candidate (Loader.cameraName Loader.friendly) n,
            Loader.mark (Loader.candidate (Loader.cameraName Loader.friendly) n)
                        Loader.two_keplers).
Proof.
  destruct (X11_make_unique_name 5 Loader.friendly Loader.two_keplers)
    as (n & Hn & Hfree & _ & Hmake & _).
  - vm_compute. lia.
  - vm_compute. reflexivity.
  - exists n. split; [exact Hn | split; [exact Hfree | exact Hmake]].
Defined.

(** X12.  The names that successive calls of [make] on one map return,
    as for the cameras that one run of [load] creates, are pairwise
    different and none of them was marked before; afterwards exactly the
    names marked before and the names made are marked.  All the calls
    return while the map stays below 2^31 entries. *)
Theorem X12_made_names_distinct
  (fuel : nat) (infos : list String.string)
  (used : stdpp.gmap.gmap String.string bool) :
  (Loader.entries used + length infos <= fuel)%nat ->
  (Z.of_nat (Loader.entries used + length infos) < 2 ^ 31)%Z ->
  exists names used',
    Loader.make_all fuel infos used = Some (names, used') /\
    length names = length infos /\
    List.NoDup names /\
    (forall x, List.In x names -> ~ Loader.taken used x) /\
    (forall x, Loader.taken used' x <-> Loader.taken used x \/ List.In x names).
Proof.
  intros Hfuel Hint.
  destruct (LoaderFacts.make_all_spec fuel infos used Hfuel Hint)
    as (names & used' & Hall & Hlen & Hnd & Hnew & Htaken).
  exists names, used'. split; [exact Hall|]. split; [exact Hlen|].
  split; [exact Hnd|]. split; [exact Hnew | exact Htaken].
Qed.

(** Three more cameras with the same friendly name beside the two names
    marked. *)
Lemma X12_made_names_distinct_witness :
  exists names used',
    Loader.make_all 9 [Loader.friendly; Loader.friendly; Loader.friendly]
      Loader.two_keplers = Some (names, used') /\
    length names = 3%nat /\
    List.NoDup names /\
    (forall x, List.In x names -> ~ Loader.taken Loader.two_keplers x).
Proof.
  destruct (X12_made_names_distinct 9
              [Loader.friendly; Loader.friendly; Loader.friendly] Loader.two_keplers)
    as (names & used' & Hall & Hlen & Hnd & Hnew & _).
  - vm_compute. lia.
  - vm_compute. reflexivity.
  - exists names, used'.
    split; [exact Hall | split; [exact Hlen | split; [exact Hnd | exact Hnew]]].
Defined.
